(** * A shallow embedding of the csgo client core

    The development follows the layout of the Python package:

    - [sharecode]      : [csgo/sharecode.py], the match share-code codec;
    - [sharedobjects]  : [csgo/features/sharedobjects.py], the shared-object
                         cache ([SOCache]) and its notification handlers;
    - [client]         : [csgo/client.py], connection status, job ids and the
                         routing of inbound coordinator messages.

    Python integers are unbounded, so they are modelled by [Z]; [%] and [//]
    with a positive divisor are [Z.modulo] and [Z.div], and the bit operators
    on integers are [Z.land], [Z.lor], [Z.shiftl] and [Z.shiftr].  Python
    strings are lists of characters. *)

From Stdlib Require Import ZArith Lia List Ascii String Bool.
From stdpp Require Import base option list gmap strings pretty fin_maps.

Local Open Scope Z_scope.

(** Python [str]. *)
Abbreviation str := (list ascii).

Definition lit (s : string) : str := list_ascii_of_string s.

(** [range(start, stop, step)] for a positive [step]. *)
Definition range (start stop step : Z) : list Z :=
  (λ i, start + step * i) <$> seqZ 0 ((stop - start + step - 1) `div` step).

(** * Positional digits

    Both loops of the codec are positional conversions: [_swap_endianness]
    reads 18 base-256 digits and [encode] reads 25 base-57 digits, least
    significant first.  The facts about such digit lists are shared. *)
Module digits.

(** The [n] least significant base-[b] digits of [x], lowest first. *)
Fixpoint le_digits (b : Z) (n : nat) (x : Z) : list Z :=
  match n with
  | O => []
  | S n' => x `mod` b :: le_digits b n' (x `div` b)
  end.

(** The value of a digit list read lowest digit first. *)
Fixpoint le_value (b : Z) (ds : list Z) : Z :=
  match ds with
  | [] => 0
  | d :: ds' => d + b * le_value b ds'
  end.

(** The accumulating loop [acc = acc * b + d], highest digit first. *)
Definition be_value (b : Z) (ds : list Z) (acc : Z) : Z :=
  fold_left (λ r d, r * b + d) ds acc.

Definition in_base (b : Z) (d : Z) : Prop := 0 <= d < b.

End digits.

(** * csgo/sharecode.py *)
Module sharecode.
Import digits.

Definition dictionary : str :=
  lit "ABCDEFGHJKLMNOPQRSTUVWXYZabcdefhijkmnopqrstuvwxyz23456789".

Definition DICTIONARY_LENGTH : Z := Z.of_nat (length dictionary).

Definition _bitmask64 : Z := 2 ^ 64 - 1.

(** [_swap_endianness]: the loop body is
    [result = (result << 8) + ((number >> n) & 0xFF)]. *)
Definition _swap_endianness (number : Z) : Z :=
  fold_left (λ result n, Z.shiftl result 8 + Z.land (Z.shiftr number n) 255)
            (range 0 144 8) 0.

(** [dictionary[r]].  The only call site indexes with [r = num % 57], which
    lies in [0, 57) (see [encode_index_in_range]), so the index is never out
    of range and the default below is never returned. *)
Definition dictionary_at (r : Z) : ascii := nth (Z.to_nat r) dictionary "A"%char.

(** [dictionary.index(c)]: the position of the first occurrence; [None]
    stands for the [ValueError] that [str.index] raises. *)
Fixpoint index_from (c : ascii) (s : str) (i : Z) : option Z :=
  match s with
  | [] => None
  | x :: s' => if Ascii.eqb x c then Some i else index_from c s' (i + 1)
  end.

Definition index (s : str) (c : ascii) : option Z := index_from c s 0.

(** ** The pattern [CSGO(-[{<dictionary>}]{5}){5}$]

    The character class is written [[{%s}]], so besides the 57 symbols of
    the dictionary it also contains the two braces.  [re.match] anchors at
    the start; [$] matches at the end of the string or just before a final
    newline.  Every quantifier has a fixed count, so matching is a single
    left-to-right pass. *)
Definition in_class (c : ascii) : bool :=
  existsb (Ascii.eqb c) (lit "{" ++ dictionary ++ lit "}").

Fixpoint strip_literal (p s : str) : option str :=
  match p, s with
  | [], _ => Some s
  | a :: p', b :: s' => if Ascii.eqb a b then strip_literal p' s' else None
  | _ :: _, [] => None
  end.

Fixpoint match_class (n : nat) (s : str) : option str :=
  match n with
  | O => Some s
  | S n' =>
      match s with
      | c :: s' => if in_class c then match_class n' s' else None
      | [] => None
      end
  end.

Definition match_group (s : str) : option str :=
  strip_literal (lit "-") s ≫= match_class 5.

Fixpoint match_groups (n : nat) (s : str) : option str :=
  match n with
  | O => Some s
  | S n' => match_group s ≫= match_groups n'
  end.

Definition at_dollar (s : str) : bool :=
  match s with
  | [] => true
  | [c] => Ascii.eqb c "010"%char
  | _ => false
  end.

Definition CODE_PATTERN_match (code : str) : bool :=
  match strip_literal (lit "CSGO") code ≫= match_groups 5 with
  | Some rest => at_dollar rest
  | None => false
  end.

(** [str.removeprefix] and [str.replace] with a one-character pattern. *)
Definition removeprefix (p s : str) : str := default s (strip_literal p s).

Definition replace (old : ascii) (new : str) (s : str) : str :=
  flat_map (λ c, if Ascii.eqb c old then new else [c]) s.

(** Slices [s[a:b]] and [s[a:]] for [0 <= a <= b]. *)
Definition slice (a b : nat) (s : str) : str := take (b - a) (drop a s).

(** The dict returned by [decode]. *)
Record sharecode_info := mk_info { matchid : Z; outcomeid : Z; token : Z }.

(** The loop [num = num * DICTIONARY_LENGTH + dictionary.index(c)]. *)
Fixpoint decode_loop (cs : str) (num : Z) : option Z :=
  match cs with
  | [] => Some num
  | c :: cs' => index dictionary c ≫= λ i, decode_loop cs' (num * DICTIONARY_LENGTH + i)
  end.

(** [decode]; [None] is the [ValueError] raised for a string that does not
    match the pattern, or by [dictionary.index]. *)
Definition decode (code : str) : option sharecode_info :=
  if negb (CODE_PATTERN_match code) then None
  else
    let code := replace "-"%char [] (removeprefix (lit "CSGO") code) in
    num ← decode_loop (rev code) 0;
    let num := _swap_endianness num in
    Some {| matchid := Z.land num _bitmask64;
            outcomeid := Z.land (Z.shiftr num 64) _bitmask64;
            token := Z.land (Z.shiftr num 128) 65535 |}.

(** The loop [num, r = divmod(num, DICTIONARY_LENGTH); code += dictionary[r]]. *)
Fixpoint encode_loop (n : nat) (num : Z) (code : str) : str :=
  match n with
  | O => code
  | S n' =>
      let r := num `mod` DICTIONARY_LENGTH in
      encode_loop n' (num `div` DICTIONARY_LENGTH) (code ++ [dictionary_at r])
  end.

(** The f-string
    [f'CSGO-{code[:5]}-{code[5:10]}-{code[10:15]}-{code[15:20]}-{code[20:]}']. *)
Definition grouped (code : str) : str :=
  lit "CSGO-" ++ slice 0 5 code ++ lit "-" ++ slice 5 10 code ++ lit "-"
    ++ slice 10 15 code ++ lit "-" ++ slice 15 20 code ++ lit "-" ++ drop 20 code.

(** The expression [(token << 128) | (outcomeid << 64) | matchid]. *)
Definition packed (matchid outcomeid token : Z) : Z :=
  Z.lor (Z.lor (Z.shiftl token 128) (Z.shiftl outcomeid 64)) matchid.

Definition encode (matchid outcomeid token : Z) : str :=
  let num := _swap_endianness (packed matchid outcomeid token) in
  let code := encode_loop 25 num [] in
  grouped code.

(** [c in dictionary]. *)
Definition in_dictionary (c : ascii) : bool := existsb (Ascii.eqb c) dictionary.

End sharecode.

(** * Statements that mutate a state and may raise

    A Python function either returns or raises; in both cases the mutations
    it made so far persist.  The monad is shared by the cache and the
    client, each with its own state. *)
Module pymonad.

(** The exceptions that the modelled code can raise. *)
Inductive Exn := KeyError | ValueError | TypeError | AttributeError | DecodeError.

#[global] Instance Exn_eq_dec : EqDecision Exn.
Proof. solve_decision. Defined.

Inductive Res (S A : Type) :=
| Ok (a : A) (s : S)
| Raise (e : Exn) (s : S).
Arguments Ok {S A} a s.
Arguments Raise {S A} e s.

Definition M (S A : Type) : Type := S → Res S A.

#[global] Instance M_ret {S} : MRet (M S) := λ A a s, Ok a s.
#[global] Instance M_bind {S} : MBind (M S) :=
  λ A B f m s, match m s with Ok a s' => f a s' | Raise e s' => Raise e s' end.

Definition raise {S A} (e : Exn) : M S A := λ s, Raise e s.
Definition gets {S A} (f : S → A) : M S A := λ s, Ok (f s) s.
Definition modify {S} (f : S → S) : M S unit := λ s, Ok tt (f s).

(** The state in which a computation ends, returned or raised. *)
Definition final {S A} (r : Res S A) : S :=
  match r with Ok _ s => s | Raise _ s => s end.

(** A [for] loop whose body may [break]. *)
Inductive LoopCtl := Continue | Break.

Fixpoint for_ {S A} (l : list A) (body : A → M S LoopCtl) : M S unit :=
  match l with
  | [] => mret tt
  | x :: l' => c ← body x; match c with Continue => for_ l' body | Break => mret tt end
  end.

(** Runs the primitive statements of the monad in the goal. *)
Ltac mrun :=
  repeat (progress (unfold mbind, M_bind, mret, M_ret, gets, modify, raise;
                    cbv beta iota)).

End pymonad.

(** * csgo/common_enums.py *)
Module common_enums.

(** [class ESOType(IntEnum)]. *)
Inductive ESOType :=
| CSOEconItem
| CSOPersonaDataPublic
| CSOItemRecipe
| CSOEconGameAccountClient
| CSOEconItemDropRateBonus
| CSOEconItemEventTicket
| CSOAccountSeasonalOperation
| CSOEconDefaultEquippedDefinitionInstanceClient
| CSOEconCoupon
| CSOQuestProgress.

#[global] Instance ESOType_eq_dec : EqDecision ESOType.
Proof. solve_decision. Defined.

(** [member.value]. *)
Definition value (t : ESOType) : Z :=
  match t with
  | CSOEconItem => 1
  | CSOPersonaDataPublic => 2
  | CSOItemRecipe => 5
  | CSOEconGameAccountClient => 7
  | CSOEconItemDropRateBonus => 38
  | CSOEconItemEventTicket => 40
  | CSOAccountSeasonalOperation => 41
  | CSOEconDefaultEquippedDefinitionInstanceClient => 43
  | CSOEconCoupon => 45
  | CSOQuestProgress => 46
  end.

(** [member.name]. *)
Definition name (t : ESOType) : string :=
  match t with
  | CSOEconItem => "CSOEconItem"
  | CSOPersonaDataPublic => "CSOPersonaDataPublic"
  | CSOItemRecipe => "CSOItemRecipe"
  | CSOEconGameAccountClient => "CSOEconGameAccountClient"
  | CSOEconItemDropRateBonus => "CSOEconItemDropRateBonus"
  | CSOEconItemEventTicket => "CSOEconItemEventTicket"
  | CSOAccountSeasonalOperation => "CSOAccountSeasonalOperation"
  | CSOEconDefaultEquippedDefinitionInstanceClient =>
      "CSOEconDefaultEquippedDefinitionInstanceClient"
  | CSOEconCoupon => "CSOEconCoupon"
  | CSOQuestProgress => "CSOQuestProgress"
  end.

Definition members : list ESOType :=
  [CSOEconItem; CSOPersonaDataPublic; CSOItemRecipe; CSOEconGameAccountClient;
   CSOEconItemDropRateBonus; CSOEconItemEventTicket; CSOAccountSeasonalOperation;
   CSOEconDefaultEquippedDefinitionInstanceClient; CSOEconCoupon; CSOQuestProgress].

(** The lookup by value [ESOType(x)]; [None] stands for the [ValueError] the
    enum raises for a value that belongs to no member. *)
Definition ESOType_of (x : Z) : option ESOType :=
  List.find (λ t, value t =? x) members.

End common_enums.

(** * csgo/features/sharedobjects.py *)
Module sharedobjects.
Import common_enums pymonad.

(** ** Protobuf messages

    The generated protobuf modules [base_gcmessages_pb2] and
    [cstrike15_gcmessages_pb2] are not part of the sources.  What the cache
    uses of them is: the lookup of a message class by name in either module,
    the class descriptor with its fields and their options, and
    [FromString].  A descriptor is identified by the module and the name of
    its class; a message object is the descriptor of its class together with
    its field values, an unset field reading as 0. *)
Inductive PbModule := _gc_base | _gc_cstrike.

#[global] Instance PbModule_eq_dec : EqDecision PbModule.
Proof. solve_decision. Defined.

#[global] Instance PbModule_countable : Countable PbModule.
Proof.
  refine (inj_countable' (λ m, match m with _gc_base => false | _gc_cstrike => true end)
                         (λ b : bool, if b then _gc_cstrike else _gc_base) _).
  by intros [].
Defined.

Record Descriptor := mk_Descriptor {
  desc_id : PbModule * string;
  (** [desc.fields]: each field name with the options that
      [field.GetOptions().ListFields()] lists, as (option name, value). *)
  desc_fields : list (string * list (string * bool))
}.

Record Proto := mk_Proto {
  DESCRIPTOR : Descriptor;
  (** [None] stands for the [DecodeError] raised on malformed bytes. *)
  FromString : list Byte.byte → option (gmap string Z)
}.

Record Obj := mk_Obj {
  obj_desc : Descriptor;
  obj_fields : gmap string Z
}.

(** [getattr(obj, field)]. *)
Definition getattr (o : Obj) (field : string) : Z := default 0 (obj_fields o !! field).

(** Objects are mutable and shared, so they live in a store and the cache
    holds references. *)
Abbreviation loc := nat.

(** ** Keys *)

(** The values of the table [so_key_fields]: the sentinel, or field names. *)
Inductive KeyFields := NO_KEY | Fields (names : list string).

(** Truth value of a table entry: the sentinel is an [object()], a list is
    true unless empty. *)
Definition truthy_fields (k : KeyFields) : bool :=
  match k with
  | NO_KEY => true
  | Fields [] => false
  | Fields (_ :: _) => true
  end.

(** The results of [get_key_for_object]: the sentinel, [None], one field
    value, or a tuple of field values. *)
Inductive Key := KNoKey | KNone | KVal (v : Z) | KTuple (vs : list Z).

#[global] Instance Key_eq_dec : EqDecision Key.
Proof. solve_decision. Defined.

(** ** Python dicts of objects, in insertion order *)
Abbreviation pydict := (list (Key * loc)).

Fixpoint dict_get (k : Key) (d : pydict) : option loc :=
  match d with
  | [] => None
  | (k', v) :: d' => if decide (k' = k) then Some v else dict_get k d'
  end.

(** [d[k] = v]: an existing key keeps its position. *)
Fixpoint dict_set (k : Key) (v : loc) (d : pydict) : pydict :=
  match d with
  | [] => [(k, v)]
  | (k', v') :: d' => if decide (k' = k) then (k, v) :: d' else (k', v') :: dict_set k v d'
  end.

Fixpoint dict_del (k : Key) (d : pydict) : pydict :=
  match d with
  | [] => []
  | (k', v') :: d' => if decide (k' = k) then d' else (k', v') :: dict_del k d'
  end.

Definition dict_keys (d : pydict) : list Key := d.*1.

(** ** State *)

(** A value of the [SOCache] dict: a message object (a type without key) or
    a dict from keys to message objects. *)
Inductive Entry := EObj (l : loc) | EDict (d : pydict).

(** A value of [self._caches]: the dict with ['version'] and ['type_ids'].
    The Python set of type ids is kept as the list of its elements in the
    order of their first insertion, without repetitions.  That list is not
    the order in which Python iterates the set: see [set_iter] below. *)
Record CacheRec := mk_CacheRec {
  version : Z;
  type_ids : list Z
}.

Inductive EventName := new | updated | removed.

#[global] Instance EventName_eq_dec : EqDecision EventName.
Proof. solve_decision. Defined.

(** An emitted event [((name, type_id), obj)]. *)
Abbreviation Event := (EventName * ESOType * loc)%type.

Record State := mk_State {
  (** the [SOCache] dict itself; its keys are [ESOType] members, which hash
      and compare as their integer values *)
  socache : gmap Z Entry;
  _caches : gmap (Z * Z) CacheRec;
  (** the module-level table [so_key_fields] *)
  so_key_fields : gmap (PbModule * string) KeyFields;
  heap : list Obj;
  (** the events emitted so far, oldest first *)
  emitted : list Event
}.

Definition set_socache (f : gmap Z Entry → gmap Z Entry) (s : State) : State :=
  mk_State (f (socache s)) (_caches s) (so_key_fields s) (heap s) (emitted s).
Definition set_caches (f : gmap (Z * Z) CacheRec → gmap (Z * Z) CacheRec) (s : State) : State :=
  mk_State (socache s) (f (_caches s)) (so_key_fields s) (heap s) (emitted s).
Definition set_so_key_fields
    (f : gmap (PbModule * string) KeyFields → gmap (PbModule * string) KeyFields)
    (s : State) : State :=
  mk_State (socache s) (_caches s) (f (so_key_fields s)) (heap s) (emitted s).
Definition set_heap (f : list Obj → list Obj) (s : State) : State :=
  mk_State (socache s) (_caches s) (so_key_fields s) (f (heap s)) (emitted s).
Definition set_emitted (f : list Event → list Event) (s : State) : State :=
  mk_State (socache s) (_caches s) (so_key_fields s) (heap s) (f (emitted s)).

(** The table [so_key_fields] as the module defines it. *)
Definition so_key_fields_init : gmap (PbModule * string) KeyFields :=
  <[(_gc_base, "CSOEconItem"%string) := Fields ["id"%string]]>
  (<[(_gc_base, "CSOEconGameAccountClient"%string) := NO_KEY]>
  (<[(_gc_base, "CSOEconItemEventTicket"%string) := NO_KEY]>
  (<[(_gc_cstrike, "CSOPersonaDataPublic"%string) := NO_KEY]> ∅))).

(** The state after [SOCache.__init__]. *)
Definition init_state : State := mk_State ∅ ∅ so_key_fields_init [] [].

Abbreviation M := (pymonad.M State).

(** ** Notifications

    The decoded coordinator messages that the handlers read, with the fields
    they read. *)
Record CMsgSOSingleObject := mk_single {
  type_id : Z;
  object_data : list Byte.byte
}.

Record CMsgSOMultipleObjects := mk_multiple {
  objects_modified : list CMsgSOSingleObject
}.

Record SubscribedType := mk_subscribed_type {
  st_type_id : Z;
  st_object_data : list (list Byte.byte)
}.

Record CMsgSOCacheSubscribed := mk_subscribed {
  (** [owner_soid.type] and [owner_soid.id] *)
  sub_owner_soid : Z * Z;
  sub_version : Z;
  objects : list SubscribedType
}.

Record CMsgSOCacheUnsubscribed := mk_unsubscribed {
  unsub_owner_soid : Z * Z
}.

Record CMsgClientWelcome := mk_welcome {
  outofdate_subscribed_caches : list CMsgSOCacheSubscribed;
  game_data : list Byte.byte
}.

Section cache.

(** [getattr(module, name, None)] on the two protobuf modules. *)
Variable pb_getattr : PbModule → string → option Proto.

(** The order in which Python iterates a set, as a function of the elements
    in the order of their insertion.  The language does not fix that order
    (CPython follows the hash table), so it is left open here; the
    properties that depend on it assume [set_iterates]. *)
Variable set_iter : list Z → list Z.

Definition find_so_proto (t : ESOType) : option Proto :=
  match pb_getattr _gc_base (name t) with
  | Some proto => Some proto
  | None => pb_getattr _gc_cstrike (name t)
  end.

(** The names collected by the loop of [get_so_key_fields]: a field name for
    each of its options named [key_field] whose value is [True]. *)
Definition key_field_names (desc : Descriptor) : list string :=
  flat_map (λ field,
    flat_map (λ opt, if String.eqb opt.1 "key_field" && opt.2 then [field.1] else [])
             field.2)
    (desc_fields desc).

Definition get_so_key_fields (desc : Descriptor) : M KeyFields :=
  tbl ← gets so_key_fields;
  match tbl !! desc_id desc with
  | Some k => mret k
  | None =>
      let fields := key_field_names desc in
      modify (set_so_key_fields <[desc_id desc := Fields fields]>);;
      mret (Fields fields)
  end.

Definition get_key_for_object (o : Obj) : M Key :=
  key ← get_so_key_fields (obj_desc o);
  match key with
  | NO_KEY => mret KNoKey
  | Fields [] => mret KNone
  | Fields [f] => mret (KVal (getattr o f))
  | Fields fs => mret (KTuple (getattr o <$> fs))
  end.

(** [ESOType(x)] as a statement that may raise. *)
Definition ESOType_call (x : Z) : M ESOType :=
  match ESOType_of x with
  | Some t => mret t
  | None => raise ValueError
  end.

(** [SOCache.__getitem__]. *)
Definition __getitem__ (key : Z) : M Entry :=
  match ESOType_of key with
  | None => raise KeyError
  | Some key =>
      c ← gets socache;
      match c !! value key with
      | Some e => mret e
      | None =>
          modify (set_socache <[value key := EDict []]>);;
          mret (EDict [])
      end
  end.

(** [dict.__setitem__] on the cache: [self[t] = e]. *)
Definition __setitem__ (t : ESOType) (e : Entry) : M unit :=
  modify (set_socache <[value t := e]>).

(** [self.pop(t, None)]. *)
Definition pop_default (t : ESOType) : M (option Entry) :=
  c ← gets socache;
  modify (set_socache (delete (value t)));;
  mret (c !! value t).

(** [self.pop(t)]. *)
Definition pop (t : ESOType) : M Entry :=
  c ← gets socache;
  match c !! value t with
  | Some e => modify (set_socache (delete (value t)));; mret e
  | None => raise KeyError
  end.

(** [del self[t]]. *)
Definition __delitem__ (t : ESOType) : M unit :=
  c ← gets socache;
  match c !! value t with
  | Some _ => modify (set_socache (delete (value t)))
  | None => raise KeyError
  end.

(** A new message object. *)
Definition alloc (o : Obj) : M loc :=
  l ← gets (λ s, length (heap s));
  modify (set_heap (λ h, h ++ [o]));;
  mret l.

(** [dst.CopyFrom(src)] on message objects: the fields of [dst] are replaced
    by those of [src]; protobuf raises [TypeError] when the classes differ.
    Every reference the handlers hold was allocated before, so both lookups
    succeed. *)
Definition CopyFrom (dst src : loc) : M unit :=
  h ← gets heap;
  match h !! dst, h !! src with
  | Some d, Some o =>
      if decide (desc_id (obj_desc d) = desc_id (obj_desc o))
      then modify (set_heap <[dst := mk_Obj (obj_desc d) (obj_fields o)]>)
      else raise TypeError
  | _, _ => mret tt
  end.

Definition emit (ev : EventName) (t : ESOType) (obj : loc) : M unit :=
  modify (set_emitted (λ es, es ++ [(ev, t, obj)])).

(** [SOCache._handle_cleanup]. *)
Definition _handle_cleanup : M unit :=
  modify (set_socache (fmap (λ v, match v with EDict _ => EDict [] | EObj l => EObj l end)));;
  modify (set_socache (λ _, ∅));;
  modify (set_caches (λ _, ∅)).

(** [SOCache._get_proto_for_type]; [None] is the bare [return]. *)
Definition _get_proto_for_type (type_id : Z) : M (option Proto) :=
  match ESOType_of type_id with
  | None => mret None
  | Some type_id => mret (find_so_proto type_id)
  end.

(** [SOCache._parse_object_data]; [None] is the bare [return]. *)
Definition _parse_object_data (type_id : Z) (object_data : list Byte.byte)
    : M (option (Key * loc)) :=
  proto ← _get_proto_for_type type_id;
  match proto with
  | None => mret None
  | Some proto =>
      fields ← get_so_key_fields (DESCRIPTOR proto);
      if negb (truthy_fields fields) then mret None
      else
        match FromString proto object_data with
        | None => raise DecodeError
        | Some content =>
            let o := mk_Obj (DESCRIPTOR proto) content in
            obj ← alloc o;
            key ← get_key_for_object o;
            mret (Some (key, obj))
        end
  end.

(** [SOCache._update_object]; [None] is the bare [return].  Each
    [self[type_id]] of the source is a call of [__getitem__]; within one
    branch these calls read the same entry, so the cases in which a later
    call finds another kind of entry than the first are never taken. *)
Definition _update_object (type_id : Z) (object_data : list Byte.byte)
    : M (option (ESOType * loc)) :=
  result ← _parse_object_data type_id object_data;
  match result with
  | None => mret None
  | Some (key, obj) =>
      type_id ← ESOType_call type_id;
      match key with
      | KNoKey =>
          e ← __getitem__ (value type_id);
          match e with
          | EObj _ =>
              (* self[type_id].CopyFrom(obj); obj = self[type_id] *)
              e1 ← __getitem__ (value type_id);
              match e1 with
              | EObj l => CopyFrom l obj
              | EDict _ => raise AttributeError
              end;;
              e2 ← __getitem__ (value type_id);
              match e2 with
              | EObj l => mret (Some (type_id, l))
              | EDict _ => raise TypeError
              end
          | EDict _ =>
              __setitem__ type_id (EObj obj);;
              mret (Some (type_id, obj))
          end
      | _ =>
          e ← __getitem__ (value type_id);
          match e with
          | EObj _ => raise TypeError
          | EDict d =>
              match dict_get key d with
              | Some _ =>
                  (* self[type_id][key].CopyFrom(obj); obj = self[type_id][key] *)
                  e1 ← __getitem__ (value type_id);
                  match e1 with
                  | EDict d1 =>
                      match dict_get key d1 with
                      | Some l => CopyFrom l obj
                      | None => raise KeyError
                      end
                  | EObj _ => raise TypeError
                  end;;
                  e2 ← __getitem__ (value type_id);
                  match e2 with
                  | EDict d2 =>
                      match dict_get key d2 with
                      | Some l => mret (Some (type_id, l))
                      | None => raise KeyError
                      end
                  | EObj _ => raise TypeError
                  end
              | None =>
                  (* self[type_id][key] = obj *)
                  e1 ← __getitem__ (value type_id);
                  match e1 with
                  | EDict d1 => __setitem__ type_id (EDict (dict_set key obj d1))
                  | EObj _ => raise TypeError
                  end;;
                  mret (Some (type_id, obj))
              end
          end
      end
  end.

(** [SOCache._handle_create]. *)
Definition _handle_create (message : CMsgSOSingleObject) : M unit :=
  result ← _update_object (type_id message) (object_data message);
  match result with
  | None => mret tt
  | Some (type_id, obj) => emit new type_id obj
  end.

(** [SOCache._handle_update]. *)
Definition _handle_update (message : CMsgSOSingleObject) : M unit :=
  result ← _update_object (type_id message) (object_data message);
  match result with
  | None => mret tt
  | Some (type_id, obj) => emit updated type_id obj
  end.

(** [SOCache._handle_destroy].  [current] is [None], a message object or a
    dict; a message object is always true, a dict is true unless empty, and
    a dict has no [CopyFrom]. *)
Definition _handle_destroy (message : CMsgSOSingleObject) : M unit :=
  result ← _parse_object_data (type_id message) (object_data message);
  match result with
  | None => mret tt
  | Some (key, obj) =>
      type_id ← ESOType_call (type_id message);
      current ←
        match key with
        | KNoKey => pop_default type_id
        | _ =>
            e ← __getitem__ (value type_id);
            match e with
            | EDict d =>
                __setitem__ type_id (EDict (dict_del key d));;
                mret (EObj <$> dict_get key d)
            | EObj _ => raise AttributeError
            end
        end;
      match current with
      | Some (EObj l) => CopyFrom l obj;; emit removed type_id l
      | Some (EDict (_ :: _)) => raise AttributeError
      | Some (EDict []) | None => emit removed type_id obj
      end
  end.

(** [SOCache._handle_update_multiple]. *)
Definition _handle_update_multiple (message : CMsgSOMultipleObjects) : M unit :=
  for_ (objects_modified message) (λ so_object, _handle_update so_object;; mret Continue).

(** [set.update] on a set kept as a list without repetitions. *)
Definition set_update (s : list Z) (xs : list Z) : list Z :=
  foldl (λ acc x, if decide (x ∈ acc) then acc else acc ++ [x]) s xs.

(** The body of the inner loop of [_handle_cache_subscribed]. *)
Definition apply_object (type_id : Z) (object_bytes : list Byte.byte) : M LoopCtl :=
  result ← _update_object type_id object_bytes;
  match result with
  | None => mret Break
  | Some (type_id, obj) => emit new type_id obj;; mret Continue
  end.

(** The body of the outer loop: the [break] leaves the inner loop only. *)
Definition apply_group (objects : SubscribedType) : M LoopCtl :=
  for_ (st_object_data objects) (apply_object (st_type_id objects));;
  mret Continue.

(** The bookkeeping of [_handle_cache_subscribed] before its loops. *)
Definition record_subscription (message : CMsgSOCacheSubscribed) : M unit :=
  let cache_key := sub_owner_soid message in
  modify (set_caches (λ caches,
    let cache := default (mk_CacheRec 0 []) (caches !! cache_key) in
    <[cache_key := mk_CacheRec (sub_version message)
                     (set_update (type_ids cache) (st_type_id <$> objects message))]> caches)).

(** [SOCache._handle_cache_subscribed]. *)
Definition _handle_cache_subscribed (message : CMsgSOCacheSubscribed) : M unit :=
  record_subscription message;;
  for_ (objects message) apply_group.

(** [SOCache._handle_client_welcome]. *)
Definition _handle_client_welcome (message : CMsgClientWelcome) : M unit :=
  for_ (outofdate_subscribed_caches message) (λ one,
    _handle_cache_subscribed one;; mret Continue).

(** [SOCache._handle_cache_unsubscribed]. *)
Definition _handle_cache_unsubscribed (message : CMsgSOCacheUnsubscribed) : M unit :=
  let cache_key := unsub_owner_soid message in
  caches ← gets _caches;
  match caches !! cache_key with
  | None => mret tt
  | Some cache =>
      for_ (set_iter (type_ids cache)) (λ type_id,
        c ← gets socache;
        match c !! type_id with
        | None => mret Continue
        | Some _ =>
            type_id ← ESOType_call type_id;
            field ← __getitem__ (value type_id);
            match field with
            | EDict d =>
                for_ (dict_keys d) (λ key,
                  e ← __getitem__ (value type_id);
                  match e with
                  | EDict d1 =>
                      match dict_get key d1 with
                      | Some l =>
                          __setitem__ type_id (EDict (dict_del key d1));;
                          emit removed type_id l;;
                          mret Continue
                      | None => raise KeyError
                      end
                  | EObj _ => raise AttributeError
                  end)
            | EObj _ =>
                (* [self.pop(type_id)] returns the entry just read, an object *)
                e ← pop type_id;
                match e with
                | EObj l => emit removed type_id l
                | EDict _ => mret tt
                end
            end;;
            __delitem__ type_id;;
            mret Continue
        end);;
      modify (set_caches (delete cache_key))
  end.

End cache.

(** ** Notions used to state the properties *)

(** An iteration visits every element of the set once. *)
Definition set_iterates (set_iter : list Z → list Z) : Prop :=
  ∀ l, set_iter l ≡ₚ l.

(** What [get_so_key_fields] returns for a descriptor under a given table,
    and the table it leaves. *)
Definition key_fields_in (tbl : gmap (PbModule * string) KeyFields) (desc : Descriptor)
    : KeyFields :=
  match tbl !! desc_id desc with
  | Some k => k
  | None => Fields (key_field_names desc)
  end.

Definition memoised (desc : Descriptor) (tbl : gmap (PbModule * string) KeyFields)
    : gmap (PbModule * string) KeyFields :=
  match tbl !! desc_id desc with
  | Some _ => tbl
  | None => <[desc_id desc := Fields (key_field_names desc)]> tbl
  end.

(** What [get_key_for_object] returns for an object whose key fields are [k]. *)
Definition key_of (k : KeyFields) (o : Obj) : Key :=
  match k with
  | NO_KEY => KNoKey
  | Fields [] => KNone
  | Fields [f] => KVal (getattr o f)
  | Fields fs => KTuple (getattr o <$> fs)
  end.

(** The key kinds of the data model. *)
Inductive KeyKind := NoKeyDefined | SingletonNoKey | CompositeKey (fields : list string).

Definition key_kind (k : KeyFields) : KeyKind :=
  match k with
  | NO_KEY => SingletonNoKey
  | Fields [] => NoKeyDefined
  | Fields fs => CompositeKey fs
  end.

(** The state that a successful [_parse_object_data] leaves: the key fields
    of the class are in the table and the decoded object is in the store. *)
Definition parsed (desc : Descriptor) (o : Obj) (s : State) : State :=
  mk_State (socache s) (_caches s) (memoised desc (so_key_fields s)) (heap s ++ [o])
           (emitted s).

(** The dict of a keyed type, an empty one when the type is not in the
    cache yet. *)
Definition dict_of (e : option Entry) : pydict :=
  match e with Some (EDict d) => d | _ => [] end.

(** The stored instances of type [t] under key [k]. *)
Definition instances (s : State) (t : ESOType) (k : Key) : list loc :=
  match socache s !! value t with
  | None => []
  | Some (EObj l) => [l]
  | Some (EDict d) => (filter (λ e, e.1 = k) d).*2
  end.

(** The fields of the object that a reference points to. *)
Definition content (s : State) (l : loc) : option (gmap string Z) :=
  obj_fields <$> heap s !! l.

(** An object of the class [desc] is stored at [l]. *)
Definition holds (s : State) (desc : Descriptor) (l : loc) : Prop :=
  ∃ o, heap s !! l = Some o ∧ desc_id (obj_desc o) = desc_id desc.

(** The container of type [t] has the shape of the key kind of its class
    [desc]: a type without key holds one object of the class, or the empty
    dict that a lookup left there; a keyed type holds a dict without
    repeated keys whose values are objects of the class. *)
Definition well_shaped (s : State) (t : ESOType) (desc : Descriptor) : Prop :=
  match socache s !! value t with
  | None => True
  | Some (EObj l) => key_fields_in (so_key_fields s) desc = NO_KEY ∧ holds s desc l
  | Some (EDict d) =>
      NoDup (dict_keys d)
      ∧ ∀ k l, dict_get k d = Some l →
               key_fields_in (so_key_fields s) desc ≠ NO_KEY ∧ holds s desc l
  end.

(** The three failures of [_parse_object_data] that depend on the type id
    alone: no such [ESOType], no class of that name, no key fields. *)
Definition type_fails (pb_getattr : PbModule → string → option Proto)
    (s : State) (type_id : Z) : Prop :=
  match ESOType_of type_id with
  | None => True
  | Some t =>
      match find_so_proto pb_getattr t with
      | None => True
      | Some proto =>
          truthy_fields (key_fields_in (so_key_fields s) (DESCRIPTOR proto)) = false
      end
  end.

(** Two states hold the same cache: the same containers, subscription
    records, objects and emitted events (the table [so_key_fields] may
    differ). *)
Definition same_cache (s1 s2 : State) : Prop :=
  socache s1 = socache s2 ∧ _caches s1 = _caches s2 ∧ heap s1 = heap s2
  ∧ emitted s1 = emitted s2.

(** Objects bundled after a point of a cache-subscribed notification have
    no effect: handling the notification cut at that point ends with the
    same containers, objects and emitted events as handling all of it. *)
Definition rest_not_processed (pb_getattr : PbModule → string → option Proto)
    (s : State) (owner : Z * Z) (ver : Z) (upto rest : list SubscribedType) : Prop :=
  let r1 := _handle_cache_subscribed pb_getattr (mk_subscribed owner ver upto) s in
  let r2 := _handle_cache_subscribed pb_getattr (mk_subscribed owner ver (upto ++ rest)) s in
  socache (final r2) = socache (final r1)
  ∧ heap (final r2) = heap (final r1)
  ∧ emitted (final r2) = emitted (final r1).

(** ** The states that the cache can reach *)

(** What can reach the cache: the notifications with a listener in
    [SOCache.__init__], the ready event, and a lookup by a caller. *)
Inductive Notification :=
| Create (m : CMsgSOSingleObject)
| Update (m : CMsgSOSingleObject)
| Destroy (m : CMsgSOSingleObject)
| UpdateMultiple (m : CMsgSOMultipleObjects)
| CacheSubscribed (m : CMsgSOCacheSubscribed)
| CacheUnsubscribed (m : CMsgSOCacheUnsubscribed)
| ClientWelcome (m : CMsgClientWelcome)
| Ready
| Lookup (x : Z).

Definition handle (pb_getattr : PbModule → string → option Proto)
    (set_iter : list Z → list Z) (n : Notification) : M unit :=
  match n with
  | Create m => _handle_create pb_getattr m
  | Update m => _handle_update pb_getattr m
  | Destroy m => _handle_destroy pb_getattr m
  | UpdateMultiple m => _handle_update_multiple pb_getattr m
  | CacheSubscribed m => _handle_cache_subscribed pb_getattr m
  | CacheUnsubscribed m => _handle_cache_unsubscribed set_iter m
  | ClientWelcome m => _handle_client_welcome pb_getattr m
  | Ready => _handle_cleanup
  | Lookup x => __getitem__ x;; mret tt
  end.

(** A listener that raises leaves the state it reached. *)
Inductive reachable (pb_getattr : PbModule → string → option Proto)
    (set_iter : list Z → list Z) : State → Prop :=
| reachable_init : reachable pb_getattr set_iter init_state
| reachable_step (s : State) (n : Notification) :
    reachable pb_getattr set_iter s →
    reachable pb_getattr set_iter (final (handle pb_getattr set_iter n s)).

(** Every container has the shape of the key kind of its type. *)
Definition wf (pb_getattr : PbModule → string → option Proto) (s : State) : Prop :=
  ∀ t proto, find_so_proto pb_getattr t = Some proto → well_shaped s t (DESCRIPTOR proto).

(** A statement keeps that invariant, whether it returns or raises. *)
Definition preserves (pb_getattr : PbModule → string → option Proto) {A} (m : M A)
    : Prop :=
  ∀ s, wf pb_getattr s → wf pb_getattr (final (m s)).

(** The classes of the shared-object types have one descriptor per id. *)
Definition descriptors_distinct (pb_getattr : PbModule → string → option Proto) : Prop :=
  ∀ t t' p p',
    find_so_proto pb_getattr t = Some p →
    find_so_proto pb_getattr t' = Some p' →
    desc_id (DESCRIPTOR p) = desc_id (DESCRIPTOR p') →
    DESCRIPTOR p = DESCRIPTOR p'.

(** From [s] to [s'] the objects keep their classes and the key fields of
    the classes stay what they are. *)
Definition evolves (pb_getattr : PbModule → string → option Proto) (s s' : State) : Prop :=
  (∀ desc l, holds s desc l → holds s' desc l)
  ∧ ∀ t p, find_so_proto pb_getattr t = Some p →
           key_fields_in (so_key_fields s') (DESCRIPTOR p)
           = key_fields_in (so_key_fields s) (DESCRIPTOR p).

(** The entry [e'] is [e] with some of its content removed, or an empty
    dict. *)
Definition sub_entry (e e' : option Entry) : Prop :=
  match e' with
  | None => True
  | Some (EObj l) => e = Some (EObj l)
  | Some (EDict d') =>
      d' = []
      ∨ ∃ d, e = Some (EDict d)
             ∧ (NoDup (dict_keys d) →
                NoDup (dict_keys d')
                ∧ ∀ k l, dict_get k d' = Some l → dict_get k d = Some l)
  end.

(** From [s] to [s'] the containers only lose content, except those of the
    type ids in [X]. *)
Definition shrinks_except (pb_getattr : PbModule → string → option Proto)
    (X : Z → Prop) (s s' : State) : Prop :=
  evolves pb_getattr s s'
  ∧ ∀ tz, ¬ X tz → sub_entry (socache s !! tz) (socache s' !! tz).

End sharedobjects.

(** * csgo/client.py *)
Module client.
Import common_enums pymonad.

(** The protobuf header of a coordinator message, with its two job ids. *)
Record Header := mk_Header {
  job_id_source : Z;
  job_id_target : Z
}.

(** The decoded coordinator messages: those whose fields the modelled
    listeners read, and any other message with its fields by name (reading
    a field that the class of the message does not have raises
    [AttributeError]). *)
Inductive GCMessage :=
| SOSingleObject (m : sharedobjects.CMsgSOSingleObject)
| SOMultipleObjects (m : sharedobjects.CMsgSOMultipleObjects)
| SOCacheSubscribed (m : sharedobjects.CMsgSOCacheSubscribed)
| SOCacheUnsubscribed (m : sharedobjects.CMsgSOCacheUnsubscribed)
| ClientWelcome (m : sharedobjects.CMsgClientWelcome)
| ClientConnectionStatus (status : Z)
| OtherMessage (fields : gmap string Z).

(** The keys under which the client emits: a string, or an enum member
    (which hashes and compares as its integer value). *)
Inductive EventKey := KStr (s : string) | KEnum (e : Z).

#[global] Instance EventKey_eq_dec : EqDecision EventKey.
Proof. solve_decision. Defined.

(** The argument of an emitted event: nothing, a connection status, a
    reference to a decoded message, or the decoded welcome submessage. *)
Inductive Payload :=
| PNone
| PStatus (status : Z)
| PMessage (ref : nat)
| PSubmessage (fields : gmap string Z).

#[global] Instance Payload_eq_dec : EqDecision Payload.
Proof. solve_decision. Defined.

Definition EVENT_CONNECTION_STATUS : string := "connection_status".
Definition EVENT_READY : string := "ready".
Definition EVENT_NOT_READY : string := "notready".

(** What the client takes from outside the sources: the enums of
    [csgo.enums] ([GCConnectionStatus], [ESOMsg], [EGCBaseClientMsg],
    [ECsgoGCMsg]), the registry of [csgo.msg], the protobuf modules,
    [steam.utils.proto] and the iteration order of Python sets. *)
Record Env := mk_Env {
  pb_getattr : sharedobjects.PbModule → string → option sharedobjects.Proto;
  (** the order in which a set is iterated, see [sharedobjects] *)
  set_iter : list Z → list Z;
  (** [get_emsg_enum] *)
  get_emsg_enum : Z → Z;
  (** [find_proto(emsg)] with the [ParseFromString] of the class it finds;
      the inner [None] stands for a [DecodeError].  The classes of the
      registry are protobuf message classes. *)
  find_proto : Z → option (list Byte.byte → option GCMessage);
  (** [proto_fill_from_dict] on a new message of the class that
      [find_proto(emsg)] finds: [None] when it returns, the exception
      otherwise *)
  fill_from_dict : Z → gmap string Z → option Exn;
  (** [CMsgCStrike15Welcome().ParseFromString] *)
  parse_CStrike15Welcome : list Byte.byte → option (gmap string Z);
  (** whether an integer is the value of a [GCConnectionStatus] member *)
  is_GCConnectionStatus : Z → bool;
  HAVE_SESSION : Z;
  NO_SESSION : Z;
  ESOMsg_Create : Z;
  ESOMsg_Update : Z;
  ESOMsg_Destroy : Z;
  ESOMsg_UpdateMultiple : Z;
  ESOMsg_CacheSubscribed : Z;
  ESOMsg_CacheUnsubscribed : Z;
  EMsgGCClientWelcome : Z;
  EMsgGCClientConnectionStatus : Z;
  (** the members of [ECsgoGCMsg] that [csgo/features/match.py] names *)
  EMsgGCCStrike15_v2_MatchmakingGC2ClientHello : Z;
  EMsgGCCStrike15_v2_MatchList : Z;
  EMsgGCCStrike15_v2_WatchInfoUsers : Z;
  EMsgGCCStrike15_v2_MatchListRequestCurrentLiveGames : Z;
  EMsgGCCStrike15_v2_MatchListRequestLiveGameForUser : Z;
  EMsgGCCStrike15_v2_MatchListRequestRecentUserGames : Z;
  EMsgGCCStrike15_v2_MatchListRequestFullGameInfo : Z
}.

(** The [data] argument of [send]: [None], a dict, or anything else. *)
Inductive DataArg := DataNone | DataDict (d : gmap string Z) | DataOther.

(** The [proto] argument of [send]: [None]; a class, which is or is not a
    subclass of [google.protobuf.message.Message] and on whose instances
    [proto_fill_from_dict] returns ([None]) or raises; or an object that is
    no class. *)
Inductive ProtoArg :=
| ProtoNone
| ProtoClass (is_message : bool) (fill : gmap string Z → option Exn)
| ProtoNotClass.

(** The functions that the modelled code registers with [self.on] under the
    type of a coordinator message. *)
Inductive Listener :=
| so_handle_create
| so_handle_update
| so_handle_destroy
| so_handle_update_multiple
| so_handle_cache_subscribed
| so_handle_cache_unsubscribed
| so_handle_client_welcome
| match_handle_mmstats
| match_handle_match_list
| match_handle_watch_info
| handle_conn_status
| handle_client_welcome.

(** A greenlet that [emit] has spawned and that has not run yet:
    [SOCache._handle_cleanup] for the ready event, or a listener with the
    message of its event. *)
Inductive Task :=
| RunCleanup
| RunListener (l : Listener) (ref : nat) (message : GCMessage).

Record Client := mk_Client {
  connection_status : Z;
  ready : bool;
  current_jobid : Z;
  (** [self.socache], with the objects it refers to *)
  socache : sharedobjects.State;
  (** the decoded message objects, by reference *)
  messages : list GCMessage;
  (** the events emitted by the client so far, oldest first *)
  published : list (EventKey * Payload);
  (** callbacks that callers registered under string keys *)
  listeners : gmap string (list nat);
  (** what was handed to the transport: emsg, source job id and data *)
  sent : list (Z * option Z * gmap string Z);
  (** the greenlets spawned for listeners and not yet run, oldest first *)
  pending : list Task
}.

Definition set_connection_status (v : Z) (c : Client) : Client :=
  mk_Client v (ready c) (current_jobid c) (socache c) (messages c) (published c)
            (listeners c) (sent c) (pending c).
Definition set_ready (v : bool) (c : Client) : Client :=
  mk_Client (connection_status c) v (current_jobid c) (socache c) (messages c)
            (published c) (listeners c) (sent c) (pending c).
Definition set_current_jobid (v : Z) (c : Client) : Client :=
  mk_Client (connection_status c) (ready c) v (socache c) (messages c) (published c)
            (listeners c) (sent c) (pending c).
Definition set_cache (v : sharedobjects.State) (c : Client) : Client :=
  mk_Client (connection_status c) (ready c) (current_jobid c) v (messages c)
            (published c) (listeners c) (sent c) (pending c).
Definition set_messages (f : list GCMessage → list GCMessage) (c : Client) : Client :=
  mk_Client (connection_status c) (ready c) (current_jobid c) (socache c)
            (f (messages c)) (published c) (listeners c) (sent c) (pending c).
Definition set_published
    (f : list (EventKey * Payload) → list (EventKey * Payload)) (c : Client) : Client :=
  mk_Client (connection_status c) (ready c) (current_jobid c) (socache c) (messages c)
            (f (published c)) (listeners c) (sent c) (pending c).
Definition set_listeners
    (f : gmap string (list nat) → gmap string (list nat)) (c : Client) : Client :=
  mk_Client (connection_status c) (ready c) (current_jobid c) (socache c) (messages c)
            (published c) (f (listeners c)) (sent c) (pending c).
Definition set_sent
    (f : list (Z * option Z * gmap string Z) → list (Z * option Z * gmap string Z))
    (c : Client) : Client :=
  mk_Client (connection_status c) (ready c) (current_jobid c) (socache c) (messages c)
            (published c) (listeners c) (f (sent c)) (pending c).
Definition set_pending (f : list Task → list Task) (c : Client) : Client :=
  mk_Client (connection_status c) (ready c) (current_jobid c) (socache c) (messages c)
            (published c) (listeners c) (sent c) (f (pending c)).

Abbreviation M := (pymonad.M Client).

(** A statement of the cache run on [self.socache]. *)
Definition on_socache {A} (m : sharedobjects.M A) : M A :=
  λ c, match m (socache c) with
       | Ok a s => Ok a (set_cache s c)
       | Raise e s => Raise e (set_cache s c)
       end.

(** [gevent.spawn(callback, *args)] in [emit]: the greenlet is queued; it
    runs once the code that emitted has returned or yielded. *)
Definition spawn (t : Task) : M unit := modify (set_pending (λ q, q ++ [t])).

Section client.
Variable env : Env.

(** The client as [__init__] leaves it. *)
Definition init_client : Client :=
  mk_Client (NO_SESSION env) false 0 sharedobjects.init_state [] [] ∅ [] [].

(** [self.emit(key, ...)] for a string key: the event is published and a
    greenlet is spawned for each listener under the key.  The one listener
    that the modelled code registers under a string key is
    [SOCache._handle_cleanup], under [EVENT_READY]. *)
Definition emit_str (key : string) (arg : Payload) : M unit :=
  modify (set_published (λ p, p ++ [(KStr key, arg)]));;
  if String.eqb key EVENT_READY then spawn RunCleanup else mret tt.

(** [CSGOClient._set_connection_status]. *)
Definition _set_connection_status (status : Z) : M unit :=
  prev_status ← gets connection_status;
  (if is_GCConnectionStatus env status then mret tt else raise ValueError);;
  modify (set_connection_status status);;
  (if decide (status ≠ prev_status)
   then emit_str EVENT_CONNECTION_STATUS (PStatus status)
   else mret tt);;
  r ← gets ready;
  if bool_decide (status = HAVE_SESSION env) && negb r then
    modify (set_ready true);;
    emit_str EVENT_READY PNone
  else if bool_decide (status ≠ HAVE_SESSION env) && r then
    modify (set_ready false);;
    emit_str EVENT_NOT_READY PNone
  else mret tt.

(** [CSGOClient._handle_disconnect], without the retry loop. *)
Definition _handle_disconnect : M unit :=
  _set_connection_status (NO_SESSION env).

(** [CSGOClient._handle_conn_status]. *)
Definition _handle_conn_status (message : GCMessage) : M unit :=
  match message with
  | ClientConnectionStatus status => _set_connection_status status
  | _ => raise AttributeError
  end.

(** [CSGOClient._handle_client_welcome]. *)
Definition _handle_client_welcome (message : GCMessage) : M unit :=
  match message with
  | ClientWelcome m =>
      _set_connection_status (HAVE_SESSION env);;
      match parse_CStrike15Welcome env (sharedobjects.game_data m) with
      | None => raise DecodeError
      | Some submessage => emit_str "csgo_welcome" (PSubmessage submessage)
      end
  | _ => raise AttributeError
  end.

(** ** csgo/features/match.py, the listeners

    Each of them emits the message it received once more, under a string
    key. *)

(** [Match.__handle_mmstats]. *)
Definition __handle_mmstats (ref : nat) : M unit :=
  emit_str "matchmaking_stats" (PMessage ref).

(** [Match.__handle_match_list]. *)
Definition __handle_match_list (ref : nat) (message : GCMessage) : M unit :=
  match message with
  | OtherMessage fields =>
      match fields !! "msgrequestid"%string with
      | None => raise AttributeError
      | Some emsg =>
          if decide (emsg = EMsgGCCStrike15_v2_MatchListRequestCurrentLiveGames env) then
            emit_str "current_live_games" (PMessage ref)
          else if decide (emsg = EMsgGCCStrike15_v2_MatchListRequestLiveGameForUser env) then
            emit_str "live_game_for_user" (PMessage ref)
          else if decide (emsg = EMsgGCCStrike15_v2_MatchListRequestRecentUserGames env) then
            emit_str "recent_user_games" (PMessage ref)
          else if decide (emsg = EMsgGCCStrike15_v2_MatchListRequestFullGameInfo env) then
            emit_str "full_match_info" (PMessage ref)
          else mret tt
      end
  | _ => raise AttributeError
  end.

(** [Match.__handle_watch_info]. *)
Definition __handle_watch_info (ref : nat) : M unit :=
  emit_str "watch_info" (PMessage ref).

(** ** The listeners on coordinator messages *)

Definition so_single (h : sharedobjects.CMsgSOSingleObject → sharedobjects.M unit)
    (message : GCMessage) : M unit :=
  match message with
  | SOSingleObject m => on_socache (h m)
  | _ => raise AttributeError
  end.

(** The call of a listener on the message object [ref], whose content is
    [message]. *)
Definition run_listener (l : Listener) (ref : nat) (message : GCMessage) : M unit :=
  match l with
  | so_handle_create => so_single (sharedobjects._handle_create (pb_getattr env)) message
  | so_handle_update => so_single (sharedobjects._handle_update (pb_getattr env)) message
  | so_handle_destroy => so_single (sharedobjects._handle_destroy (pb_getattr env)) message
  | so_handle_update_multiple =>
      match message with
      | SOMultipleObjects m =>
          on_socache (sharedobjects._handle_update_multiple (pb_getattr env) m)
      | _ => raise AttributeError
      end
  | so_handle_cache_subscribed =>
      match message with
      | SOCacheSubscribed m =>
          on_socache (sharedobjects._handle_cache_subscribed (pb_getattr env) m)
      | _ => raise AttributeError
      end
  | so_handle_cache_unsubscribed =>
      match message with
      | SOCacheUnsubscribed m =>
          on_socache (sharedobjects._handle_cache_unsubscribed (set_iter env) m)
      | _ => raise AttributeError
      end
  | so_handle_client_welcome =>
      match message with
      | ClientWelcome m =>
          on_socache (sharedobjects._handle_client_welcome (pb_getattr env) m)
      | _ => raise AttributeError
      end
  | match_handle_mmstats => __handle_mmstats ref
  | match_handle_match_list => __handle_match_list ref message
  | match_handle_watch_info => __handle_watch_info ref
  | handle_conn_status => _handle_conn_status message
  | handle_client_welcome => _handle_client_welcome message
  end.

(** The registrations, in their order: those of [SOCache.__init__] and of
    [Match.__init__], which [FeatureBase.__init__] runs, then those of
    [CSGOClient.__init__].  ([csgo/features/__init__.py] is not among the
    sources; the order between the cache and [Match] plays no role, since
    greenlets are spawned for the listeners of one key at a time.) *)
Definition message_listeners : list (Z * Listener) :=
  [ (ESOMsg_Create env, so_handle_create);
    (ESOMsg_Update env, so_handle_update);
    (ESOMsg_Destroy env, so_handle_destroy);
    (ESOMsg_UpdateMultiple env, so_handle_update_multiple);
    (ESOMsg_CacheSubscribed env, so_handle_cache_subscribed);
    (ESOMsg_CacheUnsubscribed env, so_handle_cache_unsubscribed);
    (EMsgGCClientWelcome env, so_handle_client_welcome);
    (EMsgGCCStrike15_v2_MatchmakingGC2ClientHello env, match_handle_mmstats);
    (EMsgGCCStrike15_v2_MatchList env, match_handle_match_list);
    (EMsgGCCStrike15_v2_WatchInfoUsers env, match_handle_watch_info);
    (EMsgGCClientConnectionStatus env, handle_conn_status);
    (EMsgGCClientWelcome env, handle_client_welcome) ].

(** The greenlets that [self.emit(emsg, message)] spawns. *)
Definition message_tasks (emsg : Z) (ref : nat) (message : GCMessage) : list Task :=
  (λ l, RunListener l.2 ref message) <$> filter (λ l, l.1 = emsg) message_listeners.

(** [self.emit(emsg, message)] for an enum key. *)
Definition emit_message (emsg : Z) (ref : nat) (message : GCMessage) : M unit :=
  modify (set_published (λ p, p ++ [(KEnum emsg, PMessage ref)]));;
  modify (set_pending (λ q, q ++ message_tasks emsg ref message)).

(** The f-string [f'job_{n}']. *)
Definition job_key (n : Z) : string := "job_" +:+ pretty n.

(** [CSGOClient._process_gc_message]. *)
Definition _process_gc_message (emsg : Z) (header : Header) (payload : list Byte.byte)
    : M unit :=
  let emsg := get_emsg_enum env emsg in
  match find_proto env emsg with
  | None => mret tt
  | Some parse =>
      match parse payload with
      | None => raise DecodeError
      | Some message =>
          ref ← gets (λ c, length (messages c));
          modify (set_messages (λ ms, ms ++ [message]));;
          emit_message emsg ref message;;
          if decide (job_id_target header ≠ 18446744073709551615)
          then emit_str (job_key (job_id_target header)) (PMessage ref)
          else mret tt
      end
  end.

(** ** The greenlets *)

(** What a spawned greenlet runs. *)
Definition exec_task (t : Task) : M unit :=
  match t with
  | RunCleanup => on_socache sharedobjects._handle_cleanup
  | RunListener l ref message => run_listener l ref message
  end.

(** The oldest greenlet runs to its end; an exception ends the greenlet and
    is seen by nobody.  The greenlets run one after the other, in the order
    in which they were spawned. *)
Definition step (c : Client) : Client :=
  match pending c with
  | [] => c
  | t :: q => final (exec_task t (set_pending (λ _, q) c))
  end.

Fixpoint steps (n : nat) (c : Client) : Client :=
  match n with
  | O => c
  | S n' => steps n' (step c)
  end.

(** ** Sending *)

(** [CSGOClient._send]; the filled message goes to the transport.
    [issubclass] raises [TypeError] when its first argument is no class. *)
Definition _send (emsg : Z) (data : DataArg) (proto : ProtoArg) (jobid : option Z)
    : M unit :=
  match data with
  | DataOther => raise ValueError
  | _ =>
      let data := match data with DataDict d => d | _ => ∅ end in
      fill ←
        match proto with
        | ProtoNone =>
            match find_proto env emsg with
            | Some _ => mret (fill_from_dict env emsg)
            | None => raise ValueError
            end
        | ProtoClass true fill => mret fill
        | ProtoClass false _ => raise ValueError
        | ProtoNotClass => raise TypeError
        end;
      match fill data with
      | Some e => raise e
      | None => modify (set_sent (λ l, l ++ [(emsg, jobid, data)]))
      end
  end.

(** The expression [((self.current_jobid + 1) % 10000) or 1]. *)
Definition next_jobid (current_jobid : Z) : Z :=
  let n := (current_jobid + 1) `mod` 10000 in
  if decide (n = 0) then 1 else n.

(** [CSGOClient.send_job]; returns the event key of the job. *)
Definition send_job (emsg : Z) (data : DataArg) (proto : ProtoArg) : M string :=
  cur ← gets current_jobid;
  modify (set_current_jobid (next_jobid cur));;
  jobid ← gets current_jobid;
  let jobid_str := job_key jobid in
  modify (set_listeners (delete jobid_str));;
  _send emsg data proto (Some jobid);;
  mret jobid_str.

(** ** Notions used to state the properties *)

(** The ids that a sequence of [send_job] calls allocates, in order. *)
Fixpoint job_ids (calls : list (Z * DataArg * ProtoArg)) (c : Client) : list Z :=
  match calls with
  | [] => []
  | (emsg, data, proto) :: rest =>
      let c' := final (send_job emsg data proto c) in
      current_jobid c' :: job_ids rest c'
  end.

(** What happens to a client between two status writes: a status write, or
    any statement on the cache. *)
Inductive Activity :=
| StatusWrite (status : Z)
| CacheActivity (m : sharedobjects.M unit).

Definition act (a : Activity) (c : Client) : Client :=
  match a with
  | StatusWrite status => final (_set_connection_status status c)
  | CacheActivity m => final (on_socache m c)
  end.

Definition run (l : list Activity) (c : Client) : Client := foldl (λ c a, act a c) c l.


(** The cache holds no container and no Subscription Record. *)
Definition cleared (c : Client) : Prop :=
  sharedobjects.socache (socache c) = ∅ ∧ sharedobjects._caches (socache c) = ∅.

(** The events of a status write before the ready or not-ready event. *)
Definition status_changed (c : Client) (status : Z) : list (EventKey * Payload) :=
  if decide (status ≠ connection_status c)
  then [(KStr EVENT_CONNECTION_STATUS, PStatus status)]
  else [].

(** The status write [status] ends with a cleared cache. *)
Definition status_write_clears (c : Client) (status : Z) : Prop :=
  cleared (final (_set_connection_status status c)).


End client.

(** The key of a job channel. *)
Definition is_job_key (k : EventKey) : Prop := ∃ n, k = KStr (job_key n).

(** [c'] has the message objects of [c], and the events of [c] followed by
    events that are on no job channel. *)
Definition quiet (c c' : Client) : Prop :=
  messages c' = messages c
  ∧ ∃ evs, published c' = published c ++ evs ∧ Forall (λ ev, ¬ is_job_key ev.1) evs.

(** [c'] is quiet after [c] and has the greenlets of [c] followed by
    others. *)
Definition continues (c c' : Client) : Prop :=
  quiet c c' ∧ ∃ ts, pending c' = pending c ++ ts.

End client.

(** * An example environment

    A small instance of what the sources import from outside, used to run
    the model on concrete notifications: four message classes, whose
    [FromString] reads one byte per field and rejects any other length. *)
Module example.
Import common_enums pymonad sharedobjects.

Definition bytes_fields (names : list string) (data : list Byte.byte)
    : option (gmap string Z) :=
  if decide (length names = length data)
  then Some (list_to_map (zip names ((λ b, Z.of_N (Byte.to_N b)) <$> data)))
  else None.

Definition proto_of (m : PbModule) (n : string)
    (fields : list (string * list (string * bool))) : Proto :=
  mk_Proto (mk_Descriptor (m, n) fields) (bytes_fields fields.*1).

Definition key_field : list (string * bool) := [("key_field"%string, true)].

(** [CSOEconItem] and [CSOEconGameAccountClient] are in the table
    [so_key_fields]; the key of [CSOEconDefaultEquippedDefinitionInstanceClient]
    comes from the options of its fields; [CSOItemRecipe] has no key field. *)
Definition pb_getattr (m : PbModule) (n : string) : option Proto :=
  match m with
  | _gc_base =>
      if String.eqb n "CSOEconItem" then
        Some (proto_of m n [("id"%string, []); ("quantity"%string, [])])
      else if String.eqb n "CSOEconGameAccountClient" then
        Some (proto_of m n [("bonus_xp_usedflags"%string, [])])
      else if String.eqb n "CSOItemRecipe" then
        Some (proto_of m n [("def_index"%string, []); ("n_a"%string, [])])
      else None
  | _gc_cstrike =>
      if String.eqb n "CSOEconDefaultEquippedDefinitionInstanceClient" then
        Some (proto_of m n [("account_id"%string, key_field);
                            ("item_definition"%string, []);
                            ("class_id"%string, key_field);
                            ("slot_id"%string, key_field)])
      else None
  end.

(** An iteration order of sets for the examples: the element inserted last
    comes first. *)
Definition set_iter (l : list Z) : list Z := rev l.

(** The connection-status message (4009) carries its status in one byte; as
    the protobuf decoder does, a value that belongs to no member of the
    enum reads as the default 0.  The match list (9139) carries its request
    id in two bytes. *)
Definition env : client.Env :=
  client.mk_Env pb_getattr set_iter (λ emsg, emsg)
    (λ emsg, if decide (emsg = 4009)
             then Some (λ payload,
                    match payload with
                    | [b] =>
                        let v := Z.of_N (Byte.to_N b) in
                        Some (client.ClientConnectionStatus
                                (if bool_decide (0 <= v <= 4) then v else 0))
                    | _ => None
                    end)
             else if decide (emsg = 9139)
             then Some (λ payload,
                    match payload with
                    | [hi; lo] =>
                        Some (client.OtherMessage
                                {[ "msgrequestid"%string :=
                                     256 * Z.of_N (Byte.to_N hi) + Z.of_N (Byte.to_N lo) ]})
                    | _ => None
                    end)
             else if decide (emsg = 9999)
             then Some (λ payload, Some (client.OtherMessage ∅))
             else None)
    (λ emsg data, if decide (data = ∅) then None else Some KeyError)
    (λ _, Some ∅)
    (λ status, bool_decide (0 <= status <= 4)) 0 2
    21 22 23 26 24 25 4004 4009
    9110 9139 9133 9138 9140 9141 9147.

(** A client with a session whose cache holds the item with id 5: the
    session came, the greenlet of the ready event ran, the item arrived. *)
Definition ready_client : client.Client :=
  final (client.on_socache
           (_handle_create pb_getattr (mk_single 1 [Byte.x05; Byte.x01]))
           (client.step env
              (final (client._set_connection_status env 0 (client.init_client env))))).

End example.

(** * csgo/common_enums.py, the bonus flags *)
Module common_flags.

(** [class EXPBonusFlag(IntEnum)]. *)
Inductive EXPBonusFlag :=
| EarnedXpThisPeriod
| FirstReward
| Msg_YourReportGotConvicted
| Msg_YouPartiedWithCheaters
| PrestigeEarned
| ChinaGovernmentCert
| OverwatchBonus
| BonusBoostConsumed
| ReducedGain.

#[global] Instance EXPBonusFlag_eq_dec : EqDecision EXPBonusFlag.
Proof. solve_decision. Defined.

(** [member.value], with the shifts as the class writes them. *)
Definition flag_value (f : EXPBonusFlag) : Z :=
  match f with
  | EarnedXpThisPeriod => Z.shiftl 1 0
  | FirstReward => Z.shiftl 1 1
  | Msg_YourReportGotConvicted => Z.shiftl 1 2
  | Msg_YouPartiedWithCheaters => Z.shiftl 1 3
  | PrestigeEarned => Z.shiftl 1 4
  | ChinaGovernmentCert => Z.shiftl 1 5
  | OverwatchBonus => Z.shiftl 1 28
  | BonusBoostConsumed => Z.shiftl 1 29
  | ReducedGain => Z.shiftl 1 30
  end.

Definition flag_members : list EXPBonusFlag :=
  [EarnedXpThisPeriod; FirstReward; Msg_YourReportGotConvicted; Msg_YouPartiedWithCheaters;
   PrestigeEarned; ChinaGovernmentCert; OverwatchBonus; BonusBoostConsumed; ReducedGain].

(** The lookup by value [EXPBonusFlag(x)]; [None] stands for the
    [ValueError] of the enum. *)
Definition EXPBonusFlag_of (x : Z) : option EXPBonusFlag :=
  List.find (λ f, flag_value f =? x) flag_members.

End common_flags.

(** * Notions for runs of the cache *)
Module sharedobjects_runs.
Import common_enums pymonad sharedobjects.

(** The [removed] events for the instances in the container of the type id
    [tz] when it is a dict, in the order of the dict. *)
Definition evicted (s : State) (tz : Z) : list Event :=
  match ESOType_of tz, socache s !! tz with
  | Some t, Some (EDict d) => (λ kv, (removed, t, kv.2)) <$> d
  | _, _ => []
  end.

(** The state after a sequence of notifications, each handled in the state
    that the one before left, returned or raised. *)
Definition handle_all (pb_getattr : PbModule → string → option Proto)
    (set_iter : list Z → list Z) (ns : list Notification) (s : State) : State :=
  foldl (λ s n, final (handle pb_getattr set_iter n s)) s ns.

End sharedobjects_runs.

(** * csgo/client.py, the calls of the API *)
Module client_calls.
Import common_enums pymonad client.

(** The class attribute [app_id]. *)
Definition app_id : Z := 730.

Section calls.
Variable env : Env.

(** [CSGOClient.send]. *)
Definition send (emsg : Z) (data : DataArg) (proto : ProtoArg) : M unit :=
  let data := match data with DataNone => DataDict ∅ | _ => data end in
  _send env emsg data proto None.

(** [CSGOClient._handle_play_sess_state].  [playing_app] is what the
    attribute access [message.playing_app] gives: a value, or [None] when
    the message has no such attribute and the access raises
    [AttributeError].  The handler is registered on the steam client, which
    calls it with a [MsgProto]; the fields of the decoded message are
    attributes of its [body], not of the [MsgProto], so that is the second
    case.  [and] evaluates the access only when [self.ready] is true. *)
Definition _handle_play_sess_state (playing_app : option Z) : M unit :=
  r ← gets ready;
  if (r : bool) then
    match playing_app with
    | None => raise AttributeError
    | Some app =>
        if bool_decide (app ≠ app_id)
        then _set_connection_status env (NO_SESSION env)
        else mret tt
    end
  else mret tt.


End calls.
End client_calls.

(** * Properties *)

Module digits_facts.
Import digits.

Lemma le_digits_length b n x : length (le_digits b n x) = n.
Proof. revert x; induction n as [|n IH]; intros x; simpl; [done|]. by rewrite IH. Qed.

Lemma le_digits_in_base b n x : 0 < b → Forall (in_base b) (le_digits b n x).
Proof.
  intros Hb. revert x; induction n as [|n IH]; intros x; simpl; constructor; [|done].
  unfold in_base. apply Z.mod_pos_bound; lia.
Qed.

Lemma le_value_le_digits b n x :
  0 < b → le_value b (le_digits b n x) = x `mod` b ^ Z.of_nat n.
Proof.
  intros Hb. revert x; induction n as [|n IH]; intros x.
  - simpl. by rewrite Z.mod_1_r.
  - cbn [le_digits le_value]. rewrite IH.
    rewrite Nat2Z.inj_succ, Z.pow_succ_r by lia.
    rewrite Z.rem_mul_r by (try apply Z.pow_pos_nonneg; lia). lia.
Qed.

Lemma le_value_bounds b ds :
  0 < b → Forall (in_base b) ds → 0 <= le_value b ds < b ^ Z.of_nat (length ds).
Proof.
  intros Hb. induction 1 as [|d ds Hd _ IH]; [simpl; lia|].
  cbn [le_value length]. rewrite Nat2Z.inj_succ, Z.pow_succ_r by lia.
  unfold in_base in Hd. nia.
Qed.

Lemma le_digits_le_value b ds :
  0 < b → Forall (in_base b) ds → le_digits b (length ds) (le_value b ds) = ds.
Proof.
  intros Hb. induction 1 as [|d ds Hd _ IH]; [done|].
  cbn [le_value length le_digits]. unfold in_base in Hd.
  replace (d + b * le_value b ds) with (d + le_value b ds * b) by lia.
  rewrite Z.mod_add, Z.div_add, Z.mod_small, Z.div_small by lia.
  by rewrite Z.add_0_l, IH.
Qed.

Lemma be_value_app b ds1 ds2 acc :
  be_value b (ds1 ++ ds2) acc = be_value b ds2 (be_value b ds1 acc).
Proof. apply fold_left_app. Qed.

Lemma be_value_rev b ds : be_value b (rev ds) 0 = le_value b ds.
Proof.
  induction ds as [|d ds IH]; [done|].
  simpl. rewrite be_value_app, IH. simpl. unfold be_value. simpl. lia.
Qed.

Lemma be_value_le_value b ds : be_value b ds 0 = le_value b (rev ds).
Proof. by rewrite <- be_value_rev, rev_involutive. Qed.

End digits_facts.

Module sharecode_facts.
Import digits digits_facts sharecode.

Example encode_zero :
  encode 0 0 0 = lit "CSGO-AAAAA-AAAAA-AAAAA-AAAAA-AAAAA".
Proof. vm_compute. reflexivity. Qed.

Example decode_sample :
  decode (lit "CSGO-U6MWi-hYFWJ-opPwD-JciHm-qOijD")
  = Some (mk_info 3106049990460440633 3106056003414655216 11842).
Proof. vm_compute. reflexivity. Qed.

Example decode_brace_in_class : decode (lit "CSGO-{AAAA-AAAAA-AAAAA-AAAAA-AAAAA") = None.
Proof. vm_compute. reflexivity. Qed.

Example decode_wrong_prefix : decode (lit "CSGX-AAAAA-AAAAA-AAAAA-AAAAA-AAAAA") = None.
Proof. vm_compute. reflexivity. Qed.

(** ** The byte swap as a change of digit order *)


Lemma DICTIONARY_LENGTH_eq : DICTIONARY_LENGTH = 57.
Proof. reflexivity. Qed.

Lemma swap_fold (x : Z) (n : nat) (k acc : Z) :
  0 <= k →
  fold_left (λ result n, Z.shiftl result 8 + Z.land (Z.shiftr x n) 255)
            ((λ i, 0 + 8 * i) <$> seqZ k (Z.of_nat n)) acc
  = be_value 256 (le_digits 256 n (x `div` 256 ^ k)) acc.
Proof.
  revert k acc. induction n as [|n IH]; intros k acc Hk; [done|].
  rewrite seqZ_cons by lia. cbn [fmap list_fmap fold_left le_digits be_value].
  replace (Z.pred (Z.of_nat (S n))) with (Z.of_nat n) by lia.
  rewrite IH by lia. unfold be_value. f_equal.
  - f_equal. rewrite Z.div_div by (try apply Z.pow_pos_nonneg; lia).
    f_equal. unfold Z.succ. rewrite Z.pow_add_r by lia. lia.
  - rewrite Z.shiftl_mul_pow2, Z.shiftr_div_pow2 by lia.
    change 255 with (Z.ones 8). rewrite Z.land_ones by lia.
    replace (2 ^ (0 + 8 * k)) with (256 ^ k); [done|].
    rewrite Z.add_0_l, Z.pow_mul_r by lia. done.
Qed.

Lemma _swap_endianness_digits (x : Z) :
  _swap_endianness x = be_value 256 (le_digits 256 18 x) 0.
Proof.
  unfold _swap_endianness, range.
  change ((144 - 0 + 8 - 1) `div` 8) with (Z.of_nat 18).
  rewrite swap_fold by lia. by rewrite Z.pow_0_r, Z.div_1_r.
Qed.

Lemma _swap_endianness_bounds (x : Z) : 0 <= _swap_endianness x < 2 ^ 144.
Proof.
  rewrite _swap_endianness_digits, be_value_le_value.
  pose proof (le_value_bounds 256 (rev (le_digits 256 18 x))) as H.
  rewrite length_rev, le_digits_length in H. apply H; [lia|].
  apply Forall_rev, le_digits_in_base. lia.
Qed.

Lemma _swap_endianness_involutive (x : Z) :
  0 <= x < 2 ^ 144 → _swap_endianness (_swap_endianness x) = x.
Proof.
  intros Hx. rewrite (_swap_endianness_digits x), be_value_le_value.
  rewrite _swap_endianness_digits.
  pose proof (le_digits_le_value 256 (rev (le_digits 256 18 x))) as H.
  rewrite length_rev, le_digits_length in H. rewrite H.
  - rewrite be_value_rev, le_value_le_digits by lia. apply Z.mod_small. lia.
  - lia.
  - apply Forall_rev, le_digits_in_base. lia.
Qed.

(** ** The base-57 text *)

Lemma encode_index_in_range (num : Z) :
  (Z.to_nat (num `mod` DICTIONARY_LENGTH) < length dictionary)%nat.
Proof.
  pose proof (Z.mod_pos_bound num DICTIONARY_LENGTH eq_refl) as H.
  change (length dictionary) with (Z.to_nat DICTIONARY_LENGTH). lia.
Qed.

Lemma dictionary_at_facts (r : Z) :
  in_base 57 r →
  index dictionary (dictionary_at r) = Some r
  ∧ in_dictionary (dictionary_at r) = true.
Proof.
  intros Hr.
  assert (Forall (λ r, index dictionary (dictionary_at r) = Some r
                       ∧ in_dictionary (dictionary_at r) = true) (seqZ 0 57)) as Hall.
  { vm_compute seqZ. repeat (constructor; [by vm_compute|]). constructor. }
  rewrite Forall_forall in Hall. apply Hall, elem_of_seqZ. unfold in_base in Hr. lia.
Qed.

Lemma in_dictionary_class (c : ascii) : in_dictionary c = true → in_class c = true.
Proof.
  unfold in_dictionary, in_class. rewrite !existsb_app. intros ->.
  by rewrite orb_true_r.
Qed.

Lemma in_dictionary_not_dash (c : ascii) :
  in_dictionary c = true → Ascii.eqb c "-"%char = false.
Proof.
  intros Hc. destruct (Ascii.eqb_spec c "-"%char) as [->|]; [|done].
  by vm_compute in Hc.
Qed.

Lemma encode_loop_digits (n : nat) (num : Z) (code : str) :
  encode_loop n num code = code ++ (dictionary_at <$> le_digits 57 n num).
Proof.
  revert num code. induction n as [|n IH]; intros num code; simpl.
  - by rewrite app_nil_r.
  - rewrite IH, <- app_assoc. done.
Qed.

Lemma decode_loop_digits (ds : list Z) (acc : Z) :
  Forall (in_base 57) ds →
  decode_loop (dictionary_at <$> ds) acc = Some (be_value 57 ds acc).
Proof.
  intros Hds. revert acc. induction Hds as [|d ds Hd _ IH]; intros acc; [done|].
  cbn [fmap list_fmap decode_loop]. destruct (dictionary_at_facts d Hd) as [-> _].
  simpl. by rewrite IH.
Qed.

(** ** The grouped text *)

Lemma match_class_app (n : nat) (cs rest : str) :
  length cs = n → Forall (λ c, in_dictionary c = true) cs →
  match_class n (cs ++ rest) = Some rest.
Proof.
  intros <- Hcs. induction Hcs as [|c cs Hc _ IH]; [done|].
  simpl. by rewrite (in_dictionary_class c Hc).
Qed.

Lemma replace_dash_id (cs : str) :
  Forall (λ c, in_dictionary c = true) cs → replace "-"%char [] cs = cs.
Proof.
  induction 1 as [|c cs Hc _ IH]; [done|].
  unfold replace in *. simpl. by rewrite (in_dictionary_not_dash c Hc), IH.
Qed.

Lemma replace_app (old : ascii) (new s1 s2 : str) :
  replace old new (s1 ++ s2) = replace old new s1 ++ replace old new s2.
Proof. apply flat_map_app. Qed.

Lemma slices_cover (code : str) :
  slice 0 5 code ++ slice 5 10 code ++ slice 10 15 code ++ slice 15 20 code
    ++ drop 20 code = code.
Proof.
  unfold slice. simpl Nat.sub. rewrite drop_0.
  replace (drop 20 code) with (drop 5 (drop 15 code)) by by rewrite drop_drop.
  rewrite take_drop.
  replace (drop 15 code) with (drop 5 (drop 10 code)) by by rewrite drop_drop.
  rewrite take_drop.
  replace (drop 10 code) with (drop 5 (drop 5 code)) by by rewrite drop_drop.
  by rewrite !take_drop.
Qed.

Section grouped_text.
Variable code : str.
Hypothesis code_length : length code = 25%nat.
Hypothesis code_symbols : Forall (λ c, in_dictionary c = true) code.

Lemma slice_symbols a b : Forall (λ c, in_dictionary c = true) (slice a b code).
Proof. unfold slice. by apply Forall_take, Forall_drop. Qed.

Lemma drop_symbols a : Forall (λ c, in_dictionary c = true) (drop a code).
Proof. by apply Forall_drop. Qed.

Lemma slice_length a b : (a <= b <= 25)%nat → length (slice a b code) = (b - a)%nat.
Proof. intros H. unfold slice. rewrite length_take, length_drop. lia. Qed.

Lemma match_group_slice a b rest :
  (a <= b <= 25)%nat → (b - a = 5)%nat →
  match_group ("-"%char :: slice a b code ++ rest) = Some rest.
Proof.
  intros Hab Hlen. unfold match_group.
  cbn [lit list_ascii_of_string strip_literal Ascii.eqb Bool.eqb mbind option_bind].
  apply match_class_app; [|apply slice_symbols]. rewrite slice_length; lia.
Qed.

Lemma grouped_matches : CODE_PATTERN_match (grouped code) = true.
Proof.
  unfold CODE_PATTERN_match, grouped. cbn [lit list_ascii_of_string app].
  cbn [strip_literal Ascii.eqb Bool.eqb mbind option_bind match_groups].
  rewrite !match_group_slice by lia. cbn [mbind option_bind].
  rewrite !match_group_slice by lia. cbn [mbind option_bind].
  rewrite !match_group_slice by lia. cbn [mbind option_bind].
  rewrite !match_group_slice by lia. cbn [mbind option_bind].
  unfold match_group.
  cbn [lit list_ascii_of_string strip_literal Ascii.eqb Bool.eqb mbind option_bind].
  rewrite <- (app_nil_r (drop 20 code)).
  rewrite match_class_app; [done| |apply drop_symbols].
  rewrite length_drop. lia.
Qed.

Lemma replace_dash_cons (s : str) :
  replace "-"%char [] ("-"%char :: s) = replace "-"%char [] s.
Proof. done. Qed.

Lemma grouped_stripped :
  replace "-"%char [] (removeprefix (lit "CSGO") (grouped code)) = code.
Proof.
  unfold removeprefix, grouped. cbn [lit list_ascii_of_string app].
  cbn [strip_literal Ascii.eqb Bool.eqb default from_option]. unfold id.
  repeat (rewrite replace_dash_cons, replace_app,
           (replace_dash_id (slice _ _ code)) by apply slice_symbols).
  rewrite replace_dash_cons, replace_dash_id by apply drop_symbols.
  apply slices_cover.
Qed.
End grouped_text.

(** ** Packing the three fields *)

Lemma high_bits_zero (b k n : Z) : 0 <= b < 2 ^ k → k <= n → Z.testbit b n = false.
Proof.
  intros Hb Hn. destruct (Z.eq_dec b 0) as [->|Hne]; [apply Z.bits_0|].
  apply Z.bits_above_log2; [lia|].
  assert (0 <= k) by (destruct (Z_lt_le_dec k 0); [rewrite Z.pow_neg_r in Hb; lia|done]).
  assert (Z.log2 b < k); [|lia]. apply Z.log2_lt_pow2; lia.
Qed.

Lemma lor_shiftl_add (a b k : Z) :
  0 <= k → 0 <= b < 2 ^ k → Z.lor (Z.shiftl a k) b = a * 2 ^ k + b.
Proof.
  intros Hk Hb. rewrite <- Z.shiftl_mul_pow2 by done.
  rewrite <- Z.add_lor_land.
  replace (Z.land (Z.shiftl a k) b) with 0; [lia|].
  symmetry. apply Z.bits_inj'. intros n Hn.
  rewrite Z.land_spec, Z.bits_0.
  destruct (Z_lt_le_dec n k).
  - rewrite Z.shiftl_spec_low by done. done.
  - rewrite (high_bits_zero b k n) by done. apply andb_false_r.
Qed.

Section fields.
Variables m o t : Z.
Hypothesis m_range : 0 <= m < 2 ^ 64.
Hypothesis o_range : 0 <= o < 2 ^ 64.
Hypothesis t_range : 0 <= t < 2 ^ 16.

Lemma packed_sum : packed m o t = t * 2 ^ 128 + o * 2 ^ 64 + m.
Proof.
  unfold packed.
  replace (Z.shiftl t 128) with (Z.shiftl (Z.shiftl t 64) 64)
    by (rewrite Z.shiftl_shiftl by lia; done).
  rewrite <- Z.shiftl_lor.
  rewrite (lor_shiftl_add t o 64) by lia.
  rewrite lor_shiftl_add by lia. lia.
Qed.

Lemma packed_bounds : 0 <= packed m o t < 2 ^ 144.
Proof. rewrite packed_sum. lia. Qed.

Lemma packed_matchid : Z.land (packed m o t) _bitmask64 = m.
Proof.
  change _bitmask64 with (Z.ones 64). rewrite Z.land_ones, packed_sum by lia.
  replace (t * 2 ^ 128 + o * 2 ^ 64 + m) with (m + (t * 2 ^ 64 + o) * 2 ^ 64) by lia.
  rewrite Z.mod_add by lia. apply Z.mod_small. lia.
Qed.

Lemma packed_outcomeid : Z.land (Z.shiftr (packed m o t) 64) _bitmask64 = o.
Proof.
  change _bitmask64 with (Z.ones 64).
  rewrite Z.land_ones, Z.shiftr_div_pow2, packed_sum by lia.
  replace (t * 2 ^ 128 + o * 2 ^ 64 + m) with (m + (t * 2 ^ 64 + o) * 2 ^ 64) by lia.
  rewrite Z.div_add, Z.div_small, Z.add_0_l by lia.
  rewrite Z.add_comm, Z.mod_add by lia. apply Z.mod_small. lia.
Qed.

Lemma packed_token : Z.land (Z.shiftr (packed m o t) 128) 65535 = t.
Proof.
  change 65535 with (Z.ones 16).
  rewrite Z.land_ones, Z.shiftr_div_pow2, packed_sum by lia.
  replace (t * 2 ^ 128 + o * 2 ^ 64 + m) with (o * 2 ^ 64 + m + t * 2 ^ 128) by lia.
  rewrite Z.div_add, Z.div_small, Z.add_0_l by lia.
  apply Z.mod_small. lia.
Qed.

End fields.

Lemma fmap_rev {A B} (f : A → B) (l : list A) : f <$> rev l = rev (f <$> l).
Proof. induction l as [|x l IH]; [done|]. simpl. by rewrite fmap_app, IH. Qed.

(** C8.  Decoding an encoded triple gives the triple back: for all
    [m], [o] in [0, 2^64) and [t] in [0, 2^16), [decode (encode m o t)]
    returns the dict with [matchid = m], [outcomeid = o] and [token = t]. *)
Theorem decode_encode (m o t : Z) :
  0 <= m < 2 ^ 64 → 0 <= o < 2 ^ 64 → 0 <= t < 2 ^ 16 →
  decode (encode m o t) = Some {| matchid := m; outcomeid := o; token := t |}.
Proof.
  intros Hm Ho Ht. unfold encode, decode.
  set (num := _swap_endianness (packed m o t)).
  assert (0 <= num < 2 ^ 144) as Hnum by apply _swap_endianness_bounds.
  rewrite encode_loop_digits, app_nil_l.
  set (ds := le_digits 57 25 num).
  assert (Forall (in_base 57) ds) as Hds by (apply le_digits_in_base; lia).
  assert (Forall (λ c, in_dictionary c = true) (dictionary_at <$> ds)) as Hsym.
  { apply Forall_fmap. eapply Forall_impl; [exact Hds|].
    intros d Hd. simpl. by destruct (dictionary_at_facts d Hd). }
  assert (length (dictionary_at <$> ds) = 25%nat) as Hlen.
  { rewrite length_fmap. apply le_digits_length. }
  rewrite grouped_matches by done. cbn [negb].
  rewrite grouped_stripped by done.
  rewrite <- fmap_rev, decode_loop_digits by (by apply Forall_rev).
  cbn [mbind option_bind]. rewrite be_value_rev.
  unfold ds. rewrite le_value_le_digits by lia.
  rewrite (Z.mod_small num) by lia.
  unfold num. rewrite _swap_endianness_involutive by (by apply packed_bounds).
  by rewrite packed_matchid, packed_outcomeid, packed_token.
Qed.

(** The round trip at the two boundary triples, with the range hypotheses of
    [decode_encode] checked there. *)
Lemma decode_encode_witness :
  decode (encode 0 0 0) = Some {| matchid := 0; outcomeid := 0; token := 0 |}
  ∧ decode (encode (2 ^ 64 - 1) (2 ^ 64 - 1) (2 ^ 16 - 1))
    = Some {| matchid := 2 ^ 64 - 1; outcomeid := 2 ^ 64 - 1; token := 2 ^ 16 - 1 |}.
Proof. split; apply decode_encode; lia. Defined.

End sharecode_facts.

Module pymonad_facts.
Import pymonad.

Lemma bind_apply {S A B} (m : M S A) (f : A → M S B) (s : S) :
  (m ≫= f) s = match m s with Ok a s' => f a s' | Raise e s' => Raise e s' end.
Proof. reflexivity. Qed.

Lemma bind_ok {S A B} (m : M S A) (f : A → M S B) (s s' : S) (a : A) :
  m s = Ok a s' → (m ≫= f) s = f a s'.
Proof. intros H. by rewrite bind_apply, H. Qed.

Lemma bind_raise {S A B} (m : M S A) (f : A → M S B) (s s' : S) (e : Exn) :
  m s = Raise e s' → (m ≫= f) s = Raise e s'.
Proof. intros H. by rewrite bind_apply, H. Qed.

Lemma for_nil {S A} (body : A → M S LoopCtl) (s : S) : for_ [] body s = Ok tt s.
Proof. reflexivity. Qed.

Lemma for_cons_continue {S A} (x : A) (l : list A) (body : A → M S LoopCtl) (s s' : S) :
  body x s = Ok Continue s' → for_ (x :: l) body s = for_ l body s'.
Proof. intros H. cbn [for_]. by rewrite (bind_ok _ _ _ _ _ H). Qed.

Lemma for_cons_break {S A} (x : A) (l : list A) (body : A → M S LoopCtl) (s s' : S) :
  body x s = Ok Break s' → for_ (x :: l) body s = Ok tt s'.
Proof. intros H. cbn [for_]. by rewrite (bind_ok _ _ _ _ _ H). Qed.

Lemma for_cons_raise {S A} (x : A) (l : list A) (body : A → M S LoopCtl) (s s' : S) e :
  body x s = Raise e s' → for_ (x :: l) body s = Raise e s'.
Proof. intros H. cbn [for_]. by rewrite (bind_raise _ _ _ _ _ H). Qed.

Lemma for_app {S A} (l1 l2 : list A) (body : A → M S LoopCtl) (s s' : S) :
  (∀ x s0, x ∈ l1 → ∀ s1, body x s0 ≠ Ok Break s1) →
  for_ l1 body s = Ok tt s' → for_ (l1 ++ l2) body s = for_ l2 body s'.
Proof.
  revert s. induction l1 as [|x l1 IH]; intros s Hnb H.
  - by injection H as ->.
  - cbn [for_ app] in *. rewrite bind_apply in *.
    destruct (body x s) as [[] s0|e s0] eqn:Hx; [|exfalso|done].
    + apply IH; [|done]. intros y s1 Hy. apply Hnb. by right.
    + eapply (Hnb x s); [by left|done].
Qed.

End pymonad_facts.

Module common_enums_facts.
Import common_enums.

Lemma ESOType_of_value (t : ESOType) : ESOType_of (value t) = Some t.
Proof. by destruct t. Qed.

Lemma ESOType_of_Some (x : Z) (t : ESOType) : ESOType_of x = Some t → value t = x.
Proof.
  unfold ESOType_of. intros H. apply find_some in H as [_ H]. lia.
Qed.

Lemma value_inj (t1 t2 : ESOType) : value t1 = value t2 → t1 = t2.
Proof.
  intros H. pose proof (ESOType_of_value t1) as H1. rewrite H, ESOType_of_value in H1.
  congruence.
Qed.

End common_enums_facts.

Module sharedobjects_facts.
Import common_enums pymonad sharedobjects pymonad_facts common_enums_facts.

(** ** Lookups in the cache *)

Lemma getitem_invalid (x : Z) (s : State) :
  ESOType_of x = None → __getitem__ x s = Raise KeyError s.
Proof. intros H. unfold __getitem__. by rewrite H. Qed.

Lemma getitem_present (x : Z) (t : ESOType) (e : Entry) (s : State) :
  ESOType_of x = Some t → socache s !! x = Some e → __getitem__ x s = Ok e s.
Proof.
  intros Ht He. unfold __getitem__. rewrite Ht, (ESOType_of_Some x t Ht).
  rewrite bind_apply. unfold gets. by rewrite He.
Qed.

Lemma getitem_absent (x : Z) (t : ESOType) (s : State) :
  ESOType_of x = Some t → socache s !! x = None →
  __getitem__ x s = Ok (EDict []) (set_socache <[x := EDict []]> s).
Proof.
  intros Ht He. unfold __getitem__. rewrite Ht, (ESOType_of_Some x t Ht).
  rewrite bind_apply. unfold gets. by rewrite He.
Qed.

(** C10.  A lookup [socache[x]] raises [KeyError] exactly when [x] is not
    the value of an [ESOType] member; for a member it never raises, and when
    the member is not yet in the cache the lookup stores a new empty dict
    under it and returns that dict, whatever the key kind of the type. *)
Theorem getitem_spec (x : Z) (s : State) :
  ((∃ s', __getitem__ x s = Raise KeyError s') ↔ ESOType_of x = None)
  ∧ (∀ t, ESOType_of x = Some t →
       (∃ e s', __getitem__ x s = Ok e s')
       ∧ (socache s !! x = None →
          __getitem__ x s = Ok (EDict []) (set_socache <[x := EDict []]> s)
          ∧ socache (set_socache <[x := EDict []]> s) !! x = Some (EDict []))).
Proof.
  split.
  - split.
    + intros [s' H]. destruct (ESOType_of x) as [t|] eqn:Ht; [|done].
      destruct (socache s !! x) as [e|] eqn:He.
      * by rewrite (getitem_present x t e s) in H.
      * by rewrite (getitem_absent x t s) in H.
    + intros H. exists s. by apply getitem_invalid.
  - intros t Ht. split.
    + destruct (socache s !! x) as [e|] eqn:He.
      * exists e, s. by apply getitem_present with t.
      * eexists _, _. by apply getitem_absent with t.
    + intros He. split; [by apply getitem_absent with t|].
      simpl. apply lookup_insert_eq.
Qed.

(** The lookup of [CSOEconGameAccountClient], a type without key, in the
    empty cache. *)
Lemma getitem_spec_witness :
  __getitem__ 7 init_state = Ok (EDict []) (set_socache <[7 := EDict []]> init_state)
  ∧ socache (set_socache <[7 := EDict []]> init_state) !! 7 = Some (EDict []).
Proof.
  apply (proj2 (getitem_spec 7 init_state) CSOEconGameAccountClient); reflexivity.
Defined.

(** ** Dicts *)

Lemma dict_get_None (k : Key) (d : pydict) : dict_get k d = None ↔ k ∉ dict_keys d.
Proof.
  unfold dict_keys. induction d as [|[k' v] d IH]; simpl.
  - split; [intros _; apply not_elem_of_nil|done].
  - rewrite not_elem_of_cons. destruct (decide (k' = k)) as [->|Hne].
    + split; [done|]. by intros [? _].
    + rewrite IH. split; [intros H; split; [done|exact H]|by intros [_ H]].
Qed.

Lemma dict_get_set_eq (k : Key) (v : loc) (d : pydict) :
  dict_get k (dict_set k v d) = Some v.
Proof.
  induction d as [|[k' v'] d IH]; simpl.
  - by rewrite decide_True.
  - destruct (decide (k' = k)) as [->|Hne]; simpl.
    + by rewrite decide_True.
    + by rewrite decide_False.
Qed.

Lemma dict_get_set_ne (k k0 : Key) (v : loc) (d : pydict) :
  k ≠ k0 → dict_get k0 (dict_set k v d) = dict_get k0 d.
Proof.
  intros Hne. induction d as [|[k' v'] d IH]; simpl.
  - by rewrite decide_False.
  - destruct (decide (k' = k)) as [->|Hne']; simpl.
    + by rewrite !decide_False.
    + destruct (decide (k' = k0)); [done|exact IH].
Qed.

Lemma filter_key_absent (k : Key) (d : pydict) :
  dict_get k d = None → filter (λ e, e.1 = k) d = [].
Proof.
  induction d as [|[k' v'] d IH]; simpl; [done|].
  destruct (decide (k' = k)) as [->|Hne]; [done|]. intros H.
  rewrite filter_cons_False by done. by apply IH.
Qed.

Lemma filter_key_set_new (k : Key) (v : loc) (d : pydict) :
  dict_get k d = None → filter (λ e, e.1 = k) (dict_set k v d) = [(k, v)].
Proof.
  induction d as [|[k' v'] d IH]; simpl.
  - intros _. by rewrite filter_cons_True.
  - destruct (decide (k' = k)) as [->|Hne]; [done|]. intros H.
    rewrite filter_cons_False by done. by apply IH.
Qed.

Lemma filter_key_present (k : Key) (v : loc) (d : pydict) :
  NoDup (dict_keys d) → dict_get k d = Some v → filter (λ e, e.1 = k) d = [(k, v)].
Proof.
  unfold dict_keys. induction d as [|[k' v'] d IH]; simpl; [done|].
  rewrite NoDup_cons. intros [Hnot Hnd].
  destruct (decide (k' = k)) as [->|Hne].
  - intros [= ->]. rewrite filter_cons_True by done.
    rewrite filter_key_absent; [done|]. by apply dict_get_None.
  - intros H. rewrite filter_cons_False by done. by apply IH.
Qed.

Lemma dict_keys_set_present (k : Key) (v : loc) (d : pydict) :
  is_Some (dict_get k d) → dict_keys (dict_set k v d) = dict_keys d.
Proof.
  unfold dict_keys. induction d as [|[k' v'] d IH]; simpl.
  - by intros [? ?].
  - destruct (decide (k' = k)) as [->|Hne]; [done|]. intros H. simpl. f_equal. by apply IH.
Qed.

Lemma dict_keys_set_absent (k : Key) (v : loc) (d : pydict) :
  dict_get k d = None → dict_keys (dict_set k v d) = dict_keys d ++ [k].
Proof.
  unfold dict_keys. induction d as [|[k' v'] d IH]; simpl; [done|].
  destruct (decide (k' = k)) as [->|Hne]; [done|]. intros H. simpl. f_equal. by apply IH.
Qed.

Lemma filter_key_del (k : Key) (d : pydict) :
  NoDup (dict_keys d) → filter (λ e, e.1 = k) (dict_del k d) = [].
Proof.
  unfold dict_keys. induction d as [|[k' v'] d IH]; simpl; [done|].
  rewrite NoDup_cons. intros [Hnot Hnd].
  destruct (decide (k' = k)) as [->|Hne].
  - apply filter_key_absent. by apply dict_get_None.
  - rewrite filter_cons_False by done. by apply IH.
Qed.

(** ** Key fields *)

Lemma get_so_key_fields_run (desc : Descriptor) (s : State) :
  get_so_key_fields desc s
  = Ok (key_fields_in (so_key_fields s) desc) (set_so_key_fields (memoised desc) s).
Proof.
  unfold get_so_key_fields, key_fields_in, set_so_key_fields, memoised.
  rewrite bind_apply. unfold gets.
  destruct (so_key_fields s !! desc_id desc) eqn:H; [by destruct s|done].
Qed.

Lemma key_fields_in_memoised (desc : Descriptor) tbl :
  key_fields_in (memoised desc tbl) desc = key_fields_in tbl desc.
Proof.
  unfold key_fields_in, memoised.
  destruct (tbl !! desc_id desc) eqn:H; [by rewrite H|by rewrite lookup_insert_eq].
Qed.

Lemma memoised_idemp (desc : Descriptor) tbl :
  memoised desc (memoised desc tbl) = memoised desc tbl.
Proof.
  unfold memoised at 1. destruct (memoised desc tbl !! desc_id desc) eqn:H; [done|].
  unfold memoised in H. destruct (tbl !! desc_id desc) eqn:H'; [congruence|].
  by rewrite lookup_insert_eq in H.
Qed.

Lemma get_key_for_object_run (o : Obj) (s : State) :
  get_key_for_object o s
  = Ok (key_of (key_fields_in (so_key_fields s) (obj_desc o)) o)
       (set_so_key_fields (memoised (obj_desc o)) s).
Proof.
  unfold get_key_for_object. rewrite bind_apply, get_so_key_fields_run.
  unfold key_of. by destruct (key_fields_in _ _) as [|[|f [|f' fs]]].
Qed.

Section parse.
Variable pb_getattr : PbModule → string → option Proto.

Lemma parse_ok (tid : Z) (t : ESOType) (proto : Proto) data c (s : State) :
  ESOType_of tid = Some t →
  find_so_proto pb_getattr t = Some proto →
  truthy_fields (key_fields_in (so_key_fields s) (DESCRIPTOR proto)) = true →
  FromString proto data = Some c →
  let o := mk_Obj (DESCRIPTOR proto) c in
  _parse_object_data pb_getattr tid data s
  = Ok (Some (key_of (key_fields_in (so_key_fields s) (DESCRIPTOR proto)) o,
              length (heap s)))
       (parsed (DESCRIPTOR proto) o s).
Proof.
  intros Ht Hp Hk Hc o. unfold _parse_object_data, _get_proto_for_type.
  rewrite Ht. rewrite bind_apply. unfold mret at 1, M_ret at 1. rewrite Hp.
  rewrite bind_apply, get_so_key_fields_run, Hk. cbn [negb]. rewrite Hc.
  unfold alloc. mrun. rewrite get_key_for_object_run.
  unfold parsed, set_so_key_fields, set_heap.
  cbn [so_key_fields heap socache _caches emitted obj_desc].
  by rewrite key_fields_in_memoised, memoised_idemp.
Qed.

Lemma parse_undecodable (tid : Z) (t : ESOType) (proto : Proto) data (s : State) :
  ESOType_of tid = Some t →
  find_so_proto pb_getattr t = Some proto →
  truthy_fields (key_fields_in (so_key_fields s) (DESCRIPTOR proto)) = true →
  FromString proto data = None →
  _parse_object_data pb_getattr tid data s
  = Raise DecodeError (set_so_key_fields (memoised (DESCRIPTOR proto)) s).
Proof.
  intros Ht Hp Hk Hc. unfold _parse_object_data, _get_proto_for_type.
  rewrite Ht. rewrite bind_apply. unfold mret at 1, M_ret at 1. rewrite Hp.
  by rewrite bind_apply, get_so_key_fields_run, Hk, Hc.
Qed.

(** A failure that depends on the type alone: nothing is decoded, and the
    state changes at most by a new entry of the table [so_key_fields]. *)
Lemma parse_type_fails (tid : Z) data (s : State) :
  type_fails pb_getattr s tid →
  ∃ s', _parse_object_data pb_getattr tid data s = Ok None s' ∧ same_cache s' s.
Proof.
  unfold type_fails, _parse_object_data, _get_proto_for_type. intros H.
  destruct (ESOType_of tid) as [t|] eqn:Ht.
  - rewrite bind_apply. unfold mret at 1, M_ret at 1.
    destruct (find_so_proto pb_getattr t) as [proto|] eqn:Hp.
    + rewrite bind_apply, get_so_key_fields_run, H. by eexists.
    + by eexists.
  - rewrite bind_apply. by eexists.
Qed.

Lemma CopyFrom_run (dst src : loc) (d o : Obj) (s : State) :
  heap s !! dst = Some d → heap s !! src = Some o →
  desc_id (obj_desc d) = desc_id (obj_desc o) →
  CopyFrom dst src s = Ok tt (set_heap <[dst := mk_Obj (obj_desc d) (obj_fields o)]> s).
Proof.
  intros Hd Ho Heq. unfold CopyFrom. mrun. rewrite Hd, Ho.
  by destruct (decide _).
Qed.

Lemma getitem_value_present (t : ESOType) (e : Entry) (s : State) :
  socache s !! value t = Some e → __getitem__ (value t) s = Ok e s.
Proof. apply (getitem_present _ t), ESOType_of_value. Qed.

Lemma getitem_value_absent (t : ESOType) (s : State) :
  socache s !! value t = None →
  __getitem__ (value t) s = Ok (EDict []) (set_socache <[value t := EDict []]> s).
Proof. apply (getitem_absent _ t), ESOType_of_value. Qed.

Section update.
Variables (tid : Z) (t : ESOType) (proto : Proto) (data : list Byte.byte).
Variables (c : gmap string Z) (s : State).
Hypothesis Htid : ESOType_of tid = Some t.
Hypothesis Hproto : find_so_proto pb_getattr t = Some proto.
Hypothesis Hdata : FromString proto data = Some c.

Local Abbreviation desc := (DESCRIPTOR proto).
Local Abbreviation kf := (key_fields_in (so_key_fields s) desc).
Local Abbreviation o := (mk_Obj desc c).
Local Abbreviation s1 := (parsed desc o s).
Local Abbreviation n := (length (heap s)).

Lemma parsed_new_object : heap s1 !! n = Some o.
Proof. unfold parsed. simpl. by rewrite list_lookup_middle. Qed.

Lemma parsed_old_object (l : loc) (d : Obj) : heap s !! l = Some d → heap s1 !! l = Some d.
Proof. intros H. unfold parsed. simpl. by apply lookup_app_l_Some. Qed.

(** A type without key whose container is missing or a dict: the decoded
    object is installed. *)
Lemma update_singleton_install :
  kf = NO_KEY →
  (∀ l, socache s !! value t ≠ Some (EObj l)) →
  _update_object pb_getattr tid data s
  = Ok (Some (t, n)) (set_socache <[value t := EObj n]> s1).
Proof.
  intros Hk Hentry. unfold _update_object.
  assert (truthy_fields kf = true) as Htruthy by (by rewrite Hk).
  rewrite bind_apply, (parse_ok tid t proto data c s Htid Hproto Htruthy Hdata).
  rewrite Hk. cbn [key_of].
  unfold ESOType_call. rewrite Htid. mrun.
  destruct (socache s !! value t) as [[l|d]|] eqn:He.
  - by destruct (Hentry l).
  - rewrite (getitem_value_present t (EDict d) s1) by done.
    unfold __setitem__. by mrun.
  - rewrite (getitem_value_absent t s1) by done.
    unfold __setitem__. mrun. unfold set_socache. simpl.
    by rewrite insert_insert_eq.
Qed.

(** A type without key whose container is an object of the class: the
    decoded content is copied into it. *)
Lemma update_singleton_copy (l : loc) (d : Obj) :
  kf = NO_KEY →
  socache s !! value t = Some (EObj l) →
  heap s !! l = Some d → desc_id (obj_desc d) = desc_id desc →
  _update_object pb_getattr tid data s
  = Ok (Some (t, l)) (set_heap <[l := mk_Obj (obj_desc d) c]> s1).
Proof.
  intros Hk He Hd Hdesc. unfold _update_object.
  assert (truthy_fields kf = true) as Htruthy by (by rewrite Hk).
  rewrite bind_apply, (parse_ok tid t proto data c s Htid Hproto Htruthy Hdata).
  rewrite Hk. cbn [key_of].
  unfold ESOType_call. rewrite Htid. mrun.
  rewrite !(getitem_value_present t (EObj l) s1) by done.
  rewrite (CopyFrom_run l n d o s1) by (auto using parsed_new_object, parsed_old_object).
  rewrite (getitem_value_present t (EObj l)) by done. done.
Qed.

Lemma keyed_key_not_sentinel (f : string) (fs : list string) :
  key_of (Fields (f :: fs)) o ≠ KNoKey.
Proof. by destruct fs. Qed.

(** A keyed type whose dict does not have the key: the decoded object is
    inserted under it. *)
Lemma update_keyed_insert (f : string) (fs : list string) :
  kf = Fields (f :: fs) →
  (∀ l, socache s !! value t ≠ Some (EObj l)) →
  dict_get (key_of kf o) (dict_of (socache s !! value t)) = None →
  _update_object pb_getattr tid data s
  = Ok (Some (t, n))
       (set_socache <[value t := EDict (dict_set (key_of kf o) n
                                          (dict_of (socache s !! value t)))]> s1).
Proof.
  intros Hk Hentry Hget. unfold _update_object.
  assert (truthy_fields kf = true) as Htruthy by (by rewrite Hk).
  rewrite bind_apply, (parse_ok tid t proto data c s Htid Hproto Htruthy Hdata).
  pose proof (keyed_key_not_sentinel f fs) as Hkey. rewrite <- Hk in Hkey.
  unfold ESOType_call. rewrite Htid. mrun.
  destruct (socache s !! value t) as [[l|d]|] eqn:He.
  - by destruct (Hentry l).
  - simpl in Hget.
    destruct (key_of kf o) eqn:Hko; [done|..];
      rewrite !(getitem_value_present t (EDict d) s1) by done;
      rewrite Hget; rewrite !(getitem_value_present t (EDict d) s1) by done;
      unfold __setitem__; by mrun.
  - simpl in Hget.
    destruct (key_of kf o) eqn:Hko; [done|..];
      rewrite (getitem_value_absent t s1) by done;
      cbn [dict_get];
      (rewrite (getitem_value_present t (EDict []) (set_socache _ s1))
        by (simpl; apply lookup_insert_eq));
      unfold __setitem__; mrun; unfold set_socache; simpl;
      by rewrite insert_insert_eq.
Qed.

(** A keyed type whose dict has the key: the decoded content is copied
    into the object stored under it. *)
Lemma update_keyed_copy (f : string) (fs : list string) (dct : pydict) (l : loc) (d : Obj) :
  kf = Fields (f :: fs) →
  socache s !! value t = Some (EDict dct) →
  dict_get (key_of kf o) dct = Some l →
  heap s !! l = Some d → desc_id (obj_desc d) = desc_id desc →
  _update_object pb_getattr tid data s
  = Ok (Some (t, l)) (set_heap <[l := mk_Obj (obj_desc d) c]> s1).
Proof.
  intros Hk He Hget Hd Hdesc. unfold _update_object.
  assert (truthy_fields kf = true) as Htruthy by (by rewrite Hk).
  rewrite bind_apply, (parse_ok tid t proto data c s Htid Hproto Htruthy Hdata).
  pose proof (keyed_key_not_sentinel f fs) as Hkey. rewrite <- Hk in Hkey.
  unfold ESOType_call. rewrite Htid. mrun.
  destruct (key_of kf o) eqn:Hko; [done|..];
    rewrite !(getitem_value_present t (EDict dct) s1) by done;
    rewrite Hget;
    rewrite !(getitem_value_present t (EDict dct) s1) by done;
    rewrite Hget;
    rewrite (CopyFrom_run l n d o s1) by (auto using parsed_new_object, parsed_old_object);
    rewrite (getitem_value_present t (EDict dct)) by done;
    by rewrite Hget.
Qed.

End update.

(** ** What an update stores *)

Lemma holds_parsed (desc' : Descriptor) (o : Obj) (desc : Descriptor) (s : State) (l : loc) :
  holds s desc l → holds (parsed desc' o s) desc l.
Proof.
  intros (d & Hd & Hid). exists d. split; [|done].
  unfold parsed. simpl. by apply lookup_app_l_Some.
Qed.

Lemma holds_copied (s : State) (desc : Descriptor) (l l0 : loc) (d : Obj) :
  desc_id (obj_desc d) = desc_id desc →
  holds s desc l0 → holds (set_heap <[l := d]> s) desc l0.
Proof.
  intros Hid (d0 & Hd0 & Hid0). unfold holds, set_heap. simpl.
  destruct (decide (l = l0)) as [->|Hne].
  - exists d. split; [|done]. apply list_lookup_insert_eq. by eapply lookup_lt_Some.
  - exists d0. split; [|done]. by rewrite list_lookup_insert_ne.
Qed.

Lemma update_object_stores (tid : Z) (t : ESOType) (proto : Proto) data c (s : State) :
  ESOType_of tid = Some t →
  find_so_proto pb_getattr t = Some proto →
  FromString proto data = Some c →
  let desc := DESCRIPTOR proto in
  let kf := key_fields_in (so_key_fields s) desc in
  let key := key_of kf (mk_Obj desc c) in
  truthy_fields kf = true →
  well_shaped s t desc →
  ∃ l s',
    _update_object pb_getattr tid data s = Ok (Some (t, l)) s'
    ∧ emitted s' = emitted s
    ∧ key_fields_in (so_key_fields s') desc = kf
    ∧ content s' l = Some c
    ∧ instances s' t key = [l]
    ∧ well_shaped s' t desc
    ∧ (∀ l0, l0 ∈ instances s t key → l = l0)
    ∧ (∀ l0, l0 ≠ l → l0 < length (heap s) → content s' l0 = content s l0)%nat.
Proof.
  intros Htid Hproto Hdata desc kf key Htruthy Hws.
  set (o := mk_Obj desc c). set (s1 := parsed desc o s). set (n := length (heap s)).
  assert (key_fields_in (so_key_fields s1) desc = kf) as Hkf1
    by apply key_fields_in_memoised.
  assert (heap s1 !! n = Some o) as Hn by (by apply parsed_new_object).
  assert (∀ l0, l0 < n → heap s1 !! l0 = heap s !! l0)%nat as Hold.
  { intros l0 Hl0. unfold s1, parsed. simpl. by apply lookup_app_l. }
  unfold well_shaped in Hws. unfold instances.
  destruct kf as [|[|f fs]] eqn:Hk; [| done |].
  - (* a type without key *)
    destruct (socache s !! value t) as [[l|d]|] eqn:He.
    + destruct Hws as [_ (d & Hd & Hid)].
      exists l, (set_heap <[l := mk_Obj (obj_desc d) c]> s1).
      assert (l < length (heap s1))%nat as Hlt.
      { unfold s1, parsed. simpl. rewrite length_app. apply lookup_lt_Some in Hd. lia. }
      split; [by eapply update_singleton_copy|].
      split; [done|]. split; [done|].
      split; [unfold content; simpl; by rewrite list_lookup_insert_eq|].
      unfold well_shaped. simpl. rewrite He.
      split; [done|]. split.
      * split; [done|]. exists (mk_Obj (obj_desc d) c).
        split; [by apply list_lookup_insert_eq|done].
      * split; [by intros l0 ->%list_elem_of_singleton|].
        intros l0 Hne Hl0. unfold content. simpl.
        rewrite list_lookup_insert_ne by done. by rewrite Hold.
    + exists n, (set_socache <[value t := EObj n]> s1).
      split; [by apply update_singleton_install; [..|by rewrite He]|].
      split; [done|]. split; [done|].
      split; [unfold content; simpl; by rewrite list_lookup_middle|].
      unfold well_shaped. simpl. rewrite lookup_insert_eq.
      split; [done|]. split.
      * split; [done|]. exists o. split; [by apply list_lookup_middle|done].
      * split.
        -- intros l0 Hl0. destruct Hws as [_ Hws].
           apply list_elem_of_fmap in Hl0 as ([k0 l1] & -> & Hin).
           apply list_elem_of_filter in Hin as [Hk0 Hin]. simpl in *. subst k0.
           destruct (dict_get key d) as [l2|] eqn:Hget.
           ++ destruct (Hws key l2 Hget) as [Hne _]. destruct (Hne Hk).
           ++ apply dict_get_None in Hget. destruct Hget.
              unfold dict_keys. apply list_elem_of_fmap. by exists (key, l1).
        -- intros l0 Hne Hl0. unfold content. simpl. by rewrite Hold.
    + exists n, (set_socache <[value t := EObj n]> s1).
      split; [by apply update_singleton_install; [..|by rewrite He]|].
      split; [done|]. split; [done|].
      split; [unfold content; simpl; by rewrite list_lookup_middle|].
      unfold well_shaped. simpl. rewrite lookup_insert_eq.
      split; [done|]. split.
      * split; [done|]. exists o. split; [by apply list_lookup_middle|done].
      * split; [by intros l0 Hl0%elem_of_nil|].
        intros l0 Hne Hl0. unfold content. simpl. by rewrite Hold.
  - (* a keyed type *)
    assert (∀ l, socache s !! value t ≠ Some (EObj l)) as Hnot.
    { intros l He. rewrite He in Hws. destruct Hws as [Hno _].
      change (kf = NO_KEY) in Hno. congruence. }
    assert (NoDup (dict_keys (dict_of (socache s !! value t)))
            ∧ ∀ k l, dict_get k (dict_of (socache s !! value t)) = Some l →
                     holds s desc l) as [Hnd Hholds].
    { destruct (socache s !! value t) as [[l|d]|]; simpl.
      - by destruct (Hnot l).
      - destruct Hws as [Hnd Hws]. split; [done|]. intros k l Hkl.
        by destruct (Hws k l Hkl).
      - split; [constructor|done]. }
    assert (instances s t key = (filter (λ e, e.1 = key)
                                   (dict_of (socache s !! value t))).*2) as Hinst.
    { unfold instances. destruct (socache s !! value t) as [[l|d]|] eqn:He; [|done..].
      by destruct (Hnot l). }
    fold (instances s t key). rewrite Hinst. clear Hinst.
    destruct (dict_get key (dict_of (socache s !! value t))) as [l|] eqn:Hget.
    + destruct (socache s !! value t) as [[l'|d]|] eqn:He; [by destruct (Hnot l')| |done].
      simpl in Hget, Hnd, Hholds |- *.
      destruct (Hholds key l Hget) as (d0 & Hd0 & Hid0).
      exists l, (set_heap <[l := mk_Obj (obj_desc d0) c]> s1).
      assert (l < length (heap s1))%nat as Hlt.
      { unfold s1, parsed. simpl. rewrite length_app. apply lookup_lt_Some in Hd0. lia. }
      pose proof (update_keyed_copy tid t proto data c s Htid Hproto Hdata
                    f fs d l d0 Hk He) as Hrun.
      unfold kf, desc in Hk. rewrite Hk in Hrun.
      split; [by apply Hrun|].
      split; [done|]. split; [done|].
      split; [unfold content; simpl; by rewrite list_lookup_insert_eq|].
      unfold well_shaped. simpl. rewrite He.
      rewrite (filter_key_present key l d) by done.
      split; [done|]. split.
      * split; [done|]. intros k0 l0 Hk0. split; [change (key_fields_in (so_key_fields s1) desc ≠ NO_KEY); by rewrite Hkf1|].
        apply holds_copied; [done|]. apply holds_parsed. by eapply Hholds.
      * split; [by intros l0 ->%list_elem_of_singleton|].
        intros l0 Hne Hl0. unfold content. simpl.
        rewrite list_lookup_insert_ne by done. by rewrite Hold.
    + exists n, (set_socache <[value t := EDict (dict_set key n
                                            (dict_of (socache s !! value t)))]> s1).
      pose proof (update_keyed_insert tid t proto data c s Htid Hproto Hdata
                    f fs Hk Hnot) as Hrun.
      unfold kf, desc in Hk. rewrite Hk in Hrun.
      split; [by apply Hrun|].
      split; [done|]. split; [done|].
      split; [unfold content; simpl; by rewrite list_lookup_middle|].
      unfold well_shaped. simpl. rewrite lookup_insert_eq.
      rewrite filter_key_set_new by done.
      split; [done|]. split.
      * split.
        -- rewrite dict_keys_set_absent by done.
           apply NoDup_app. split; [done|]. split; [|apply NoDup_singleton].
           intros k Hk1 ->%list_elem_of_singleton. by apply dict_get_None in Hget.
        -- intros k0 l0 Hk0. split; [change (key_fields_in (so_key_fields s1) desc ≠ NO_KEY); by rewrite Hkf1|].
           destruct (decide (key = k0)) as [<-|Hne].
           ++ rewrite dict_get_set_eq in Hk0. injection Hk0 as <-.
              exists o. split; [by apply list_lookup_middle|done].
           ++ rewrite dict_get_set_ne in Hk0 by done.
              apply (holds_parsed desc o desc s l0). by eapply Hholds.
      * rewrite filter_key_absent by done.
        split; [by intros l0 Hl0%elem_of_nil|].
        intros l0 Hne Hl0. unfold content. simpl. by rewrite Hold.
Qed.

Lemma handle_create_run (tid : Z) data (s s' : State) (t : ESOType) (l : loc) :
  _update_object pb_getattr tid data s = Ok (Some (t, l)) s' →
  _handle_create pb_getattr (mk_single tid data) s
  = Ok tt (set_emitted (λ es, es ++ [(new, t, l)]) s').
Proof. intros H. unfold _handle_create. simpl. by rewrite bind_apply, H. Qed.

Lemma handle_update_run (tid : Z) data (s s' : State) (t : ESOType) (l : loc) :
  _update_object pb_getattr tid data s = Ok (Some (t, l)) s' →
  _handle_update pb_getattr (mk_single tid data) s
  = Ok tt (set_emitted (λ es, es ++ [(updated, t, l)]) s').
Proof. intros H. unfold _handle_update. simpl. by rewrite bind_apply, H. Qed.

(** A Create followed by an Update for the same key, from a state in which
    the container of the type is well shaped. *)
Lemma shaped_create_update (tid : Z) (t : ESOType) (proto : Proto)
    (data1 data2 : list Byte.byte) (c1 c2 : gmap string Z) (s : State) :
  ESOType_of tid = Some t →
  find_so_proto pb_getattr t = Some proto →
  FromString proto data1 = Some c1 →
  FromString proto data2 = Some c2 →
  let desc := DESCRIPTOR proto in
  let kf := key_fields_in (so_key_fields s) desc in
  key_kind kf ≠ NoKeyDefined →
  key_of kf (mk_Obj desc c1) = key_of kf (mk_Obj desc c2) →
  well_shaped s t desc →
  ∃ l s1 s2,
    _handle_create pb_getattr (mk_single tid data1) s = Ok tt s1
    ∧ _handle_update pb_getattr (mk_single tid data2) s1 = Ok tt s2
    ∧ emitted s2 = emitted s ++ [(new, t, l); (updated, t, l)]
    ∧ content s1 l = Some c1
    ∧ content s2 l = Some c2
    ∧ instances s2 t (key_of kf (mk_Obj desc c2)) = [l].
Proof.
  intros Htid Hproto Hd1 Hd2. cbv zeta. intros Hkind Hkey Hws.
  assert (truthy_fields (key_fields_in (so_key_fields s) (DESCRIPTOR proto)) = true)
    as Htruthy by (by destruct (key_fields_in _ _) as [|[|??]]).
  destruct (update_object_stores tid t proto data1 c1 s Htid Hproto Hd1 Htruthy Hws)
    as (l & s' & Hrun1 & Hem1 & Hkf1 & Hc1 & Hinst1 & Hws1 & _ & _).
  set (s1 := set_emitted (λ es, es ++ [(new, t, l)]) s').
  assert (truthy_fields (key_fields_in (so_key_fields s1) (DESCRIPTOR proto)) = true)
    as Htruthy1 by (simpl; by rewrite Hkf1).
  destruct (update_object_stores tid t proto data2 c2 s1 Htid Hproto Hd2 Htruthy1 Hws1)
    as (l2 & s2' & Hrun2 & Hem2 & Hkf2 & Hc2 & Hinst2 & _ & Hsame & _).
  simpl in Hinst2, Hsame. rewrite Hkf1 in Hinst2, Hsame.
  assert (l2 = l) as ->.
  { apply Hsame. rewrite <- Hkey.
    change (instances s1 t ?k) with (instances s' t k).
    rewrite Hinst1. by left. }
  exists l, s1, (set_emitted (λ es, es ++ [(updated, t, l)]) s2').
  split; [by apply handle_create_run|].
  split; [by apply handle_update_run|].
  split.
  { simpl. rewrite Hem2. simpl. rewrite Hem1. by rewrite <- app_assoc. }
  split; [done|]. split; [done|]. done.
Qed.

(** ** Destroy *)

(** A Destroy whose record parses, from a state in which the container of
    the type is well shaped. *)
Lemma shaped_destroy (tid : Z) (t : ESOType) (proto : Proto)
    (data : list Byte.byte) (c : gmap string Z) (s : State) :
  ESOType_of tid = Some t →
  find_so_proto pb_getattr t = Some proto →
  FromString proto data = Some c →
  let desc := DESCRIPTOR proto in
  let kf := key_fields_in (so_key_fields s) desc in
  let key := key_of kf (mk_Obj desc c) in
  truthy_fields kf = true →
  well_shaped s t desc →
  ∃ l s',
    _handle_destroy pb_getattr (mk_single tid data) s = Ok tt s'
    ∧ emitted s' = emitted s ++ [(removed, t, l)]
    ∧ content s' l = Some c
    ∧ instances s' t key = []
    ∧ (∀ l0, l0 ∈ instances s t key → l = l0)
    ∧ (instances s t key = [] → l = length (heap s)).
Proof.
  intros Htid Hproto Hdata. cbv zeta. intros Htruthy Hws.
  set (desc := DESCRIPTOR proto) in *.
  set (o := mk_Obj desc c). set (s1 := parsed desc o s). set (n := length (heap s)).
  assert (heap s1 !! n = Some o) as Hn by (by apply parsed_new_object).
  unfold _handle_destroy. cbn [type_id object_data].
  rewrite bind_apply, (parse_ok tid t proto data c s Htid Hproto Htruthy Hdata).
  fold desc o s1 n. unfold ESOType_call. rewrite Htid.
  unfold well_shaped in Hws. unfold instances.
  destruct (key_fields_in (so_key_fields s) desc) as [|[|f fs]] eqn:Hk; [|done|].
  - (* a type without key *)
    cbn [key_of]. unfold pop_default. mrun.
    change (socache s1) with (socache s).
    destruct (socache s !! value t) as [[l|d]|] eqn:He.
    + destruct Hws as [_ (d & Hd & Hid)].
      rewrite (CopyFrom_run l n d o) by (simpl; auto using lookup_app_l_Some).
      unfold emit. mrun. eexists l, _. split; [done|]. simpl.
      rewrite lookup_delete_eq.
      split; [done|]. split.
      { unfold content. simpl. rewrite list_lookup_insert_eq; [done|].
        rewrite length_app. apply lookup_lt_Some in Hd. lia. }
      split; [done|]. split; [by intros l0 ->%list_elem_of_singleton|done].
    + destruct Hws as [_ Hws]. destruct d as [|[k0 l0] d].
      * unfold emit. mrun. eexists n, _. split; [done|]. simpl.
        rewrite lookup_delete_eq.
        split; [done|]. split; [unfold content; simpl; by rewrite list_lookup_middle|].
        split; [done|]. split; [by intros l0 Hl0%elem_of_nil|done].
      * destruct (Hws k0 l0) as [Hne _]; [simpl; by rewrite decide_True|done].
    + unfold emit. mrun. eexists n, _. split; [done|]. simpl.
      rewrite lookup_delete_eq.
      split; [done|]. split; [unfold content; simpl; by rewrite list_lookup_middle|].
      split; [done|]. split; [by intros l0 Hl0%elem_of_nil|done].
  - (* a keyed type *)
    pose proof (keyed_key_not_sentinel proto c f fs) as Hkey. fold desc o in Hkey.
    destruct (socache s !! value t) as [[l|d]|] eqn:He.
    + by destruct Hws as [[=] _].
    + destruct Hws as [Hnd Hws].
      destruct (key_of (Fields (f :: fs)) o) eqn:Hko; [done|..].
      all: mrun; rewrite (getitem_value_present t (EDict d) s1) by done.
      all: unfold __setitem__; mrun.
      all: destruct (dict_get _ d) as [l|] eqn:Hget; cbn [fmap option_fmap option_map].
      all: try (destruct (Hws _ l Hget) as [_ (d0 & Hd0 & Hid0)];
                rewrite (CopyFrom_run l n d0 o) by (simpl; auto using lookup_app_l_Some)).
      all: unfold emit; mrun.
      all: eexists _, _; (split; [done|]); simpl.
      all: rewrite lookup_insert_eq.
      all: rewrite filter_key_del by done.
      all: match goal with
           | H : dict_get _ ?d' = Some ?l' |- _ =>
               rewrite (filter_key_present _ l' d') by done
           | H : dict_get _ _ = None |- _ => rewrite filter_key_absent by done
           end.
      all: split; [done|]; split.
      all: try (unfold content; simpl; by rewrite list_lookup_middle).
      all: try (unfold content; simpl; rewrite list_lookup_insert_eq; [done|];
                rewrite length_app; apply lookup_lt_Some in Hd0; lia).
      all: split; [done|]; split; [|done].
      all: try by intros l0 ->%list_elem_of_singleton.
      all: by intros l0 Hl0%elem_of_nil.
    + destruct (key_of (Fields (f :: fs)) o) eqn:Hko; [done|..].
      all: mrun; rewrite (getitem_value_absent t s1) by done.
      all: unfold __setitem__, emit; mrun.
      all: eexists n, _; (split; [done|]); simpl.
      all: rewrite lookup_insert_eq; simpl.
      all: split; [done|]; split.
      all: try (unfold content; simpl; by rewrite list_lookup_middle).
      all: split; [done|]; split; [|done].
      all: by intros l0 Hl0%elem_of_nil.
Qed.

(** ** Cache subscribed *)

Lemma apply_group_continues (g : SubscribedType) (s s' : State) :
  apply_group pb_getattr g s ≠ Ok Break s'.
Proof.
  unfold apply_group. rewrite bind_apply.
  by destruct (for_ _ _ s).
Qed.

Lemma groups_app (pre post : list SubscribedType) (s s1 : State) :
  for_ pre (apply_group pb_getattr) s = Ok tt s1 →
  for_ (pre ++ post) (apply_group pb_getattr) s = for_ post (apply_group pb_getattr) s1.
Proof. apply for_app. intros g s0 _ s'. apply apply_group_continues. Qed.

Lemma same_cache_refl (s : State) : same_cache s s.
Proof. by repeat split. Qed.

Lemma same_cache_trans (s1 s2 s3 : State) :
  same_cache s1 s2 → same_cache s2 s3 → same_cache s1 s3.
Proof. unfold same_cache. intros (-> & -> & -> & ->) (-> & -> & -> & ->). done. Qed.

(** A group whose type fails is skipped at its first object. *)
Lemma apply_group_type_fails (tid : Z) (datas : list (list Byte.byte)) (s : State) :
  type_fails pb_getattr s tid →
  ∃ s', apply_group pb_getattr (mk_subscribed_type tid datas) s = Ok Continue s'
        ∧ same_cache s' s.
Proof.
  intros Hfail. unfold apply_group. cbn [st_object_data st_type_id].
  destruct datas as [|data datas].
  - exists s. split; [done|apply same_cache_refl].
  - destruct (parse_type_fails tid data s Hfail) as (s' & Hparse & Hsame).
    exists s'. split; [|done].
    rewrite bind_apply. cbn [for_]. rewrite bind_apply.
    unfold apply_object, _update_object. by rewrite !bind_apply, Hparse.
Qed.

(** Objects that decode are applied one after the other. *)
Lemma apply_objects_decodable (tid : Z) (t : ESOType) (proto : Proto)
    (datas : list (list Byte.byte)) (s : State) :
  ESOType_of tid = Some t →
  find_so_proto pb_getattr t = Some proto →
  truthy_fields (key_fields_in (so_key_fields s) (DESCRIPTOR proto)) = true →
  well_shaped s t (DESCRIPTOR proto) →
  Forall (λ data, is_Some (FromString proto data)) datas →
  ∃ s',
    for_ datas (apply_object pb_getattr tid) s = Ok tt s'
    ∧ key_fields_in (so_key_fields s') (DESCRIPTOR proto)
      = key_fields_in (so_key_fields s) (DESCRIPTOR proto)
    ∧ well_shaped s' t (DESCRIPTOR proto)
    ∧ length (emitted s') = (length (emitted s) + length datas)%nat.
Proof.
  intros Htid Hproto Htruthy Hws Hdatas. revert s Htruthy Hws.
  induction Hdatas as [|data datas [c Hc] _ IH]; intros s Htruthy Hws.
  - exists s. repeat split; [done|]. simpl. lia.
  - destruct (update_object_stores tid t proto data c s Htid Hproto Hc Htruthy Hws)
      as (l & s1 & Hrun & Hem & Hkf & _ & _ & Hws1 & _).
    set (s2 := set_emitted (λ es, es ++ [(new, t, l)]) s1).
    destruct (IH s2) as (s' & Hfor & Hkf' & Hws' & Hlen).
    { simpl. by rewrite Hkf. }
    { exact Hws1. }
    exists s'. split.
    + cbn [for_]. rewrite bind_apply. unfold apply_object at 1.
      rewrite bind_apply, Hrun. unfold emit. mrun. exact Hfor.
    + split; [by rewrite Hkf', <- Hkf|]. split; [done|].
      rewrite Hlen. simpl. rewrite length_app, Hem. simpl. lia.
Qed.

(** Objects that decode, followed by one that does not: the loop raises at
    that object, in the state that the objects before it left. *)
Lemma apply_objects_undecodable (tid : Z) (t : ESOType) (proto : Proto)
    (datas1 datas2 : list (list Byte.byte)) (bad : list Byte.byte) (s : State) :
  ESOType_of tid = Some t →
  find_so_proto pb_getattr t = Some proto →
  truthy_fields (key_fields_in (so_key_fields s) (DESCRIPTOR proto)) = true →
  well_shaped s t (DESCRIPTOR proto) →
  Forall (λ data, is_Some (FromString proto data)) datas1 →
  FromString proto bad = None →
  ∃ s2 s3,
    for_ datas1 (apply_object pb_getattr tid) s = Ok tt s2
    ∧ for_ (datas1 ++ bad :: datas2) (apply_object pb_getattr tid) s = Raise DecodeError s3
    ∧ same_cache s3 s2.
Proof.
  intros Htid Hproto Htruthy Hws Hdatas Hbad. revert s Htruthy Hws.
  induction Hdatas as [|data datas [c Hc] _ IH]; intros s Htruthy Hws.
  - exists s, (set_so_key_fields (memoised (DESCRIPTOR proto)) s).
    split; [done|]. split; [|by repeat split].
    cbn [app for_]. rewrite bind_apply. unfold apply_object, _update_object.
    by rewrite !bind_apply, (parse_undecodable tid t proto bad s).
  - destruct (update_object_stores tid t proto data c s Htid Hproto Hc Htruthy Hws)
      as (l & s1 & Hrun & Hem & Hkf & _ & _ & Hws1 & _).
    set (s1' := set_emitted (λ es, es ++ [(new, t, l)]) s1).
    destruct (IH s1') as (s2 & s3 & Hfor & Hraise & Hsame).
    { simpl. by rewrite Hkf. }
    { exact Hws1. }
    exists s2, s3. split; [|split; [|done]].
    + cbn [for_]. rewrite bind_apply. unfold apply_object at 1.
      rewrite bind_apply, Hrun. unfold emit. mrun. exact Hfor.
    + cbn [app for_]. rewrite bind_apply. unfold apply_object at 1.
      rewrite bind_apply, Hrun. unfold emit. mrun. exact Hraise.
Qed.

Lemma handle_cache_subscribed_run (message : CMsgSOCacheSubscribed) (s : State) :
  _handle_cache_subscribed pb_getattr message s
  = for_ (objects message) (apply_group pb_getattr)
         (final (record_subscription message s)).
Proof. reflexivity. Qed.

(** The two kinds of failure in a cache-subscribed notification, once the
    groups before the failing one have been applied. *)
Lemma shaped_subscribed_failure (owner : Z * Z) (ver : Z) (pre post : list SubscribedType)
    (tid : Z) (datas : list (list Byte.byte)) (s s1 : State) :
  let message := mk_subscribed owner ver (pre ++ mk_subscribed_type tid datas :: post) in
  for_ pre (apply_group pb_getattr) (final (record_subscription message s)) = Ok tt s1 →
  (type_fails pb_getattr s1 tid →
   ∃ s2, same_cache s2 s1
         ∧ _handle_cache_subscribed pb_getattr message s
           = for_ post (apply_group pb_getattr) s2)
  ∧ (∀ t proto datas1 bad datas2,
       datas = datas1 ++ bad :: datas2 →
       ESOType_of tid = Some t →
       find_so_proto pb_getattr t = Some proto →
       truthy_fields (key_fields_in (so_key_fields s1) (DESCRIPTOR proto)) = true →
       well_shaped s1 t (DESCRIPTOR proto) →
       Forall (λ data, is_Some (FromString proto data)) datas1 →
       FromString proto bad = None →
       ∃ s2 s3,
         for_ datas1 (apply_object pb_getattr tid) s1 = Ok tt s2
         ∧ _handle_cache_subscribed pb_getattr message s = Raise DecodeError s3
         ∧ same_cache s3 s2).
Proof.
  intros message Hpre. rewrite handle_cache_subscribed_run. cbn [objects message].
  rewrite (groups_app _ _ _ _ Hpre). split.
  - intros Hfail.
    destruct (apply_group_type_fails tid datas s1 Hfail) as (s2 & Hrun & Hsame).
    exists s2. split; [done|]. by rewrite (for_cons_continue _ _ _ _ _ Hrun).
  - intros t proto datas1 bad datas2 -> Htid Hproto Htruthy Hws Hdatas Hbad.
    destruct (apply_objects_undecodable tid t proto datas1 datas2 bad s1
                Htid Hproto Htruthy Hws Hdatas Hbad) as (s2 & s3 & Hfor & Hraise & Hsame).
    exists s2, s3. split; [done|]. split; [|done].
    apply for_cons_raise. unfold apply_group. cbn [st_object_data st_type_id].
    by rewrite bind_apply, Hraise.
Qed.

End parse.

(** ** The properties at concrete notifications *)

Import Byte.

(** A notification with two groups: one object of the unknown type 99,
    then the item with id 5. *)
Example subscribed_two_groups :
  emitted (final (_handle_cache_subscribed example.pb_getattr
                    (mk_subscribed (1, 100) 1
                       [mk_subscribed_type 99 [[x01]]; mk_subscribed_type 1 [[x05; x01]]])
                    init_state))
  = [(new, CSOEconItem, 0%nat)].
Proof. vm_compute. reflexivity. Qed.

(** C3 as stated fails: the first group holds an object that fails to parse
    (type 99 is no [ESOType]), and the object of the group after it is
    applied and emitted all the same. *)
Lemma subscribed_later_group_applied :
  type_fails example.pb_getattr init_state 99
  ∧ ¬ rest_not_processed example.pb_getattr init_state (1, 100) 1
        [mk_subscribed_type 99 [[x01]]] [mk_subscribed_type 1 [[x05; x01]]].
Proof.
  split; [exact I|].
  intros (_ & _ & H). vm_compute in H. discriminate H.
Qed.

(** ** Cache unsubscribed *)

(** Without a Subscription Record for the owner the handler does nothing. *)
Lemma unsubscribed_unknown_owner (set_iter : list Z → list Z)
    (message : CMsgSOCacheUnsubscribed) (s : State) :
  _caches s !! unsub_owner_soid message = None →
  _handle_cache_unsubscribed set_iter message s = Ok tt s.
Proof.
  intros H. unfold _handle_cache_unsubscribed. rewrite bind_apply. unfold gets.
  by rewrite H.
Qed.

(** The handler depends on the iteration order only at the set of the
    Subscription Record of the owner. *)
Lemma unsubscribed_iter_at (set_iter set_iter' : list Z → list Z)
    (message : CMsgSOCacheUnsubscribed) (s : State) (rec : CacheRec) :
  _caches s !! unsub_owner_soid message = Some rec →
  set_iter (type_ids rec) = set_iter' (type_ids rec) →
  _handle_cache_unsubscribed set_iter message s
  = _handle_cache_unsubscribed set_iter' message s.
Proof.
  intros H Heq. unfold _handle_cache_unsubscribed. rewrite !bind_apply. unfold gets.
  by rewrite H, Heq.
Qed.

(** A set of one element is iterated in one way. *)
Lemma set_iter_singleton (set_iter : list Z → list Z) (x : Z) :
  set_iterates set_iter → set_iter [x] = [x].
Proof. intros H. apply Permutation_singleton_r, H. Qed.

(** The order of the examples visits every element once. *)
Lemma example_set_iterates : set_iterates example.set_iter.
Proof. intros l. symmetry. apply Permutation_rev. Qed.

(** C2 at a type without key.  The account object (type 7) arrives in a
    cache-subscribed notification of owner (1, 100); the cache-unsubscribed
    notification of that owner then emits [removed] for it and raises
    [KeyError] at [del self[type_id]], since [self.pop(type_id)] has already
    taken the entry out; the Subscription Record is still there.  The set
    of the record has one element, so this holds whatever the order in
    which sets are iterated. *)
Theorem unsubscribed_singleton_raises (set_iter : list Z → list Z) :
  set_iterates set_iter →
  ∃ s1 s2,
    _handle_cache_subscribed example.pb_getattr
      (mk_subscribed (1, 100) 1 [mk_subscribed_type 7 [[x03]]]) init_state = Ok tt s1
    ∧ socache s1 !! 7 = Some (EObj 0%nat)
    ∧ _handle_cache_unsubscribed set_iter (mk_unsubscribed (1, 100)) s1 = Raise KeyError s2
    ∧ emitted s2 = [(new, CSOEconGameAccountClient, 0%nat);
                    (removed, CSOEconGameAccountClient, 0%nat)]
    ∧ socache s2 !! 7 = None
    ∧ _caches s2 !! (1, 100) = Some (mk_CacheRec 1 [7]).
Proof.
  intros Hiter. pose proof (set_iter_singleton set_iter 7 Hiter) as H7.
  eexists _, _. split; [vm_compute; reflexivity|].
  split; [vm_compute; reflexivity|].
  split.
  - rewrite (unsubscribed_iter_at set_iter (λ l, l) _ _ (mk_CacheRec 1 [7]));
      [vm_compute; reflexivity|vm_compute; reflexivity|exact H7].
  - repeat split; vm_compute; reflexivity.
Qed.

Lemma unsubscribed_singleton_raises_witness :
  ∃ s1 s2,
    _handle_cache_subscribed example.pb_getattr
      (mk_subscribed (1, 100) 1 [mk_subscribed_type 7 [[x03]]]) init_state = Ok tt s1
    ∧ socache s1 !! 7 = Some (EObj 0%nat)
    ∧ _handle_cache_unsubscribed example.set_iter (mk_unsubscribed (1, 100)) s1
      = Raise KeyError s2
    ∧ emitted s2 = [(new, CSOEconGameAccountClient, 0%nat);
                    (removed, CSOEconGameAccountClient, 0%nat)]
    ∧ socache s2 !! 7 = None
    ∧ _caches s2 !! (1, 100) = Some (mk_CacheRec 1 [7]).
Proof. apply (unsubscribed_singleton_raises example.set_iter), example_set_iterates. Defined.

(** The same two notifications for a keyed type complete: the item is
    evicted with a [removed] event, its container and the Subscription
    Record are deleted. *)
Example unsubscribed_keyed_completes :
  ∃ s1 s2,
    _handle_cache_subscribed example.pb_getattr
      (mk_subscribed (1, 100) 1 [mk_subscribed_type 1 [[x05; x01]]]) init_state = Ok tt s1
    ∧ _handle_cache_unsubscribed example.set_iter (mk_unsubscribed (1, 100)) s1 = Ok tt s2
    ∧ emitted s2 = [(new, CSOEconItem, 0%nat); (removed, CSOEconItem, 0%nat)]
    ∧ socache s2 !! 1 = None
    ∧ _caches s2 !! (1, 100) = None.
Proof.
  eexists _, _. split; [vm_compute; reflexivity|].
  split; [vm_compute; reflexivity|].
  repeat split; vm_compute; reflexivity.
Qed.

End sharedobjects_facts.

Module client_facts.
Import common_enums pymonad client pymonad_facts.

(** ** Job ids *)

Lemma next_jobid_range (cur : Z) : 1 <= next_jobid cur <= 9999.
Proof.
  unfold next_jobid. pose proof (Z.mod_pos_bound (cur + 1) 10000 eq_refl).
  destruct (decide _); lia.
Qed.

Lemma next_jobid_step (cur : Z) :
  1 <= cur <= 9999 → next_jobid cur = if decide (cur = 9999) then 1 else cur + 1.
Proof.
  intros Hcur. unfold next_jobid. destruct (decide (cur = 9999)) as [->|Hne].
  - reflexivity.
  - rewrite Z.mod_small by lia. destruct (decide _); lia.
Qed.

Section jobs.
Variable env : Env.

Lemma send_run (emsg : Z) (data : DataArg) (proto : ProtoArg) (jobid : option Z) (c : Client) :
  current_jobid (final (_send env emsg data proto jobid c)) = current_jobid c.
Proof.
  unfold _send. destruct data; try done.
  - destruct proto as [|[] fill|]; mrun; try done.
    + destruct (find_proto env emsg); [|done]. by destruct (fill_from_dict env emsg ∅).
    + by destruct (fill ∅).
  - destruct proto as [|[] fill|]; mrun; try done.
    + destruct (find_proto env emsg); [|done]. by destruct (fill_from_dict env emsg d).
    + by destruct (fill d).
Qed.

Lemma send_job_counter (emsg : Z) (data : DataArg) (proto : ProtoArg) (c : Client) :
  current_jobid (final (send_job env emsg data proto c)) = next_jobid (current_jobid c).
Proof.
  unfold send_job. mrun.
  set (c1 := set_listeners _ _).
  pose proof (send_run emsg data proto (Some (next_jobid (current_jobid c))) c1) as H.
  change (current_jobid (set_current_jobid (next_jobid (current_jobid c)) c))
    with (next_jobid (current_jobid c)).
  destruct (_send env emsg data proto _ c1); simpl in *; exact H.
Qed.

(** A call that returns gives the key of the id it allocated. *)
Lemma send_job_returns (emsg : Z) (data : DataArg) (proto : ProtoArg) (c c' : Client) key :
  send_job env emsg data proto c = Ok key c' → key = job_key (current_jobid c').
Proof.
  intros H. pose proof (send_job_counter emsg data proto c) as Hc. rewrite H in Hc.
  simpl in Hc. rewrite Hc. revert H. unfold send_job. mrun.
  destruct (_send env emsg data proto _ _); [|done]. by intros [= <- _].
Qed.

(** C6.  Whatever the counter holds at the start, every id that [send_job]
    allocates lies in 1..9999 (so it is never 0), and the id after [a] is
    [a + 1], except after 9999 where it is 1: the sequence of ids grows by
    one at each step and wraps from 9999 to 1. *)
Theorem job_ids_cyclic (calls : list (Z * DataArg * ProtoArg)) (c : Client) :
  Forall (λ i, 1 <= i <= 9999) (job_ids env calls c)
  ∧ ∀ (k : nat) (a b : Z),
      job_ids env calls c !! k = Some a →
      job_ids env calls c !! S k = Some b →
      b = (if decide (a = 9999) then 1 else a + 1) ∧ (a < b ∨ (a = 9999 ∧ b = 1)).
Proof.
  revert c. induction calls as [|[[emsg data] proto] calls IH]; intros c.
  - split; [constructor|]. by intros k a b [=].
  - cbn [job_ids]. rewrite send_job_counter.
    set (c' := final (send_job env emsg data proto c)).
    destruct (IH c') as [Hall Hstep]. split.
    + constructor; [apply next_jobid_range|exact Hall].
    + intros [|k] a b Ha Hb.
      * simpl in Ha. injection Ha as <-.
        destruct calls as [|[[emsg' data'] proto'] calls']; [done|].
        cbn [job_ids] in Hb. simpl in Hb. injection Hb as <-.
        rewrite send_job_counter. unfold c'. rewrite send_job_counter.
        pose proof (next_jobid_range (current_jobid c)) as Hr.
        rewrite (next_jobid_step _ Hr). destruct (decide _); lia.
      * simpl in Ha, Hb. by apply (Hstep k).
Qed.

End jobs.

(** ** Connection status *)

Section status.
Variable env : Env.

Lemma set_status_invalid (status : Z) (c : Client) :
  is_GCConnectionStatus env status = false →
  _set_connection_status env status c = Raise ValueError c.
Proof. intros H. unfold _set_connection_status. mrun. by rewrite H. Qed.

(** The write of a status other than [HAVE_SESSION] while ready. *)
Lemma not_ready_edge (status : Z) (c : Client) :
  ready c = true →
  is_GCConnectionStatus env status = true →
  status ≠ HAVE_SESSION env →
  ∃ c',
    _set_connection_status env status c = Ok tt c'
    ∧ ready c' = false
    ∧ connection_status c' = status
    ∧ published c' = published c ++ status_changed c status ++ [(KStr EVENT_NOT_READY, PNone)]
    ∧ socache c' = socache c
    ∧ messages c' = messages c
    ∧ pending c' = pending c.
Proof.
  intros Hready Hvalid Hne. unfold _set_connection_status, status_changed. mrun.
  rewrite Hvalid. mrun.
  destruct (decide (status ≠ connection_status c)) as [Hch|Hch].
  - unfold emit_str, spawn. mrun. simpl. mrun. simpl. rewrite Hready.
    rewrite bool_decide_eq_false_2, bool_decide_eq_true_2 by done. simpl. mrun. simpl.
    eexists. split; [done|]. simpl. by rewrite <- app_assoc.
  - mrun. simpl. rewrite Hready.
    rewrite bool_decide_eq_false_2, bool_decide_eq_true_2 by done. simpl.
    unfold emit_str, spawn. mrun. simpl.
    eexists. split; [done|]. simpl. done.
Qed.

(** The write of [HAVE_SESSION] while not ready: the greenlet of the cleanup
    is spawned, the cache is as it was. *)
Lemma ready_edge (c : Client) :
  ready c = false →
  is_GCConnectionStatus env (HAVE_SESSION env) = true →
  ∃ c',
    _set_connection_status env (HAVE_SESSION env) c = Ok tt c'
    ∧ ready c' = true
    ∧ connection_status c' = HAVE_SESSION env
    ∧ published c'
      = published c ++ status_changed c (HAVE_SESSION env) ++ [(KStr EVENT_READY, PNone)]
    ∧ socache c' = socache c
    ∧ messages c' = messages c
    ∧ pending c' = pending c ++ [RunCleanup].
Proof.
  intros Hready Hvalid. unfold _set_connection_status, status_changed. mrun.
  rewrite Hvalid. mrun.
  destruct (decide (HAVE_SESSION env ≠ connection_status c)) as [Hch|Hch].
  - unfold emit_str, spawn. mrun. simpl. mrun. simpl. rewrite Hready.
    rewrite bool_decide_eq_true_2 by done. simpl. mrun. simpl.
    eexists. split; [done|]. simpl. by rewrite <- app_assoc.
  - mrun. simpl. rewrite Hready.
    rewrite bool_decide_eq_true_2 by done. simpl.
    unfold emit_str, spawn. mrun. simpl.
    eexists. split; [done|]. simpl. done.
Qed.

(** ** What a greenlet may do *)

Lemma quiet_refl (c : Client) : quiet c c.
Proof. split; [done|]. exists []. by rewrite app_nil_r. Qed.

Lemma quiet_trans (c1 c2 c3 : Client) : quiet c1 c2 → quiet c2 c3 → quiet c1 c3.
Proof.
  intros [Hm1 (evs1 & Hp1 & Hf1)] [Hm2 (evs2 & Hp2 & Hf2)].
  split; [congruence|]. exists (evs1 ++ evs2).
  split; [by rewrite Hp2, Hp1, app_assoc|by apply Forall_app].
Qed.

Lemma continues_refl (c : Client) : continues c c.
Proof. split; [apply quiet_refl|]. exists []. by rewrite app_nil_r. Qed.

Lemma continues_same (c c' : Client) :
  messages c' = messages c → published c' = published c → pending c' = pending c →
  continues c c'.
Proof.
  intros Hm Hp Hq. split; [split; [done|]|]; exists []; by rewrite app_nil_r.
Qed.

Lemma continues_trans (c1 c2 c3 : Client) :
  continues c1 c2 → continues c2 c3 → continues c1 c3.
Proof.
  intros [Hq1 (ts1 & Hp1)] [Hq2 (ts2 & Hp2)].
  split; [by eapply quiet_trans|]. exists (ts1 ++ ts2). by rewrite Hp2, Hp1, app_assoc.
Qed.

Lemma on_socache_continues {A} (m : sharedobjects.M A) (c : Client) :
  continues c (final (on_socache m c)).
Proof. unfold on_socache. by destruct (m (socache c)); apply continues_same. Qed.

(** The strings under which the listeners emit are no job keys. *)
Lemma fixed_key (s : string) :
  (∀ r, s ≠ "job_" +:+ r) → ¬ is_job_key (KStr s).
Proof. intros H [n [= Hn]]. by apply (H (pretty n)). Qed.

Lemma emit_str_continues (key : string) (arg : Payload) (c : Client) :
  ¬ is_job_key (KStr key) → continues c (final (emit_str key arg c)).
Proof.
  intros Hkey. unfold emit_str, spawn. mrun.
  destruct (String.eqb key EVENT_READY); simpl.
  - split; [split; [done|]|]; [exists [(KStr key, arg)]|by exists [RunCleanup]].
    split; [done|]. by constructor.
  - split; [split; [done|]|]; [exists [(KStr key, arg)]|exists []; by rewrite app_nil_r].
    split; [done|]. by constructor.
Qed.

Lemma bind_continues {A B} (m : M A) (f : A → M B) (c : Client) :
  continues c (final (m c)) →
  (∀ a c', continues c' (final (f a c'))) →
  continues c (final ((m ≫= f) c)).
Proof.
  intros Hm Hf. rewrite bind_apply. destruct (m c) as [a c'|e c']; [|done].
  eapply continues_trans; [exact Hm|apply Hf].
Qed.

Lemma set_status_continues (status : Z) (c : Client) :
  continues c (final (_set_connection_status env status c)).
Proof.
  unfold _set_connection_status.
  apply bind_continues; [apply continues_refl|]. intros prev c1.
  apply bind_continues; [destruct (is_GCConnectionStatus env status); apply continues_refl|].
  intros _ c2. apply bind_continues; [by apply continues_same|]. intros _ c3.
  apply bind_continues.
  { destruct (decide _); [|apply continues_refl].
    apply emit_str_continues, fixed_key. by intros r [=]. }
  intros _ c4. apply bind_continues; [apply continues_refl|]. intros r c5.
  destruct (_ && _).
  - apply bind_continues; [by apply continues_same|]. intros _ c6.
    apply emit_str_continues, fixed_key. by intros r' [=].
  - destruct (_ && _); [|apply continues_refl].
    apply bind_continues; [by apply continues_same|]. intros _ c6.
    apply emit_str_continues, fixed_key. by intros r' [=].
Qed.

Lemma run_listener_continues (l : Listener) (ref : nat) (message : GCMessage) (c : Client) :
  continues c (final (run_listener env l ref message c)).
Proof.
  destruct l; cbn [run_listener]; unfold so_single;
    try (destruct message; try apply on_socache_continues; apply continues_refl).
  - apply emit_str_continues, fixed_key. by intros r [=].
  - unfold __handle_match_list. destruct message; try apply continues_refl.
    destruct (fields !! _); [|apply continues_refl].
    repeat (destruct (decide _);
            [apply emit_str_continues, fixed_key; by intros r [=]|]).
    apply continues_refl.
  - apply emit_str_continues, fixed_key. by intros r [=].
  - unfold _handle_conn_status. destruct message; try apply continues_refl.
    apply set_status_continues.
  - unfold _handle_client_welcome. destruct message; try apply continues_refl.
    apply bind_continues; [apply set_status_continues|]. intros _ c'.
    destruct (parse_CStrike15Welcome env _); [|apply continues_refl].
    apply emit_str_continues, fixed_key. by intros r [=].
Qed.

Lemma exec_task_continues (t : Task) (c : Client) :
  continues c (final (exec_task env t c)).
Proof.
  destruct t; [apply on_socache_continues|apply run_listener_continues].
Qed.

(** A greenlet adds no message object and publishes on no job channel. *)
Lemma step_quiet (c : Client) : quiet c (step env c).
Proof.
  unfold step. destruct (pending c) as [|t q]; [apply quiet_refl|].
  apply (exec_task_continues t (set_pending (λ _, q) c)).
Qed.

Lemma steps_quiet (n : nat) (c : Client) : quiet c (steps env n c).
Proof.
  revert c. induction n as [|n IH]; intros c; [apply quiet_refl|].
  eapply quiet_trans; [apply step_quiet|apply IH].
Qed.

Lemma steps_succ (n : nat) (c : Client) : steps env (S n) c = step env (steps env n c).
Proof. revert c. induction n as [|n IH]; intros c; [done|]. apply (IH (step env c)). Qed.

(** The greenlets start in the order in which they were spawned. *)
Lemma steps_reach (ts : list Task) (t : Task) (rest : list Task) (c : Client) :
  pending c = ts ++ t :: rest →
  ∃ more, pending (steps env (length ts) c) = t :: rest ++ more.
Proof.
  revert rest c. induction ts as [|t0 ts IH]; intros rest c Hp.
  - exists []. by rewrite app_nil_r.
  - cbn [length steps]. unfold step. rewrite Hp. cbn [app].
    destruct (exec_task_continues t0 (set_pending (λ _, ts ++ t :: rest) c))
      as [_ (more & Hmore)].
    cbn [pending set_pending] in Hmore. rewrite <- app_assoc in Hmore. cbn [app] in Hmore.
    destruct (IH _ _ Hmore) as (more' & Hp'). exists (more ++ more').
    by rewrite Hp', <- app_assoc.
Qed.

(** Once the greenlet of the cleanup has run, the cache holds nothing. *)
Lemma cleanup_runs (ts rest : list Task) (c : Client) :
  pending c = ts ++ RunCleanup :: rest →
  cleared (steps env (S (length ts)) c).
Proof.
  intros Hp. destruct (steps_reach ts RunCleanup rest c Hp) as (more & Hq).
  rewrite steps_succ. unfold step. rewrite Hq. done.
Qed.


(** C5, amended.  A status write that takes the client from ready to
    not-ready emits the not-ready event once, after the
    connection-status event if the status changed, spawns no greenlet and
    leaves the cache as it is.  The write of [HAVE_SESSION] that follows
    leaves the cache as it is as well and spawns the greenlet of the
    cleanup, the listener of the ready event; the cache is cleared once the
    greenlets spawned up to that one have run. *)
Theorem not_ready_event_once (status : Z) (c : Client) :
  ready c = true →
  is_GCConnectionStatus env status = true →
  status ≠ HAVE_SESSION env →
  ∃ c',
    _set_connection_status env status c = Ok tt c'
    ∧ ready c' = false
    ∧ published c' = published c ++ status_changed c status ++ [(KStr EVENT_NOT_READY, PNone)]
    ∧ socache c' = socache c
    ∧ pending c' = pending c
    ∧ (is_GCConnectionStatus env (HAVE_SESSION env) = true →
       let c'' := final (_set_connection_status env (HAVE_SESSION env) c') in
       socache c'' = socache c
       ∧ pending c'' = pending c ++ [RunCleanup]
       ∧ cleared (steps env (S (length (pending c))) c'')).
Proof.
  intros Hready Hvalid Hne.
  destruct (not_ready_edge status c Hready Hvalid Hne)
    as (c' & Hrun & Hr & _ & Hpub & Hcache & _ & Hpend).
  exists c'. repeat (split; [done|]). intros Hhave.
  destruct (ready_edge c' Hr Hhave) as (c'' & Hrun' & _ & _ & _ & Hcache' & _ & Hpend').
  rewrite Hrun'. cbn [final]. rewrite Hpend in Hpend'.
  split; [congruence|]. split; [done|]. by apply (cleanup_runs _ []).
Qed.

(** ** The session cycle *)




End status.

(** C5 as stated fails: the client is ready and its cache holds an item;
    the write of [NO_SESSION] emits the not-ready event and the item is
    still in the cache. *)
Lemma not_ready_keeps_cache :
  ready example.ready_client = true
  ∧ ¬ status_write_clears example.env example.ready_client 2.
Proof.
  split; [reflexivity|].
  intros [H _]. apply (f_equal (λ m, m !! 1)) in H. vm_compute in H. discriminate H.
Qed.

(** The not-ready edge at that client. *)
Lemma not_ready_event_once_witness :
  ∃ c',
    _set_connection_status example.env 2 example.ready_client = Ok tt c'
    ∧ ready c' = false
    ∧ published c'
      = published example.ready_client ++ status_changed example.ready_client 2
          ++ [(KStr EVENT_NOT_READY, PNone)]
    ∧ socache c' = socache example.ready_client
    ∧ pending c' = pending example.ready_client
    ∧ (is_GCConnectionStatus example.env (HAVE_SESSION example.env) = true →
       let c'' := final (_set_connection_status example.env
                           (HAVE_SESSION example.env) c') in
       socache c'' = socache example.ready_client
       ∧ pending c'' = pending example.ready_client ++ [RunCleanup]
       ∧ cleared (steps example.env (S (length (pending example.ready_client))) c'')).
Proof.
  apply (not_ready_event_once example.env 2 example.ready_client);
    [reflexivity | reflexivity | discriminate].
Defined.



(** The two items of that cycle are stored when the write of
    [HAVE_SESSION] returns, and gone after the greenlet of the cleanup. *)
Example session_cycle_items :
  let c1 := run example.env
              [StatusWrite 2;
               CacheActivity (sharedobjects._handle_create example.pb_getattr
                                (sharedobjects.mk_single 1 [Byte.x07; Byte.x01]));
               StatusWrite 3] example.ready_client in
  let c2 := act example.env (StatusWrite (HAVE_SESSION example.env)) c1 in
  sharedobjects.dict_keys (sharedobjects.dict_of (sharedobjects.socache (socache c2) !! 1))
  = [sharedobjects.KVal 5; sharedobjects.KVal 7]
  ∧ pending c2 = [RunCleanup]
  ∧ sharedobjects.socache (socache (step example.env c2)) = ∅.
Proof. repeat split; vm_compute; reflexivity. Qed.

(** ** Routing of inbound messages *)

Section routing.
Variable env : Env.

Lemma job_key_not_ready (n : Z) : String.eqb (job_key n) EVENT_READY = false.
Proof. apply String.eqb_neq. unfold job_key. by intros [=]. Qed.

(** C7.  An inbound message whose type resolves to a class and whose
    payload decodes is stored as one message object [ref] and published
    under the key of its type; when the target job id of the header is the
    sentinel 2^64-1 nothing else is published, otherwise it is published
    once more, under the key of the job id as it stands in the header, with
    the same reference.  The listeners of the type are spawned as
    greenlets; whatever greenlets run afterwards, they add no message
    object and publish on no job channel. *)
Theorem process_gc_message_routes (emsg : Z) (header : Header) (payload : list Byte.byte)
    (parse : list Byte.byte → option GCMessage) (message : GCMessage) (c : Client) :
  find_proto env (get_emsg_enum env emsg) = Some parse →
  parse payload = Some message →
  let ref := length (messages c) in
  let on_type := (KEnum (get_emsg_enum env emsg), PMessage ref) in
  let on_job := (KStr (job_key (job_id_target header)), PMessage ref) in
  ∃ c',
    _process_gc_message env emsg header payload c = Ok tt c'
    ∧ messages c' = messages c ++ [message]
    ∧ published c'
      = published c ++ on_type
          :: (if decide (job_id_target header = 2 ^ 64 - 1) then [] else [on_job])
    ∧ pending c' = pending c ++ message_tasks env (get_emsg_enum env emsg) ref message
    ∧ ∀ n, ∃ evs,
        messages (steps env n c') = messages c'
        ∧ published (steps env n c') = published c' ++ evs
        ∧ Forall (λ ev, ¬ is_job_key ev.1) evs.
Proof.
  intros Hfind Hparse ref on_type on_job.
  assert (∀ c', ∀ n, ∃ evs,
            messages (steps env n c') = messages c'
            ∧ published (steps env n c') = published c' ++ evs
            ∧ Forall (λ ev, ¬ is_job_key ev.1) evs) as Hlater.
  { intros c' n. destruct (steps_quiet env n c') as [Hm (evs & Hp & Hevs)]. by exists evs. }
  unfold _process_gc_message. rewrite Hfind, Hparse. unfold emit_message. mrun.
  fold ref. change (2 ^ 64 - 1) with 18446744073709551615.
  destruct (decide (job_id_target header ≠ 18446744073709551615)) as [Hne|Heq].
  - unfold emit_str. mrun. rewrite job_key_not_ready. mrun.
    eexists. split; [done|]. split; [done|]. split.
    { cbn [published set_published set_pending set_messages].
      rewrite decide_False by done. by rewrite <- app_assoc. }
    split; [done|]. apply Hlater.
  - eexists. split; [done|]. split; [done|]. split.
    { cbn [published set_published set_pending set_messages].
      by rewrite decide_True by (by destruct (decide (job_id_target header
                                                       = 18446744073709551615))). }
    split; [done|]. apply Hlater.
Qed.

End routing.

(** An inbound match list with target job id 5. *)
Lemma process_gc_message_routes_witness :
  let header := mk_Header 0 5 in
  let c := init_client example.env in
  let message := OtherMessage {[ "msgrequestid"%string := 9138 ]} in
  let ref := length (messages c) in
  let on_type := (KEnum (get_emsg_enum example.env 9139), PMessage ref) in
  let on_job := (KStr (job_key (job_id_target header)), PMessage ref) in
  ∃ c',
    _process_gc_message example.env 9139 header [Byte.x23; Byte.xb2] c = Ok tt c'
    ∧ messages c' = messages c ++ [message]
    ∧ published c'
      = published c ++ on_type
          :: (if decide (job_id_target header = 2 ^ 64 - 1) then [] else [on_job])
    ∧ pending c'
      = pending c ++ message_tasks example.env (get_emsg_enum example.env 9139) ref message
    ∧ ∀ n, ∃ evs,
        messages (steps example.env n c') = messages c'
        ∧ published (steps example.env n c') = published c' ++ evs
        ∧ Forall (λ ev, ¬ is_job_key ev.1) evs.
Proof.
  apply (process_gc_message_routes example.env 9139 (mk_Header 0 5) [Byte.x23; Byte.xb2]
           (λ payload,
              match payload with
              | [hi; lo] =>
                  Some (OtherMessage
                          {[ "msgrequestid"%string :=
                               256 * Z.of_N (Byte.to_N hi) + Z.of_N (Byte.to_N lo) ]})
              | _ => None
              end)
           (OtherMessage {[ "msgrequestid"%string := 9138 ]}) (init_client example.env));
    reflexivity.
Defined.

(** That match list at its return, and after the greenlet of its listener:
    the listener publishes the message once more, after the job event. *)
Example process_gc_message_job :
  let c' := final (_process_gc_message example.env 9139 (mk_Header 0 70000)
                     [Byte.x23; Byte.xb2] (init_client example.env)) in
  published c' = [(KEnum 9139, PMessage 0%nat); (KStr "job_70000", PMessage 0%nat)]
  ∧ pending c'
    = [RunListener match_handle_match_list 0
         (OtherMessage {[ "msgrequestid"%string := 9138 ]})]
  ∧ published (step example.env c')
    = [(KEnum 9139, PMessage 0%nat); (KStr "job_70000", PMessage 0%nat);
       (KStr "current_live_games", PMessage 0%nat)].
Proof. repeat split; vm_compute; reflexivity. Qed.

Example process_gc_message_sentinel :
  published (final (_process_gc_message example.env 9999
                      (mk_Header 0 18446744073709551615) [] (init_client example.env)))
  = [(KEnum 9999, PMessage 0%nat)].
Proof. vm_compute. reflexivity. Qed.

Example job_ids_wrap :
  job_ids example.env [(9999, DataNone, ProtoNone); (9999, DataNone, ProtoNone);
                       (1, DataNone, ProtoNone)]
          (set_current_jobid 9998 (init_client example.env))
  = [9999; 1; 2].
Proof. vm_compute. reflexivity. Qed.

End client_facts.

(** * The shape of the reachable states *)
Module reachable_facts.
Import common_enums pymonad sharedobjects pymonad_facts common_enums_facts.
Import sharedobjects_facts.

Section invariant.
Variable pb_getattr : PbModule → string → option Proto.
Variable set_iter : list Z → list Z.
Hypothesis distinct : descriptors_distinct pb_getattr.

Lemma evolves_refl (s : State) : evolves pb_getattr s s.
Proof. by split. Qed.

Lemma evolves_trans (s1 s2 s3 : State) :
  evolves pb_getattr s1 s2 → evolves pb_getattr s2 s3 → evolves pb_getattr s1 s3.
Proof.
  intros [Hh1 Hk1] [Hh2 Hk2]. split; [by auto|].
  intros t p Hp. by rewrite (Hk2 t p Hp), (Hk1 t p Hp).
Qed.

Lemma sub_entry_refl (e : option Entry) : sub_entry e e.
Proof. destruct e as [[l|d]|]; simpl; [done| |done]. right. by exists d. Qed.

Lemma sub_entry_trans (e1 e2 e3 : option Entry) :
  sub_entry e1 e2 → sub_entry e2 e3 → sub_entry e1 e3.
Proof.
  destruct e3 as [[l|d3]|]; simpl; [by intros H ->| |done].
  intros H12 [->|(d2 & -> & H23)]; [by left|].
  simpl in H12. destruct H12 as [->|(d1 & -> & H12)].
  - left. destruct (H23 (NoDup_nil_2 (A:=Key))) as [_ Hget23].
    destruct d3 as [|[k l] d3]; [done|].
    specialize (Hget23 k l). simpl in Hget23. rewrite decide_True in Hget23 by done.
    by specialize (Hget23 eq_refl).
  - right. exists d1. split; [done|]. intros Hnd1.
    destruct (H12 Hnd1) as [Hnd2 Hget12]. destruct (H23 Hnd2) as [Hnd3 Hget23].
    split; [done|by auto].
Qed.

Lemma shrinks_refl (X : Z → Prop) (s : State) : shrinks_except pb_getattr X s s.
Proof. split; [apply evolves_refl|]. intros tz _. apply sub_entry_refl. Qed.

Lemma shrinks_trans (X : Z → Prop) (s1 s2 s3 : State) :
  shrinks_except pb_getattr X s1 s2 → shrinks_except pb_getattr X s2 s3 →
  shrinks_except pb_getattr X s1 s3.
Proof.
  intros [He1 Hs1] [He2 Hs2]. split; [by eapply evolves_trans|].
  intros tz Htz. eapply sub_entry_trans; [by apply Hs1|by apply Hs2].
Qed.

Lemma shrinks_weaken (X X' : Z → Prop) (s s' : State) :
  (∀ tz, X tz → X' tz) → shrinks_except pb_getattr X s s' →
  shrinks_except pb_getattr X' s s'.
Proof. intros HX [He Hs]. split; [done|]. intros tz Htz. apply Hs. auto. Qed.

(** A state that differs in the emitted events or the Subscription Records
    only. *)
Lemma shrinks_same (X : Z → Prop) (s s' : State) :
  socache s' = socache s → heap s' = heap s → so_key_fields s' = so_key_fields s →
  shrinks_except pb_getattr X s s'.
Proof.
  intros Hc Hh Hk. split; [split|].
  - intros desc l. unfold holds. by rewrite Hh.
  - intros t p _. by rewrite Hk.
  - intros tz _. rewrite Hc. apply sub_entry_refl.
Qed.

Lemma bind_shrinks {A B} (X : Z → Prop) (m : M A) (f : A → M B) (s : State) :
  shrinks_except pb_getattr X s (final (m s)) →
  (∀ a s', m s = Ok a s' → shrinks_except pb_getattr X s' (final (f a s'))) →
  shrinks_except pb_getattr X s (final ((m ≫= f) s)).
Proof.
  intros Hm Hf. rewrite bind_apply. destruct (m s) as [a s'|e s'] eqn:Hms; [|done].
  eapply shrinks_trans; [exact Hm|by apply Hf].
Qed.

Lemma for_shrinks {A} (X : Z → Prop) (l : list A) (body : A → M LoopCtl) (s : State) :
  (∀ x s0, shrinks_except pb_getattr X s0 (final (body x s0))) →
  shrinks_except pb_getattr X s (final (for_ l body s)).
Proof.
  intros Hbody. revert s. induction l as [|x l IH]; intros s; [apply shrinks_refl|].
  cbn [for_]. apply bind_shrinks; [apply Hbody|].
  intros [] s' _; [apply IH|apply shrinks_refl].
Qed.

(** ** The statements that only remove content *)

Lemma emit_shrinks (X : Z → Prop) ev t l (s : State) :
  shrinks_except pb_getattr X s (final (emit ev t l s)).
Proof. by apply shrinks_same. Qed.

Lemma insert_empty_shrinks (X : Z → Prop) (x : Z) (s : State) :
  shrinks_except pb_getattr X s (set_socache <[x := EDict []]> s).
Proof.
  split; [by split|]. intros tz _. simpl.
  destruct (decide (x = tz)) as [->|Hne].
  - rewrite lookup_insert_eq. by left.
  - rewrite lookup_insert_ne by done. apply sub_entry_refl.
Qed.

Lemma getitem_shrinks (X : Z → Prop) (x : Z) (s : State) :
  shrinks_except pb_getattr X s (final (__getitem__ x s)).
Proof.
  unfold __getitem__. destruct (ESOType_of x) as [t|] eqn:Ht; [|apply shrinks_refl].
  rewrite (ESOType_of_Some x t Ht). mrun.
  destruct (socache s !! x); [apply shrinks_refl|apply insert_empty_shrinks].
Qed.

Lemma delete_shrinks (X : Z → Prop) (x : Z) (s : State) :
  shrinks_except pb_getattr X s (set_socache (delete x) s).
Proof.
  split; [by split|]. intros tz _. simpl.
  destruct (decide (x = tz)) as [->|Hne].
  - by rewrite lookup_delete_eq.
  - rewrite lookup_delete_ne by done. apply sub_entry_refl.
Qed.

Lemma pop_default_shrinks (X : Z → Prop) (t : ESOType) (s : State) :
  shrinks_except pb_getattr X s (final (pop_default t s)).
Proof. unfold pop_default. mrun. apply delete_shrinks. Qed.

Lemma pop_shrinks (X : Z → Prop) (t : ESOType) (s : State) :
  shrinks_except pb_getattr X s (final (pop t s)).
Proof.
  unfold pop. mrun. destruct (socache s !! value t); [|apply shrinks_refl].
  mrun. apply delete_shrinks.
Qed.

Lemma delitem_shrinks (X : Z → Prop) (t : ESOType) (s : State) :
  shrinks_except pb_getattr X s (final (__delitem__ t s)).
Proof.
  unfold __delitem__. mrun. destruct (socache s !! value t); [|apply shrinks_refl].
  apply delete_shrinks.
Qed.

Lemma dict_del_get (k k0 : Key) (l : loc) (d : pydict) :
  NoDup (dict_keys d) → dict_get k0 (dict_del k d) = Some l → dict_get k0 d = Some l.
Proof.
  unfold dict_keys. induction d as [|[k' v'] d IH]; simpl; [done|].
  rewrite NoDup_cons. intros [Hnot Hnd].
  destruct (decide (k' = k)) as [->|Hne].
  - intros Hget. destruct (decide (k = k0)) as [->|]; [|done].
    assert (dict_get k0 d = None) as Hnone by (by apply dict_get_None).
    congruence.
  - simpl. destruct (decide (k' = k0)); [done|]. by apply IH.
Qed.

Lemma dict_del_keys (k : Key) (d : pydict) :
  NoDup (dict_keys d) → NoDup (dict_keys (dict_del k d)).
Proof.
  unfold dict_keys. induction d as [|[k' v'] d IH]; simpl; [done|].
  rewrite NoDup_cons. intros [Hnot Hnd].
  destruct (decide (k' = k)) as [->|Hne]; [done|].
  simpl. apply NoDup_cons. split; [|by apply IH].
  intros Hin. apply Hnot. apply list_elem_of_fmap in Hin as ([k1 l1] & -> & Hin).
  simpl. assert (dict_get k1 d ≠ None) as Hk1.
  { destruct (dict_get k1 (dict_del k d)) as [l2|] eqn:Hget.
    - by rewrite (dict_del_get k k1 l2 d Hnd Hget).
    - apply dict_get_None in Hget. destruct Hget. unfold dict_keys.
      apply list_elem_of_fmap. by exists (k1, l1). }
  destruct (decide (k1 ∈ d.*1)) as [|Hn]; [done|]. by apply dict_get_None in Hn.
Qed.

Lemma setitem_del_shrinks (X : Z → Prop) (t : ESOType) (d : pydict) (k : Key) (s : State) :
  socache s !! value t = Some (EDict d) →
  shrinks_except pb_getattr X s (final (__setitem__ t (EDict (dict_del k d)) s)).
Proof.
  intros He. split; [by split|]. intros tz _. simpl.
  destruct (decide (value t = tz)) as [<-|Hne].
  - rewrite lookup_insert_eq, He. right. exists d. split; [done|].
    intros Hnd. split; [by apply dict_del_keys|]. intros k0 l. by apply dict_del_get.
  - rewrite lookup_insert_ne by done. apply sub_entry_refl.
Qed.

Lemma setitem_except (X : Z → Prop) (t : ESOType) (e : Entry) (s : State) :
  X (value t) → shrinks_except pb_getattr X s (final (__setitem__ t e s)).
Proof.
  intros HX. split; [by split|]. intros tz Htz. simpl.
  rewrite lookup_insert_ne; [apply sub_entry_refl|]. by intros <-.
Qed.

Lemma alloc_shrinks (X : Z → Prop) (o : Obj) (s : State) :
  shrinks_except pb_getattr X s (final (alloc o s)).
Proof.
  unfold alloc. mrun. split; [split; [|done]|intros tz _; apply sub_entry_refl].
  intros desc l (d & Hd & Hid). exists d. split; [|done]. simpl.
  by apply lookup_app_l_Some.
Qed.

Lemma CopyFrom_shrinks (X : Z → Prop) (dst src : loc) (s : State) :
  shrinks_except pb_getattr X s (final (CopyFrom dst src s)).
Proof.
  unfold CopyFrom. mrun.
  destruct (heap s !! dst) as [d|] eqn:Hd; [|apply shrinks_refl].
  destruct (heap s !! src) as [o|]; [|apply shrinks_refl].
  destruct (decide _); [|apply shrinks_refl].
  split; [split; [|done]|intros tz _; apply sub_entry_refl].
  intros desc l (d0 & Hd0 & Hid0). unfold holds. simpl.
  destruct (decide (dst = l)) as [->|Hne].
  - exists (mk_Obj (obj_desc d) (obj_fields o)).
    split; [apply list_lookup_insert_eq; by eapply lookup_lt_Some|].
    simpl. congruence.
  - exists d0. by rewrite list_lookup_insert_ne.
Qed.

Lemma memoised_other (t0 t : ESOType) (p0 p : Proto) tbl :
  find_so_proto pb_getattr t0 = Some p0 →
  find_so_proto pb_getattr t = Some p →
  key_fields_in (memoised (DESCRIPTOR p0) tbl) (DESCRIPTOR p)
  = key_fields_in tbl (DESCRIPTOR p).
Proof.
  intros Hp0 Hp.
  destruct (decide (desc_id (DESCRIPTOR p0) = desc_id (DESCRIPTOR p))) as [Heq|Hne].
  - rewrite (distinct t0 t p0 p Hp0 Hp Heq). apply key_fields_in_memoised.
  - unfold memoised, key_fields_in.
    destruct (tbl !! desc_id (DESCRIPTOR p0)); [done|]. by rewrite lookup_insert_ne.
Qed.

Lemma get_so_key_fields_shrinks (X : Z → Prop) (t0 : ESOType) (p0 : Proto) (s : State) :
  find_so_proto pb_getattr t0 = Some p0 →
  shrinks_except pb_getattr X s (final (get_so_key_fields (DESCRIPTOR p0) s)).
Proof.
  intros Hp0. rewrite get_so_key_fields_run.
  split; [split; [done|]|intros tz _; apply sub_entry_refl].
  intros t p Hp. simpl. by apply (memoised_other t0 t).
Qed.

Lemma parse_shrinks (X : Z → Prop) (tid : Z) data (s : State) :
  shrinks_except pb_getattr X s (final (_parse_object_data pb_getattr tid data s)).
Proof.
  unfold _parse_object_data, _get_proto_for_type.
  destruct (ESOType_of tid) as [t|]; [|apply shrinks_refl].
  apply bind_shrinks; [apply shrinks_refl|]. intros proto s0 [= <- <-].
  destruct (find_so_proto pb_getattr t) as [p|] eqn:Hp; [|apply shrinks_refl].
  apply bind_shrinks; [by apply (get_so_key_fields_shrinks X t)|]. intros fields s1 _.
  destruct (negb _); [apply shrinks_refl|].
  destruct (FromString p data) as [c|]; [|apply shrinks_refl].
  apply bind_shrinks; [apply alloc_shrinks|]. intros obj s2 _.
  apply bind_shrinks; [|intros; apply shrinks_refl].
  unfold get_key_for_object. simpl.
  apply bind_shrinks; [by apply (get_so_key_fields_shrinks X t)|]. intros k s3 _.
  destruct k as [|[|f [|f' fs]]]; apply shrinks_refl.
Qed.

Lemma cleanup_shrinks (X : Z → Prop) (s : State) :
  shrinks_except pb_getattr X s (final (_handle_cleanup s)).
Proof. split; [by split|]. intros tz _. simpl. by rewrite lookup_empty. Qed.

Lemma destroy_shrinks (X : Z → Prop) (m : CMsgSOSingleObject) (s : State) :
  shrinks_except pb_getattr X s (final (_handle_destroy pb_getattr m s)).
Proof.
  unfold _handle_destroy.
  apply bind_shrinks; [apply parse_shrinks|]. intros [[key obj]|] s1 _; [|apply shrinks_refl].
  unfold ESOType_call. destruct (ESOType_of (type_id m)) as [t|]; [|apply shrinks_refl].
  apply bind_shrinks; [apply shrinks_refl|]. intros t' s2 [= <- <-].
  assert (∀ current s3,
    shrinks_except pb_getattr X s3
      (final (match current with
              | Some (EObj l) => CopyFrom l obj;; emit removed t l
              | Some (EDict (_ :: _)) => raise AttributeError
              | Some (EDict []) | None => emit removed t obj
              end s3))) as Htail.
  { intros [[l|[|? ?]]|] s3; try apply emit_shrinks; [|apply shrinks_refl].
    apply bind_shrinks; [apply CopyFrom_shrinks|]. intros; apply emit_shrinks. }
  assert (∀ s3, shrinks_except pb_getattr X s3
            (final ((e ← __getitem__ (value t);
                     match e with
                     | EDict d =>
                         __setitem__ t (EDict (dict_del key d));;
                         mret (EObj <$> dict_get key d)
                     | EObj _ => raise AttributeError
                     end) s3))) as Hkeyed.
  { intros s3. unfold __getitem__. rewrite ESOType_of_value. mrun.
    destruct (socache s3 !! value t) as [[l|d]|] eqn:He; [apply shrinks_refl|..].
    - mrun. by apply (setitem_del_shrinks X t d key s3).
    - mrun. eapply shrinks_trans; [apply (insert_empty_shrinks X (value t))|].
      apply (setitem_del_shrinks X t [] key). simpl. apply lookup_insert_eq. }
  destruct key; (apply bind_shrinks; [|intros; apply Htail]);
    [apply pop_default_shrinks|apply Hkeyed..].
Qed.

Lemma unsubscribed_shrinks (X : Z → Prop) (m : CMsgSOCacheUnsubscribed) (s : State) :
  shrinks_except pb_getattr X s (final (_handle_cache_unsubscribed set_iter m s)).
Proof.
  unfold _handle_cache_unsubscribed.
  apply bind_shrinks; [apply shrinks_refl|]. intros caches s0 _.
  destruct (caches !! unsub_owner_soid m) as [cache|]; [|apply shrinks_refl].
  apply bind_shrinks; [|intros; by apply shrinks_same].
  apply for_shrinks. intros tz s1.
  apply bind_shrinks; [apply shrinks_refl|]. intros c s2 _.
  destruct (c !! tz); [|apply shrinks_refl].
  unfold ESOType_call. destruct (ESOType_of tz) as [t|]; [|apply shrinks_refl].
  apply bind_shrinks; [apply shrinks_refl|]. intros t' s3 [= <- <-].
  apply bind_shrinks; [apply getitem_shrinks|]. intros field s4 _.
  apply bind_shrinks.
  - destruct field as [l|d].
    + apply bind_shrinks; [apply pop_shrinks|].
      intros [l'|d'] s5 _; [apply emit_shrinks|apply shrinks_refl].
    + apply for_shrinks. intros key s5.
      unfold __getitem__. rewrite ESOType_of_value. mrun.
      destruct (socache s5 !! value t) as [[l|d1]|] eqn:He.
      * apply shrinks_refl.
      * destruct (dict_get key d1); [|apply shrinks_refl]. mrun.
        eapply shrinks_trans; [by apply (setitem_del_shrinks X t d1 key s5)|].
        by apply shrinks_same.
      * mrun. simpl. apply insert_empty_shrinks.
  - intros _ s5 _. apply bind_shrinks; [apply delitem_shrinks|].
    intros; apply shrinks_refl.
Qed.

(** ** Updates *)

(** An update changes the container of its own type id only. *)
Lemma update_object_others (tid : Z) data (s : State) :
  shrinks_except pb_getattr (λ tz, tz = tid) s
    (final (_update_object pb_getattr tid data s)).
Proof.
  unfold _update_object.
  apply bind_shrinks; [apply parse_shrinks|]. intros [[key obj]|] s1 _; [|apply shrinks_refl].
  unfold ESOType_call. destruct (ESOType_of tid) as [t|] eqn:Ht; [|apply shrinks_refl].
  pose proof (ESOType_of_Some tid t Ht) as Hv.
  apply bind_shrinks; [apply shrinks_refl|]. intros t' s2 [= <- <-].
  destruct key;
    repeat first
      [ apply shrinks_refl
      | apply getitem_shrinks
      | apply CopyFrom_shrinks
      | apply setitem_except; exact Hv
      | apply bind_shrinks; [|intros ? ? _]
      | match goal with
        | |- context [match ?x with _ => _ end] => destruct x
        end ].
Qed.

(** ** The invariant *)

Lemma wf_shrinks (s s' : State) :
  shrinks_except pb_getattr (λ _, False) s s' → wf pb_getattr s → wf pb_getattr s'.
Proof.
  intros [[Hholds Hkf] Hsub] Hwf t p Hp. specialize (Hwf t p Hp).
  specialize (Hsub (value t) (λ H, H)). unfold well_shaped in *.
  rewrite (Hkf t p Hp).
  destruct (socache s' !! value t) as [[l|d']|]; simpl in Hsub; [| |done].
  - rewrite Hsub in Hwf. destruct Hwf as [Hk Hl]. split; [done|by apply Hholds].
  - destruct Hsub as [->|(d & He & Hd)].
    + split; [constructor|done].
    + rewrite He in Hwf. destruct Hwf as [Hnd Hwf]. destruct (Hd Hnd) as [Hnd' Hget].
      split; [done|]. intros k l Hkl. destruct (Hwf k l (Hget k l Hkl)) as [Hk Hl].
      split; [done|by apply Hholds].
Qed.

Lemma wf_except (tid : Z) (t : ESOType) (s s' : State) :
  ESOType_of tid = Some t →
  shrinks_except pb_getattr (λ tz, tz = tid) s s' →
  (∀ p, find_so_proto pb_getattr t = Some p → well_shaped s' t (DESCRIPTOR p)) →
  wf pb_getattr s → wf pb_getattr s'.
Proof.
  intros Ht [[Hholds Hkf] Hsub] Hown Hwf t' p Hp.
  destruct (decide (t' = t)) as [->|Hne]; [by apply Hown|].
  specialize (Hwf t' p Hp).
  assert (value t' ≠ tid) as Hv.
  { rewrite <- (ESOType_of_Some tid t Ht). intros Heq. by apply value_inj in Heq. }
  specialize (Hsub (value t') Hv). unfold well_shaped in *.
  rewrite (Hkf t' p Hp).
  destruct (socache s' !! value t') as [[l|d']|]; simpl in Hsub; [| |done].
  - rewrite Hsub in Hwf. destruct Hwf as [Hk Hl]. split; [done|by apply Hholds].
  - destruct Hsub as [->|(d & He & Hd)].
    + split; [constructor|done].
    + rewrite He in Hwf. destruct Hwf as [Hnd Hwf]. destruct (Hd Hnd) as [Hnd' Hget].
      split; [done|]. intros k l Hkl. destruct (Hwf k l (Hget k l Hkl)) as [Hk Hl].
      split; [done|by apply Hholds].
Qed.

Lemma well_shaped_same (t : ESOType) (desc : Descriptor) (s s' : State) :
  socache s' = socache s → heap s' = heap s →
  key_fields_in (so_key_fields s') desc = key_fields_in (so_key_fields s) desc →
  well_shaped s t desc → well_shaped s' t desc.
Proof. unfold well_shaped, holds. by intros -> -> ->. Qed.

Lemma update_object_wf (tid : Z) data (s : State) :
  wf pb_getattr s → wf pb_getattr (final (_update_object pb_getattr tid data s)).
Proof.
  intros Hwf. pose proof (update_object_others tid data s) as Hothers.
  destruct (ESOType_of tid) as [t|] eqn:Ht.
  - apply (wf_except tid t s); [done..| |done]. intros p Hp.
    destruct (truthy_fields (key_fields_in (so_key_fields s) (DESCRIPTOR p))) eqn:Htruthy.
    + destruct (FromString p data) as [c|] eqn:Hc.
      * destruct (update_object_stores pb_getattr tid t p data c s Ht Hp Hc Htruthy
                    (Hwf t p Hp)) as (l & s' & Hrun & _ & _ & _ & _ & Hws & _).
        by rewrite Hrun.
      * unfold _update_object.
        rewrite bind_apply, (parse_undecodable pb_getattr tid t p data s) by done.
        apply (well_shaped_same t (DESCRIPTOR p) s); [done..| |by apply Hwf].
        apply key_fields_in_memoised.
    + assert (type_fails pb_getattr s tid) as Hfail.
      { unfold type_fails. by rewrite Ht, Hp. }
      destruct (parse_type_fails pb_getattr tid data s Hfail)
        as (s' & Hparse & Hc & _ & Hh & _).
      unfold _update_object. rewrite bind_apply, Hparse. simpl.
      destruct Hothers as [[_ Hkf] _].
      unfold _update_object in Hkf. rewrite bind_apply, Hparse in Hkf. simpl in Hkf.
      apply (well_shaped_same t (DESCRIPTOR p) s);
        [done..|by apply (Hkf t p Hp)|by apply Hwf].
  - unfold _update_object, _parse_object_data, _get_proto_for_type.
    by rewrite Ht.
Qed.

Lemma bind_preserves {A B} (m : M A) (f : A → M B) :
  preserves pb_getattr m → (∀ a, preserves pb_getattr (f a)) →
  preserves pb_getattr (m ≫= f).
Proof.
  intros Hm Hf s Hwf. rewrite bind_apply. specialize (Hm s Hwf).
  destruct (m s) as [a s'|e s']; [by apply Hf|done].
Qed.

Lemma for_preserves {A} (l : list A) (body : A → M LoopCtl) :
  (∀ x, preserves pb_getattr (body x)) → preserves pb_getattr (for_ l body).
Proof.
  intros Hbody. induction l as [|x l IH]; [by intros s|].
  cbn [for_]. apply bind_preserves; [apply Hbody|]. intros []; [done|by intros s].
Qed.

Lemma shrinks_preserves {A} (m : M A) :
  (∀ s, shrinks_except pb_getattr (λ _, False) s (final (m s))) →
  preserves pb_getattr m.
Proof. intros Hm s. apply wf_shrinks, Hm. Qed.

Lemma emit_preserves ev t l : preserves pb_getattr (emit ev t l).
Proof. apply shrinks_preserves. intros s. apply emit_shrinks. Qed.

Lemma ret_preserves {A} (a : A) : preserves pb_getattr (mret a : M A).
Proof. by intros s. Qed.

Lemma update_object_preserves (tid : Z) data :
  preserves pb_getattr (_update_object pb_getattr tid data).
Proof. intros s. apply update_object_wf. Qed.

Lemma handle_update_preserves (m : CMsgSOSingleObject) :
  preserves pb_getattr (_handle_update pb_getattr m).
Proof.
  apply bind_preserves; [apply update_object_preserves|].
  intros [[t l]|]; [apply emit_preserves|apply ret_preserves].
Qed.

Lemma apply_object_preserves (tid : Z) data :
  preserves pb_getattr (apply_object pb_getattr tid data).
Proof.
  apply bind_preserves; [apply update_object_preserves|].
  intros [[t l]|]; [|apply ret_preserves].
  apply bind_preserves; [apply emit_preserves|intros; apply ret_preserves].
Qed.

Lemma handle_cache_subscribed_preserves (m : CMsgSOCacheSubscribed) :
  preserves pb_getattr (_handle_cache_subscribed pb_getattr m).
Proof.
  apply bind_preserves.
  - apply shrinks_preserves. intros s. by apply shrinks_same.
  - intros _. apply for_preserves. intros g.
    apply bind_preserves; [|intros; apply ret_preserves].
    apply for_preserves. intros data. apply apply_object_preserves.
Qed.

Lemma handle_preserves (n : Notification) : preserves pb_getattr (handle pb_getattr set_iter n).
Proof.
  destruct n as [m|m|m|m|m|m|m| |x]; simpl.
  - apply bind_preserves; [apply update_object_preserves|].
    intros [[t l]|]; [apply emit_preserves|apply ret_preserves].
  - apply handle_update_preserves.
  - apply shrinks_preserves. intros s. apply destroy_shrinks.
  - apply for_preserves. intros so.
    apply bind_preserves; [apply handle_update_preserves|intros; apply ret_preserves].
  - apply handle_cache_subscribed_preserves.
  - apply shrinks_preserves. intros s. apply unsubscribed_shrinks.
  - apply for_preserves. intros one.
    apply bind_preserves; [apply handle_cache_subscribed_preserves|].
    intros; apply ret_preserves.
  - apply shrinks_preserves. intros s. apply cleanup_shrinks.
  - apply bind_preserves; [|intros; apply ret_preserves].
    apply shrinks_preserves. intros s. apply getitem_shrinks.
Qed.

(** In every state that the cache reaches from its initial state, whatever
    the notifications and lookups and whether or not their handlers raise,
    every container has the shape of the key kind of its type. *)
Theorem reachable_wf (s : State) : reachable pb_getattr set_iter s → wf pb_getattr s.
Proof.
  induction 1 as [|s n _ IH].
  - intros t p _. exact I.
  - by apply handle_preserves.
Qed.

(** ** The handlers in the reachable states *)

(** C1.  In every reachable state, for a type whose key kind is not
    NoKeyDefined, a Create followed by an Update for the same key leaves
    exactly one stored instance under that key, whose content is the decoded
    content of the Update; the [new] and the [updated] event carry the same
    reference [l], which is that stored instance: the Update writes into the
    object that the Create emitted (its content was the Create's, and is now
    the Update's). *)
Theorem create_then_update (tid : Z) (t : ESOType) (proto : Proto)
    (data1 data2 : list Byte.byte) (c1 c2 : gmap string Z) (s : State) :
  reachable pb_getattr set_iter s →
  ESOType_of tid = Some t →
  find_so_proto pb_getattr t = Some proto →
  FromString proto data1 = Some c1 →
  FromString proto data2 = Some c2 →
  let desc := DESCRIPTOR proto in
  let kf := key_fields_in (so_key_fields s) desc in
  key_kind kf ≠ NoKeyDefined →
  key_of kf (mk_Obj desc c1) = key_of kf (mk_Obj desc c2) →
  ∃ l s1 s2,
    _handle_create pb_getattr (mk_single tid data1) s = Ok tt s1
    ∧ _handle_update pb_getattr (mk_single tid data2) s1 = Ok tt s2
    ∧ emitted s2 = emitted s ++ [(new, t, l); (updated, t, l)]
    ∧ content s1 l = Some c1
    ∧ content s2 l = Some c2
    ∧ instances s2 t (key_of kf (mk_Obj desc c2)) = [l].
Proof.
  intros Hreach Htid Hproto Hd1 Hd2 desc kf Hkind Hkey.
  apply shaped_create_update; try done. by apply reachable_wf.
Qed.

(** C9.  In every reachable state, when the record of a Destroy
    notification parses, exactly one [removed] event is emitted and its
    instance carries the decoded content of the destroy record: a stored
    instance under the key is taken out of the cache, overwritten with the
    decoded content and emitted (so a holder of that reference sees the
    destroy payload); without a stored instance, or with the empty dict that
    a lookup left for a type without key, the newly decoded object, which is
    not stored, is emitted. *)
Theorem destroy_emits_decoded (tid : Z) (t : ESOType) (proto : Proto)
    (data : list Byte.byte) (c : gmap string Z) (s : State) :
  reachable pb_getattr set_iter s →
  ESOType_of tid = Some t →
  find_so_proto pb_getattr t = Some proto →
  FromString proto data = Some c →
  let desc := DESCRIPTOR proto in
  let kf := key_fields_in (so_key_fields s) desc in
  let key := key_of kf (mk_Obj desc c) in
  truthy_fields kf = true →
  ∃ l s',
    _handle_destroy pb_getattr (mk_single tid data) s = Ok tt s'
    ∧ emitted s' = emitted s ++ [(removed, t, l)]
    ∧ content s' l = Some c
    ∧ instances s' t key = []
    ∧ (∀ l0, l0 ∈ instances s t key → l = l0)
    ∧ (instances s t key = [] → l = length (heap s)).
Proof.
  intros Hreach Htid Hproto Hd desc kf key Htruthy.
  apply shaped_destroy; try done. by apply reachable_wf.
Qed.

(** C3, amended.  In a cache-subscribed notification that arrives in a
    reachable state, once the groups before a per-type group have been
    applied:
    - if the type of the group fails to parse (unknown type id, no class for
      it, no key fields), the group is skipped without any change to the
      containers, the objects or the emitted events, and the handler goes on
      with the groups after it;
    - if the objects of the group decode up to one whose bytes do not, the
      handler raises [DecodeError] at that object: the cache is as the
      objects before it left it, and no later object of the notification is
      applied or emitted. *)
Theorem subscribed_failure (owner : Z * Z) (ver : Z) (pre post : list SubscribedType)
    (tid : Z) (datas : list (list Byte.byte)) (s s1 : State) :
  reachable pb_getattr set_iter s →
  let message := mk_subscribed owner ver (pre ++ mk_subscribed_type tid datas :: post) in
  for_ pre (apply_group pb_getattr) (final (record_subscription message s)) = Ok tt s1 →
  (type_fails pb_getattr s1 tid →
   ∃ s2, same_cache s2 s1
         ∧ _handle_cache_subscribed pb_getattr message s
           = for_ post (apply_group pb_getattr) s2)
  ∧ (∀ t proto datas1 bad datas2,
       datas = datas1 ++ bad :: datas2 →
       ESOType_of tid = Some t →
       find_so_proto pb_getattr t = Some proto →
       truthy_fields (key_fields_in (so_key_fields s1) (DESCRIPTOR proto)) = true →
       Forall (λ data, is_Some (FromString proto data)) datas1 →
       FromString proto bad = None →
       ∃ s2 s3,
         for_ datas1 (apply_object pb_getattr tid) s1 = Ok tt s2
         ∧ _handle_cache_subscribed pb_getattr message s = Raise DecodeError s3
         ∧ same_cache s3 s2).
Proof.
  intros Hreach message Hpre.
  assert (wf pb_getattr s1) as Hwf1.
  { assert (preserves pb_getattr (for_ pre (apply_group pb_getattr))) as Hfor.
    { apply for_preserves. intros g.
      apply bind_preserves; [|intros; apply ret_preserves].
      apply for_preserves. intros data. apply apply_object_preserves. }
    specialize (Hfor (final (record_subscription message s))).
    rewrite Hpre in Hfor. apply Hfor.
    apply (wf_shrinks s); [by apply shrinks_same|by apply reachable_wf]. }
  destruct (shaped_subscribed_failure pb_getattr owner ver pre post tid datas s s1 Hpre)
    as [HA HB].
  split; [exact HA|].
  intros t proto datas1 bad datas2 Hdatas Htid Hproto Htruthy Hdec Hbad.
  by apply (HB t proto datas1 bad datas2 Hdatas Htid Hproto Htruthy (Hwf1 t proto Hproto)).
Qed.

End invariant.

(** ** The properties at concrete notifications *)

Import Byte.

Lemma example_distinct : descriptors_distinct example.pb_getattr.
Proof.
  intros t t' p p' H1 H2 H3.
  destruct t; vm_compute in H1; try discriminate H1; injection H1 as <-;
    destruct t'; vm_compute in H2; try discriminate H2; injection H2 as <-;
    first [reflexivity | discriminate H3].
Qed.

(** A Create and an Update of the item with id 5, in the empty cache. *)
Lemma create_then_update_witness :
  ∃ l s1 s2,
    _handle_create example.pb_getattr (mk_single 1 [x05; x01]) init_state = Ok tt s1
    ∧ _handle_update example.pb_getattr (mk_single 1 [x05; x02]) s1 = Ok tt s2
    ∧ emitted s2 = emitted init_state ++ [(new, CSOEconItem, l); (updated, CSOEconItem, l)]
    ∧ content s1 l = Some (list_to_map [("id"%string, 5); ("quantity"%string, 1)])
    ∧ content s2 l = Some (list_to_map [("id"%string, 5); ("quantity"%string, 2)])
    ∧ instances s2 CSOEconItem (KVal 5) = [l].
Proof.
  assert (key_of
      (key_fields_in (so_key_fields init_state)
         (DESCRIPTOR (example.proto_of _gc_base "CSOEconItem"
                        [("id"%string, []); ("quantity"%string, [])])))
      (mk_Obj (DESCRIPTOR (example.proto_of _gc_base "CSOEconItem"
                             [("id"%string, []); ("quantity"%string, [])]))
              (list_to_map [("id"%string, 5); ("quantity"%string, 2)])) = KVal 5) as Hk
    by (vm_compute; reflexivity).
  rewrite <- Hk.
  apply (create_then_update example.pb_getattr example.set_iter example_distinct 1 CSOEconItem
           (example.proto_of _gc_base "CSOEconItem"
              [("id"%string, []); ("quantity"%string, [])])
           [x05; x01] [x05; x02]
           (list_to_map [("id"%string, 5); ("quantity"%string, 1)])
           (list_to_map [("id"%string, 5); ("quantity"%string, 2)]) init_state);
    [apply reachable_init | reflexivity | reflexivity | reflexivity
    | reflexivity | vm_compute; discriminate | reflexivity].
Defined.

(** A Destroy of the item with id 5, after its Create. *)
Lemma destroy_emits_decoded_witness :
  let s := final (_handle_create example.pb_getattr (mk_single 1 [x05; x01]) init_state) in
  ∃ l s',
    _handle_destroy example.pb_getattr (mk_single 1 [x05; x00]) s = Ok tt s'
    ∧ emitted s' = emitted s ++ [(removed, CSOEconItem, l)]
    ∧ content s' l = Some (list_to_map [("id"%string, 5); ("quantity"%string, 0)])
    ∧ instances s' CSOEconItem (KVal 5) = []
    ∧ (∀ l0, l0 ∈ instances s CSOEconItem (KVal 5) → l = l0)
    ∧ (instances s CSOEconItem (KVal 5) = [] → l = length (heap s)).
Proof.
  intros s.
  assert (key_of
      (key_fields_in (so_key_fields s)
         (DESCRIPTOR (example.proto_of _gc_base "CSOEconItem"
                        [("id"%string, []); ("quantity"%string, [])])))
      (mk_Obj (DESCRIPTOR (example.proto_of _gc_base "CSOEconItem"
                             [("id"%string, []); ("quantity"%string, [])]))
              (list_to_map [("id"%string, 5); ("quantity"%string, 0)])) = KVal 5) as Hk
    by (vm_compute; reflexivity).
  rewrite <- Hk.
  apply (destroy_emits_decoded example.pb_getattr example.set_iter example_distinct 1 CSOEconItem
           (example.proto_of _gc_base "CSOEconItem"
              [("id"%string, []); ("quantity"%string, [])])
           [x05; x00]
           (list_to_map [("id"%string, 5); ("quantity"%string, 0)]) s);
    [apply (reachable_step _ _ init_state (Create (mk_single 1 [x05; x01])));
     apply reachable_init
    | reflexivity | reflexivity | reflexivity | vm_compute; reflexivity].
Defined.

(** The skipped group and the group after it: one object of the unknown
    type 99, then the item with id 5. *)
Lemma subscribed_failure_witness :
  ∃ s2,
    same_cache s2
      (final (record_subscription
                (mk_subscribed (1, 100) 1
                   ([] ++ mk_subscribed_type 99 [[x01]]
                       :: [mk_subscribed_type 1 [[x05; x01]]])) init_state))
    ∧ _handle_cache_subscribed example.pb_getattr
        (mk_subscribed (1, 100) 1
           ([] ++ mk_subscribed_type 99 [[x01]] :: [mk_subscribed_type 1 [[x05; x01]]]))
        init_state
      = for_ [mk_subscribed_type 1 [[x05; x01]]] (apply_group example.pb_getattr) s2.
Proof.
  apply (subscribed_failure example.pb_getattr example.set_iter example_distinct (1, 100) 1 []
           [mk_subscribed_type 1 [[x05; x01]]] 99 [[x01]] init_state _
           (reachable_init _ _) eq_refl).
  exact I.
Defined.

End reachable_facts.

(** * More on the enums *)
Module common_enums_more.
Import common_enums common_enums_facts common_flags.

(** The lookup [ESOType(x)] returns the member [t] exactly when [x] is the
    value of [t]: every member is found by its value, no two members share
    a value (so none is an alias of another), and every other integer
    raises. *)
Theorem ESOType_lookup (x : Z) (t : ESOType) : ESOType_of x = Some t ↔ value t = x.
Proof.
  split; [apply ESOType_of_Some|]. intros <-. apply ESOType_of_value.
Qed.

(** Every [EXPBonusFlag] is a single bit below bit 31 and no two members
    share a bit: the bitwise and of two members is the member itself when
    they are the same and 0 otherwise, and the lookup by value returns the
    member exactly for its value. *)
Theorem EXPBonusFlag_bits (f g : EXPBonusFlag) :
  (∃ k, 0 <= k < 31 ∧ flag_value f = 2 ^ k)
  ∧ Z.land (flag_value f) (flag_value g) = (if decide (f = g) then flag_value f else 0)
  ∧ ∀ x, EXPBonusFlag_of x = Some f ↔ flag_value f = x.
Proof.
  split; [|split].
  - destruct f; [exists 0|exists 1|exists 2|exists 3|exists 4|exists 5
                |exists 28|exists 29|exists 30]; by split.
  - by destruct f, g.
  - intros x. split.
    + unfold EXPBonusFlag_of. intros H.
      apply find_some in H as [_ H]. by apply Z.eqb_eq in H.
    + intros <-. by destruct f.
Qed.

End common_enums_more.

(** * More on the share codes *)
Module sharecode_more.
Import digits digits_facts sharecode sharecode_facts.

(** ** The byte swap on any integer *)

Lemma swap_twice (x : Z) : _swap_endianness (_swap_endianness x) = x `mod` 2 ^ 144.
Proof.
  rewrite (_swap_endianness_digits x), be_value_le_value.
  rewrite _swap_endianness_digits.
  pose proof (le_digits_le_value 256 (rev (le_digits 256 18 x))) as H.
  rewrite length_rev, le_digits_length in H. rewrite H.
  - by rewrite be_value_rev, le_value_le_digits by lia.
  - lia.
  - apply Forall_rev, le_digits_in_base. lia.
Qed.

(** [_swap_endianness] reads the 144 low bits of its argument only, returns
    a number of at most 144 bits, and applied twice gives those 144 bits
    back. *)
Theorem swap_endianness_low_bits (x : Z) :
  0 <= _swap_endianness x < 2 ^ 144
  ∧ _swap_endianness (x `mod` 2 ^ 144) = _swap_endianness x
  ∧ _swap_endianness (_swap_endianness x) = x `mod` 2 ^ 144.
Proof.
  split; [apply _swap_endianness_bounds|]. split; [|apply swap_twice].
  rewrite <- (Z.mod_small (_swap_endianness x) (2 ^ 144)) by apply _swap_endianness_bounds.
  rewrite <- (Z.mod_small (_swap_endianness (x `mod` 2 ^ 144)) (2 ^ 144))
    by apply _swap_endianness_bounds.
  rewrite <- !swap_twice. f_equal. rewrite !swap_twice.
  by rewrite Z.mod_mod by lia.
Qed.

(** ** What the pattern accepts *)

Lemma strip_literal_Some (p s r : str) : strip_literal p s = Some r → s = p ++ r.
Proof.
  revert s. induction p as [|a p IH]; intros s H.
  - destruct s; simpl in H; by injection H as <-.
  - destruct s as [|b s]; [done|]. simpl in H.
    destruct (Ascii.eqb_spec a b) as [->|]; [|done].
    simpl. f_equal. by apply IH.
Qed.

Lemma match_class_Some (n : nat) (s r : str) :
  match_class n s = Some r →
  ∃ cs, s = cs ++ r ∧ length cs = n ∧ Forall (λ c, in_class c = true) cs.
Proof.
  revert s. induction n as [|n IH]; intros s H; simpl in H.
  - injection H as <-. by exists [].
  - destruct s as [|c s]; [done|]. destruct (in_class c) eqn:Hc; [|done].
    destruct (IH _ H) as (cs & -> & Hlen & Hcs).
    exists (c :: cs). split; [done|]. split; [simpl; by rewrite Hlen|by constructor].
Qed.

Lemma match_group_Some (s r : str) :
  match_group s = Some r →
  ∃ cs, s = "-"%char :: cs ++ r ∧ length cs = 5%nat
        ∧ Forall (λ c, in_class c = true) cs.
Proof.
  unfold match_group. intros H.
  destruct (strip_literal (lit "-") s) as [s'|] eqn:Hs; [|done].
  apply strip_literal_Some in Hs as ->. cbn [mbind option_bind] in H.
  destruct (match_class_Some _ _ _ H) as (cs & -> & ? & ?). by exists cs.
Qed.

Lemma in_class_not_dash (c : ascii) :
  in_class c = true → Ascii.eqb c "-"%char = false.
Proof.
  intros Hc. destruct (Ascii.eqb_spec c "-"%char) as [->|]; [|done].
  by vm_compute in Hc.
Qed.

Lemma replace_class_id (cs : str) :
  Forall (λ c, in_class c = true) cs → replace "-"%char [] cs = cs.
Proof.
  induction 1 as [|c cs Hc _ IH]; [done|].
  unfold replace in *. simpl. by rewrite (in_class_not_dash c Hc), IH.
Qed.

Lemma slice_app_exact (a : nat) (pre g rest : str) :
  length pre = a → slice a (a + length g) (pre ++ g ++ rest) = g.
Proof.
  intros <-. unfold slice. rewrite drop_app_length.
  replace (length pre + length g - length pre)%nat with (length g) by lia.
  by rewrite take_app_length.
Qed.

(** A string the pattern matches is the text of five groups of five
    characters of the class, followed by nothing or by one newline; without
    its prefix and its hyphens it is the 25 characters and that tail. *)
Lemma match_shape (code : str) :
  CODE_PATTERN_match code = true →
  ∃ cs tail,
    length cs = 25%nat ∧ Forall (λ c, in_class c = true) cs
    ∧ code = grouped cs ++ tail
    ∧ replace "-"%char [] (removeprefix (lit "CSGO") code) = cs ++ tail
    ∧ (tail = [] ∨ tail = ["010"%char]).
Proof.
  unfold CODE_PATTERN_match. intros H.
  destruct (strip_literal (lit "CSGO") code) as [s0|] eqn:H0; [|done].
  pose proof (strip_literal_Some _ _ _ H0) as Hcode.
  cbn [mbind option_bind match_groups] in H.
  destruct (match_group s0) as [s1|] eqn:H1; [|done]. cbn [mbind option_bind] in H.
  destruct (match_group s1) as [s2|] eqn:H2; [|done]. cbn [mbind option_bind] in H.
  destruct (match_group s2) as [s3|] eqn:H3; [|done]. cbn [mbind option_bind] in H.
  destruct (match_group s3) as [s4|] eqn:H4; [|done]. cbn [mbind option_bind] in H.
  destruct (match_group s4) as [s5|] eqn:H5; [|done]. cbn [mbind option_bind] in H.
  apply match_group_Some in H1 as (g1 & -> & L1 & C1).
  apply match_group_Some in H2 as (g2 & -> & L2 & C2).
  apply match_group_Some in H3 as (g3 & -> & L3 & C3).
  apply match_group_Some in H4 as (g4 & -> & L4 & C4).
  apply match_group_Some in H5 as (g5 & -> & L5 & C5).
  exists (g1 ++ g2 ++ g3 ++ g4 ++ g5), s5.
  assert (slice 0 5 (g1 ++ g2 ++ g3 ++ g4 ++ g5) = g1) as S1.
  { rewrite <- L1 at 1. by apply (slice_app_exact 0 []). }
  assert (slice 5 10 (g1 ++ g2 ++ g3 ++ g4 ++ g5) = g2) as S2.
  { replace 10%nat with (5 + length g2)%nat by lia. by apply slice_app_exact. }
  assert (slice 10 15 (g1 ++ g2 ++ g3 ++ g4 ++ g5) = g3) as S3.
  { replace 15%nat with (10 + length g3)%nat by lia.
    rewrite (app_assoc g1 g2). apply slice_app_exact. rewrite length_app. lia. }
  assert (slice 15 20 (g1 ++ g2 ++ g3 ++ g4 ++ g5) = g4) as S4.
  { replace 20%nat with (15 + length g4)%nat by lia.
    rewrite (app_assoc g1 g2), (app_assoc (g1 ++ g2) g3).
    apply slice_app_exact. rewrite !length_app. lia. }
  assert (drop 20 (g1 ++ g2 ++ g3 ++ g4 ++ g5) = g5) as S5.
  { rewrite (app_assoc g1 g2), (app_assoc (g1 ++ g2) g3), (app_assoc _ g4).
    apply drop_app_length'. rewrite !length_app. lia. }
  assert (code = grouped (g1 ++ g2 ++ g3 ++ g4 ++ g5) ++ s5) as Hshape.
  { rewrite Hcode. unfold grouped. rewrite S1, S2, S3, S4, S5.
    cbn [lit list_ascii_of_string app]. repeat (rewrite <- app_assoc; cbn [app]).
    done. }
  split; [rewrite !length_app; lia|].
  split; [by repeat apply Forall_app_2|].
  split; [done|].
  assert (s5 = [] ∨ s5 = ["010"%char]) as Htail.
  { destruct s5 as [|c [|??]]; [by left| |done]. right.
    simpl in H. by destruct (Ascii.eqb_spec c "010"%char) as [->|]. }
  split; [|done].
  unfold removeprefix. rewrite H0. cbn [default from_option]. unfold id.
  rewrite <- !app_assoc.
  repeat (rewrite replace_dash_cons, replace_app, replace_class_id by done).
  f_equal. f_equal. f_equal. f_equal. f_equal.
  by destruct Htail as [->| ->].
Qed.

Lemma index_from_Some (c : ascii) (s : str) (k i : Z) :
  index_from c s k = Some i → ∃ n, i = k + Z.of_nat n ∧ s !! n = Some c.
Proof.
  revert k. induction s as [|x s IH]; intros k H; simpl in H; [done|].
  destruct (Ascii.eqb_spec x c) as [->|Hne].
  - injection H as <-. exists 0%nat. split; [lia|done].
  - destruct (IH _ H) as (n & -> & Hn). exists (S n). split; [lia|done].
Qed.

Lemma index_Some (c : ascii) (i : Z) :
  index dictionary c = Some i → in_base 57 i ∧ dictionary_at i = c.
Proof.
  intros H. destruct (index_from_Some _ _ _ _ H) as (n & -> & Hn).
  pose proof (lookup_lt_Some _ _ _ Hn) as Hlt.
  change (length dictionary) with 57%nat in Hlt.
  split; [unfold in_base; lia|]. unfold dictionary_at.
  rewrite Z.add_0_l, Nat2Z.id. by apply nth_lookup_Some.
Qed.

Lemma index_from_in (c : ascii) (s : str) (k : Z) :
  existsb (Ascii.eqb c) s = true → is_Some (index_from c s k).
Proof.
  revert k. induction s as [|x s IH]; intros k H; [done|]. simpl in *.
  destruct (Ascii.eqb_spec x c) as [->|Hne]; [done|].
  destruct (Ascii.eqb_spec c x) as [->|]; [done|]. by apply IH.
Qed.

Lemma symbols_digits (cs : str) :
  Forall (λ c, in_dictionary c = true) cs →
  ∃ ds, Forall (in_base 57) ds ∧ cs = dictionary_at <$> ds.
Proof.
  induction 1 as [|c cs Hc _ (ds & Hds & ->)]; [by exists []|].
  destruct (index_from_in c dictionary 0 Hc) as [i Hi].
  destruct (index_Some c i Hi) as [Hb <-].
  exists (i :: ds). split; [by constructor|done].
Qed.

Lemma digits_symbols (ds : list Z) :
  Forall (in_base 57) ds → Forall (λ c, in_dictionary c = true) (dictionary_at <$> ds).
Proof.
  intros Hds. apply Forall_fmap. eapply Forall_impl; [exact Hds|].
  intros d Hd. simpl. by destruct (dictionary_at_facts d Hd).
Qed.

Lemma decode_loop_Some (cs : str) (acc num : Z) :
  decode_loop cs acc = Some num →
  ∃ ds, Forall (in_base 57) ds ∧ cs = dictionary_at <$> ds.
Proof.
  revert acc. induction cs as [|c cs IH]; intros acc H; [by exists []|].
  cbn [decode_loop] in H. destruct (index dictionary c) as [i|] eqn:Hi; [|done].
  cbn [mbind option_bind] in H. destruct (IH _ H) as (ds & Hds & ->).
  destruct (index_Some _ _ Hi) as [Hb <-].
  exists (i :: ds). split; [by constructor|done].
Qed.

Lemma dictionary_at_inj (ds1 ds2 : list Z) :
  Forall (in_base 57) ds1 → Forall (in_base 57) ds2 →
  dictionary_at <$> ds1 = dictionary_at <$> ds2 → ds1 = ds2.
Proof.
  intros H1. revert ds2. induction H1 as [|d1 ds1 Hd1 _ IH]; intros ds2 H2 Heq.
  - by destruct ds2.
  - destruct H2 as [|d2 ds2 Hd2 H2]; [done|]. injection Heq as Hd Hds.
    f_equal; [|by apply IH].
    destruct (dictionary_at_facts d1 Hd1) as [E1 _].
    destruct (dictionary_at_facts d2 Hd2) as [E2 _].
    rewrite Hd in E1. congruence.
Qed.

(** Every code that [decode] accepts is the grouped text of 25 base-57
    digits, least significant first, and the loop of [decode] computes
    their value. *)
Lemma decode_shape (code : str) (r : sharecode_info) :
  decode code = Some r →
  ∃ ds, length ds = 25%nat ∧ Forall (in_base 57) ds
    ∧ code = grouped (dictionary_at <$> ds)
    ∧ decode_loop (rev (replace "-"%char [] (removeprefix (lit "CSGO") code))) 0
      = Some (le_value 57 ds)
    ∧ r = (let num := _swap_endianness (le_value 57 ds) in
           {| matchid := Z.land num _bitmask64;
              outcomeid := Z.land (Z.shiftr num 64) _bitmask64;
              token := Z.land (Z.shiftr num 128) 65535 |}).
Proof.
  unfold decode. intros H.
  destruct (CODE_PATTERN_match code) eqn:Hm; [|done]. cbn [negb] in H.
  destruct (match_shape code Hm) as (cs & tail & Hlen & _ & Hcode & Hstrip & Htail).
  rewrite Hstrip in H |- *. clear Hstrip.
  destruct (decode_loop (rev (cs ++ tail)) 0) as [num|] eqn:Hloop; [|done].
  cbn [mbind option_bind] in H. injection H as <-.
  destruct (decode_loop_Some _ _ _ Hloop) as (ds' & Hds' & Hrev).
  assert (cs ++ tail = dictionary_at <$> rev ds') as Hcs.
  { rewrite fmap_rev, <- Hrev. by rewrite rev_involutive. }
  assert (tail = []) as ->.
  { destruct Htail as [->| ->]; [done|]. exfalso.
    pose proof (digits_symbols (rev ds') (Forall_rev Hds')) as Hsym.
    rewrite <- Hcs in Hsym. apply Forall_app in Hsym as [_ Hsym].
    apply Forall_inv in Hsym. by vm_compute in Hsym. }
  rewrite app_nil_r in *. subst cs.
  exists (rev ds'). rewrite length_fmap in Hlen.
  assert (Forall (in_base 57) (rev ds')) as Hds by by apply Forall_rev.
  split; [done|]. split; [done|]. split; [done|].
  rewrite <- fmap_rev, rev_involutive in Hloop.
  rewrite decode_loop_digits in Hloop by done. injection Hloop as <-.
  by rewrite be_value_le_value.
Qed.

(** [decode] returns a result exactly for the strings
    [CSGO-xxxxx-xxxxx-xxxxx-xxxxx-xxxxx] made of 25 characters of the
    dictionary.  Every other string raises [ValueError]: among them the
    strings with a brace, which the character class of the pattern lets
    through, and the strings with a final newline, which [$] lets through. *)
Theorem decode_accepts (code : str) :
  is_Some (decode code)
  ↔ ∃ cs, length cs = 25%nat ∧ Forall (λ c, in_dictionary c = true) cs
          ∧ code = grouped cs.
Proof.
  split.
  - intros [r Hr]. destruct (decode_shape code r Hr) as (ds & Hlen & Hds & -> & _).
    exists (dictionary_at <$> ds). rewrite length_fmap.
    split; [done|]. split; [by apply digits_symbols|done].
  - intros (cs & Hlen & Hcs & ->). unfold decode.
    rewrite grouped_matches by done. cbn [negb]. rewrite grouped_stripped by done.
    destruct (symbols_digits cs Hcs) as (ds & Hds & ->).
    rewrite <- fmap_rev, decode_loop_digits by by apply Forall_rev.
    by eexists.
Qed.

(** The three numbers [decode] returns are in range: match id and outcome
    id below [2^64], token below [2^16], none negative. *)
Theorem decode_range (code : str) (r : sharecode_info) :
  decode code = Some r →
  0 <= matchid r < 2 ^ 64 ∧ 0 <= outcomeid r < 2 ^ 64 ∧ 0 <= token r < 2 ^ 16.
Proof.
  unfold decode. intros H. destruct (negb _); [done|].
  destruct (decode_loop _ _) as [num|]; [|done].
  cbn [mbind option_bind] in H. injection H as <-. cbn [matchid outcomeid token].
  change _bitmask64 with (Z.ones 64). change 65535 with (Z.ones 16).
  rewrite !Z.land_ones by lia.
  repeat split; apply Z.mod_pos_bound; lia.
Qed.

Lemma decode_range_witness :
  let r := {| matchid := 0; outcomeid := 0; token := 0 |} in
  decode (encode 0 0 0) = Some r
  ∧ (0 <= matchid r < 2 ^ 64 ∧ 0 <= outcomeid r < 2 ^ 64 ∧ 0 <= token r < 2 ^ 16).
Proof.
  assert (decode (encode 0 0 0) = Some {| matchid := 0; outcomeid := 0; token := 0 |})
    as H by (vm_compute; reflexivity).
  split; [exact H|]. exact (decode_range _ _ H).
Defined.

(** ** Encoding any three integers *)

Lemma field_of_low_bits (x k w : Z) :
  0 <= k → 0 <= w → k + w <= 144 →
  Z.land (Z.shiftr (x `mod` 2 ^ 144) k) (Z.ones w) = Z.shiftr x k `mod` 2 ^ w.
Proof.
  intros Hk Hw Hkw. rewrite <- (Z.land_ones (Z.shiftr x k) w) by done.
  apply Z.bits_inj'. intros n Hn.
  rewrite !Z.land_spec, !Z.shiftr_spec by done.
  destruct (Z_lt_dec n w).
  - by rewrite Z.mod_pow2_bits_low by lia.
  - by rewrite Z.ones_spec_high, !andb_false_r by lia.
Qed.

Lemma packed_bits (m o t n : Z) :
  0 <= n →
  Z.testbit (packed m o t) n
  = Z.testbit t (n - 128) || Z.testbit o (n - 64) || Z.testbit m n.
Proof.
  intros Hn. unfold packed. by rewrite !Z.lor_spec, !Z.shiftl_spec by done.
Qed.

Lemma packed_any_matchid (m o t : Z) :
  Z.shiftr (packed m o t) 0 `mod` 2 ^ 64 = m `mod` 2 ^ 64.
Proof.
  rewrite Z.shiftr_0_r. apply Z.bits_inj'. intros n Hn.
  destruct (Z_lt_dec n 64).
  - rewrite !Z.mod_pow2_bits_low, packed_bits by lia.
    by rewrite !Z.testbit_neg_r by lia.
  - by rewrite !Z.mod_pow2_bits_high by lia.
Qed.

Lemma packed_any_outcomeid (m o t : Z) :
  Z.shiftr (packed m o t) 64 `mod` 2 ^ 64 = Z.lor o (Z.shiftr m 64) `mod` 2 ^ 64.
Proof.
  apply Z.bits_inj'. intros n Hn.
  destruct (Z_lt_dec n 64).
  - rewrite !Z.mod_pow2_bits_low, Z.shiftr_spec, packed_bits by lia.
    rewrite Z.lor_spec, Z.shiftr_spec by lia.
    rewrite (Z.testbit_neg_r t) by lia.
    replace (n + 64 - 64) with n by lia. done.
  - by rewrite !Z.mod_pow2_bits_high by lia.
Qed.

Lemma packed_any_token (m o t : Z) :
  Z.shiftr (packed m o t) 128 `mod` 2 ^ 16
  = Z.lor (Z.lor t (Z.shiftr o 64)) (Z.shiftr m 128) `mod` 2 ^ 16.
Proof.
  apply Z.bits_inj'. intros n Hn.
  destruct (Z_lt_dec n 16).
  - rewrite !Z.mod_pow2_bits_low, Z.shiftr_spec, packed_bits by lia.
    rewrite !Z.lor_spec, !Z.shiftr_spec by lia.
    replace (n + 128 - 128) with n by lia.
    replace (n + 128 - 64) with (n + 64) by lia. done.
  - by rewrite !Z.mod_pow2_bits_high by lia.
Qed.

Lemma encode_text (m o t : Z) :
  encode m o t
  = grouped (dictionary_at <$> le_digits 57 25 (_swap_endianness (packed m o t))).
Proof. unfold encode. by rewrite encode_loop_digits. Qed.

Lemma decode_grouped_digits (x : Z) :
  0 <= x < 2 ^ 144 →
  decode (grouped (dictionary_at <$> le_digits 57 25 x))
  = Some (let num := _swap_endianness x in
          {| matchid := Z.land num _bitmask64;
             outcomeid := Z.land (Z.shiftr num 64) _bitmask64;
             token := Z.land (Z.shiftr num 128) 65535 |}).
Proof.
  intros Hx. unfold decode.
  assert (Forall (in_base 57) (le_digits 57 25 x)) as Hds
    by (apply le_digits_in_base; lia).
  pose proof (digits_symbols _ Hds) as Hsym.
  assert (length (dictionary_at <$> le_digits 57 25 x) = 25%nat) as Hlen
    by (rewrite length_fmap; apply le_digits_length).
  rewrite grouped_matches by done. cbn [negb]. rewrite grouped_stripped by done.
  rewrite <- fmap_rev, decode_loop_digits by (by apply Forall_rev).
  cbn [mbind option_bind]. rewrite be_value_rev, le_value_le_digits by lia.
  by rewrite (Z.mod_small x) by lia.
Qed.

(** [encode] accepts any three integers, and [decode] accepts what it
    returns.  The decoded match id is [matchid mod 2^64]; the bits of
    [matchid] from bit 64 on are or-ed into the outcome id and, from bit 128
    on, into the token, and the bits of [outcomeid] from bit 64 on into the
    token; what is above bit 144 of the packed number is dropped. *)
Theorem decode_encode_any (m o t : Z) :
  decode (encode m o t)
  = Some {| matchid := m `mod` 2 ^ 64;
            outcomeid := Z.lor o (Z.shiftr m 64) `mod` 2 ^ 64;
            token := Z.lor (Z.lor t (Z.shiftr o 64)) (Z.shiftr m 128) `mod` 2 ^ 16 |}.
Proof.
  rewrite encode_text, decode_grouped_digits by apply _swap_endianness_bounds.
  cbv zeta. rewrite swap_twice.
  change _bitmask64 with (Z.ones 64). change 65535 with (Z.ones 16).
  rewrite <- (Z.shiftr_0_r (packed m o t `mod` 2 ^ 144)) at 1.
  rewrite !field_of_low_bits by lia.
  by rewrite packed_any_matchid, packed_any_outcomeid, packed_any_token.
Qed.

(** ** Encoding a decoded code *)

Lemma packed_fields (s : Z) :
  0 <= s < 2 ^ 144 →
  packed (Z.land s _bitmask64) (Z.land (Z.shiftr s 64) _bitmask64)
         (Z.land (Z.shiftr s 128) 65535) = s.
Proof.
  intros Hs. change _bitmask64 with (Z.ones 64). change 65535 with (Z.ones 16).
  apply Z.bits_inj'. intros n Hn. rewrite packed_bits by done.
  destruct (Z_lt_dec n 64); [|destruct (Z_lt_dec n 128)].
  - rewrite !Z.testbit_neg_r by lia. simpl.
    by rewrite Z.land_spec, Z.ones_spec_low, andb_true_r by lia.
  - rewrite (Z.testbit_neg_r _ (n - 128)) by lia.
    rewrite !Z.land_spec, Z.shiftr_spec by lia.
    rewrite Z.ones_spec_low, (Z.ones_spec_high 64 n) by lia.
    replace (n - 64 + 64) with n by lia. by rewrite andb_true_r, andb_false_r, orb_false_r.
  - rewrite !Z.land_spec, !Z.shiftr_spec by lia.
    rewrite (Z.ones_spec_high 64 n), (Z.ones_spec_high 64 (n - 64)) by lia.
    replace (n - 128 + 128) with n by lia.
    rewrite !andb_false_r, !orb_false_r.
    destruct (Z_lt_dec n 144).
    + by rewrite Z.ones_spec_low, andb_true_r by lia.
    + rewrite Z.ones_spec_high, andb_false_r by lia.
      symmetry. apply (high_bits_zero s 144); lia.
Qed.

(** Encoding what [decode] returned gives the code back exactly when the
    number [decode] read from its 25 digits is below [2^144].  The digits
    can spell numbers up to [57^25 - 1], which is larger: for those codes
    [decode] drops the bits from 144 on and [encode] returns another code. *)
Theorem encode_decode (code : str) (r : sharecode_info) (num : Z) :
  decode code = Some r →
  decode_loop (rev (replace "-"%char [] (removeprefix (lit "CSGO") code))) 0 = Some num →
  (encode (matchid r) (outcomeid r) (token r) = code ↔ num < 2 ^ 144).
Proof.
  intros Hr Hnum.
  destruct (decode_shape code r Hr) as (ds & Hlen & Hds & -> & Hloop & ->).
  rewrite Hloop in Hnum. injection Hnum as <-. cbv zeta.
  cbn [matchid outcomeid token].
  rewrite encode_text, packed_fields, swap_twice by apply _swap_endianness_bounds.
  pose proof (le_value_bounds 57 ds eq_refl Hds) as Hv. rewrite Hlen in Hv.
  set (v := le_value 57 ds) in *.
  assert (0 <= v `mod` 2 ^ 144 < 2 ^ 144) as Hmod by (apply Z.mod_pos_bound; lia).
  split.
  - intros Heq.
    assert (Forall (in_base 57) (le_digits 57 25 (v `mod` 2 ^ 144))) as Hds'
      by (apply le_digits_in_base; lia).
    apply (f_equal (λ c, replace "-"%char [] (removeprefix (lit "CSGO") c))) in Heq.
    rewrite (grouped_stripped (dictionary_at <$> ds)) in Heq
      by (by rewrite ?length_fmap; try apply digits_symbols).
    rewrite grouped_stripped in Heq
      by (rewrite ?length_fmap; by try apply le_digits_length; try apply digits_symbols).
    apply dictionary_at_inj in Heq; [|done..].
    apply (f_equal (le_value 57)) in Heq.
    rewrite le_value_le_digits in Heq by lia. fold v in Heq.
    rewrite Z.mod_small in Heq by lia. lia.
  - intros Hlt. rewrite Z.mod_small by lia. unfold v.
    rewrite <- Hlen. by rewrite le_digits_le_value.
Qed.

(** A code whose digits spell [57^25 - 1]: [decode] accepts it, and
    [encode] on the result returns a different code. *)
Example encode_decode_differs :
  let code := lit "CSGO-99999-99999-99999-99999-99999" in
  ∃ r, decode code = Some r ∧ encode (matchid r) (outcomeid r) (token r) ≠ code.
Proof. eexists. split; [vm_compute; reflexivity|]. vm_compute. discriminate. Qed.

Lemma encode_decode_witness :
  let code := lit "CSGO-ABCDE-FGHJK-LMNOP-QRSTU-VWXYA" in
  ∃ r num,
    decode code = Some r
    ∧ decode_loop (rev (replace "-"%char [] (removeprefix (lit "CSGO") code))) 0 = Some num
    ∧ (encode (matchid r) (outcomeid r) (token r) = code ↔ num < 2 ^ 144).
Proof.
  eexists _, _.
  split; [vm_compute; reflexivity|].
  split; [vm_compute; reflexivity|].
  apply (encode_decode (lit "CSGO-ABCDE-FGHJK-LMNOP-QRSTU-VWXYA")); vm_compute; reflexivity.
Defined.

End sharecode_more.

(** * More on the shared-object cache *)
Module sharedobjects_more.
Import common_enums pymonad sharedobjects pymonad_facts common_enums_facts.
Import sharedobjects_facts reachable_facts sharedobjects_runs.

Section frames.
Variable pb_getattr : PbModule → string → option Proto.

(** ** What an update leaves alone *)

Lemma update_object_untouched (tid : Z) (data : list Byte.byte) (s : State) :
  let s' := final (_update_object pb_getattr tid data s) in
  (∀ tz, tz ≠ tid → socache s' !! tz = socache s !! tz)
  ∧ _caches s' = _caches s
  ∧ emitted s' = emitted s.
Proof.
  cbv zeta.
  unfold _update_object, _parse_object_data, _get_proto_for_type, get_key_for_object,
    get_so_key_fields, ESOType_call, __getitem__, __setitem__, CopyFrom, alloc.
  mrun.
  destruct (ESOType_of tid) as [t|] eqn:Ht; [|done].
  apply ESOType_of_Some in Ht as Hv.
  repeat (case_match; simplify_eq/=; mrun; try done).
  all: split; [|done]; intros tz Htz; by rewrite ?lookup_insert_ne by congruence.
Qed.

(** [_update_object], returned or raised, changes no container but the one
    of its type id, no Subscription Record, and emits nothing. *)
Theorem update_object_frame (tid : Z) (data : list Byte.byte) (s : State) :
  let s' := final (_update_object pb_getattr tid data s) in
  (∀ tz, tz ≠ tid → socache s' !! tz = socache s !! tz)
  ∧ _caches s' = _caches s
  ∧ emitted s' = emitted s.
Proof. apply update_object_untouched. Qed.

Lemma caches_update_object (tid : Z) data (s : State) :
  _caches (final (_update_object pb_getattr tid data s)) = _caches s.
Proof. apply update_object_untouched. Qed.

Lemma caches_bind {A B} (m : M A) (f : A → M B) (s : State) :
  _caches (final (m s)) = _caches s →
  (∀ a s', _caches (final (f a s')) = _caches s') →
  _caches (final ((m ≫= f) s)) = _caches s.
Proof.
  intros Hm Hf. rewrite bind_apply. destruct (m s) as [a s'|e s']; [|done].
  simpl in Hm. by rewrite Hf.
Qed.

Lemma caches_for {A} (l : list A) (body : A → M LoopCtl) (s : State) :
  (∀ x s0, _caches (final (body x s0)) = _caches s0) →
  _caches (final (for_ l body s)) = _caches s.
Proof.
  intros Hbody. revert s. induction l as [|x l IH]; intros s; [done|].
  cbn [for_]. apply caches_bind; [done|]. intros [] s'; [apply IH|done].
Qed.

Lemma caches_apply_object (tid : Z) data (s : State) :
  _caches (final (apply_object pb_getattr tid data s)) = _caches s.
Proof.
  unfold apply_object. apply caches_bind; [apply caches_update_object|].
  by intros [[t l]|] s'.
Qed.

Lemma caches_apply_group (g : SubscribedType) (s : State) :
  _caches (final (apply_group pb_getattr g s)) = _caches s.
Proof.
  unfold apply_group. apply caches_bind; [|done].
  apply caches_for. intros. apply caches_apply_object.
Qed.

(** ** The Subscription Record *)

Lemma set_update_snoc (s xs : list Z) (x : Z) :
  set_update s (xs ++ [x])
  = if decide (x ∈ set_update s xs) then set_update s xs else set_update s xs ++ [x].
Proof. unfold set_update. by rewrite foldl_app. Qed.

Lemma set_update_elem (s xs : list Z) (x : Z) :
  x ∈ set_update s xs ↔ x ∈ s ∨ x ∈ xs.
Proof.
  revert x. induction xs as [|y xs IH] using rev_ind; intros x.
  - unfold set_update. simpl. rewrite elem_of_nil. tauto.
  - rewrite set_update_snoc. destruct (decide _) as [Hy|Hy].
    + rewrite elem_of_app, IH, list_elem_of_singleton. split; [tauto|].
      intros [?|[?| ->]]; [tauto..|]. by apply IH.
    + rewrite !elem_of_app, IH, list_elem_of_singleton. tauto.
Qed.

Lemma set_update_NoDup (s xs : list Z) : NoDup s → NoDup (set_update s xs).
Proof.
  intros Hs. induction xs as [|y xs IH] using rev_ind; [done|].
  rewrite set_update_snoc. destruct (decide _) as [Hy|Hy]; [done|].
  apply NoDup_app. split; [done|]. split; [|apply NoDup_singleton].
  intros z Hz ->%list_elem_of_singleton. done.
Qed.

Lemma set_update_prefix (s xs : list Z) : s `prefix_of` set_update s xs.
Proof.
  induction xs as [|y xs IH] using rev_ind; [done|].
  rewrite set_update_snoc. destruct (decide _); [done|].
  by apply prefix_app_r.
Qed.

(** A cache-subscribed notification, whether its handler returns or raises,
    leaves a Subscription Record for its owner: the version is that of the
    notification, and the set of type ids is the union of the set that was
    recorded and the type ids of the notification (in the list that stands
    for the set the recorded ids come first and nothing is repeated).  The
    records of the other owners are not touched. *)
Theorem subscription_recorded (m : CMsgSOCacheSubscribed) (s : State) :
  let s' := final (_handle_cache_subscribed pb_getattr m s) in
  let old := default [] (type_ids <$> _caches s !! sub_owner_soid m) in
  (∃ ids,
     _caches s' !! sub_owner_soid m = Some (mk_CacheRec (sub_version m) ids)
     ∧ old `prefix_of` ids
     ∧ (∀ x, x ∈ ids ↔ x ∈ old ∨ x ∈ st_type_id <$> objects m)
     ∧ (NoDup old → NoDup ids))
  ∧ ∀ owner, owner ≠ sub_owner_soid m → _caches s' !! owner = _caches s !! owner.
Proof.
  cbv zeta. rewrite handle_cache_subscribed_run.
  rewrite caches_for by (intros; apply caches_apply_group).
  unfold record_subscription. mrun. cbn [final _caches set_caches].
  split.
  - eexists. rewrite lookup_insert_eq. split; [done|].
    destruct (_caches s !! sub_owner_soid m) as [rec|]; cbn [default fmap option_fmap option_map type_ids];
      (split; [apply set_update_prefix|]; split;
        [intros x; apply set_update_elem|apply set_update_NoDup]).
  - intros owner Hne. by rewrite lookup_insert_ne.
Qed.

End frames.

Section handlers.
Variable pb_getattr : PbModule → string → option Proto.

(** ** Records that do not parse *)

Lemma update_object_type_fails (tid : Z) data (s : State) :
  type_fails pb_getattr s tid →
  ∃ s', _update_object pb_getattr tid data s = Ok None s' ∧ same_cache s' s.
Proof.
  intros Hfail. destruct (parse_type_fails pb_getattr tid data s Hfail) as (s' & Hp & Hs).
  exists s'. split; [|done]. unfold _update_object. by rewrite bind_apply, Hp.
Qed.

(** A Create, Update or Destroy whose type id is no [ESOType], has no
    message class, or has a class without key fields, returns normally:
    no container, object or Subscription Record changes and no event is
    emitted. *)
Theorem unparsable_type_ignored (tid : Z) (data : list Byte.byte) (s : State) :
  type_fails pb_getattr s tid →
  (∃ s', _handle_create pb_getattr (mk_single tid data) s = Ok tt s' ∧ same_cache s' s)
  ∧ (∃ s', _handle_update pb_getattr (mk_single tid data) s = Ok tt s' ∧ same_cache s' s)
  ∧ (∃ s', _handle_destroy pb_getattr (mk_single tid data) s = Ok tt s' ∧ same_cache s' s).
Proof.
  intros Hfail.
  destruct (update_object_type_fails tid data s Hfail) as (s1 & Hu & Hs1).
  destruct (parse_type_fails pb_getattr tid data s Hfail) as (s2 & Hp & Hs2).
  split; [|split].
  - exists s1. split; [|done]. unfold _handle_create. cbn [type_id object_data].
    by rewrite bind_apply, Hu.
  - exists s1. split; [|done]. unfold _handle_update. cbn [type_id object_data].
    by rewrite bind_apply, Hu.
  - exists s2. split; [|done]. unfold _handle_destroy. cbn [type_id object_data].
    by rewrite bind_apply, Hp.
Qed.

(** A Create, Update or Destroy whose bytes the message class of its type
    rejects raises [DecodeError]: no container, object or Subscription
    Record changes and no event is emitted. *)
Theorem undecodable_record_raises (tid : Z) (t : ESOType) (proto : Proto)
    (data : list Byte.byte) (s : State) :
  ESOType_of tid = Some t →
  find_so_proto pb_getattr t = Some proto →
  truthy_fields (key_fields_in (so_key_fields s) (DESCRIPTOR proto)) = true →
  FromString proto data = None →
  ∃ s', same_cache s' s
    ∧ _handle_create pb_getattr (mk_single tid data) s = Raise DecodeError s'
    ∧ _handle_update pb_getattr (mk_single tid data) s = Raise DecodeError s'
    ∧ _handle_destroy pb_getattr (mk_single tid data) s = Raise DecodeError s'.
Proof.
  intros Htid Hproto Htruthy Hbad.
  pose proof (parse_undecodable pb_getattr tid t proto data s Htid Hproto Htruthy Hbad) as Hp.
  eexists. split; [|split; [|split]].
  2: { unfold _handle_create, _update_object. cbn [type_id object_data].
       by rewrite !bind_apply, Hp. }
  2: { unfold _handle_update, _update_object. cbn [type_id object_data].
       by rewrite !bind_apply, Hp. }
  2: { unfold _handle_destroy. cbn [type_id object_data]. by rewrite !bind_apply, Hp. }
  by repeat split.
Qed.

(** ** Update multiple *)

Lemma handle_update_no_break (m : CMsgSOSingleObject) (s s' : State) :
  (_handle_update pb_getattr m ≫= λ _, mret Continue) s ≠ Ok Break s'.
Proof.
  rewrite bind_apply. by destruct (_handle_update pb_getattr m s).
Qed.

Lemma update_multiple_app (pre post : list CMsgSOSingleObject) (s s1 : State) :
  _handle_update_multiple pb_getattr (mk_multiple pre) s = Ok tt s1 →
  _handle_update_multiple pb_getattr (mk_multiple (pre ++ post)) s
  = _handle_update_multiple pb_getattr (mk_multiple post) s1.
Proof.
  unfold _handle_update_multiple. cbn [objects_modified]. intros H.
  apply for_app; [|done]. intros x s0 _ s2. apply handle_update_no_break.
Qed.

(** An update-multiple notification applies its records in order.  A record
    whose type fails to parse is skipped and the records after it are
    applied; a record whose bytes do not decode raises [DecodeError]: the
    records before it have been applied, those after it are not. *)
Theorem update_multiple_failure (pre post : list CMsgSOSingleObject)
    (m : CMsgSOSingleObject) (s s1 : State) :
  _handle_update_multiple pb_getattr (mk_multiple pre) s = Ok tt s1 →
  (type_fails pb_getattr s1 (type_id m) →
   ∃ s2, same_cache s2 s1
         ∧ _handle_update_multiple pb_getattr (mk_multiple (pre ++ m :: post)) s
           = _handle_update_multiple pb_getattr (mk_multiple post) s2)
  ∧ (∀ t proto,
       ESOType_of (type_id m) = Some t →
       find_so_proto pb_getattr t = Some proto →
       truthy_fields (key_fields_in (so_key_fields s1) (DESCRIPTOR proto)) = true →
       FromString proto (object_data m) = None →
       ∃ s2, same_cache s2 s1
             ∧ _handle_update_multiple pb_getattr (mk_multiple (pre ++ m :: post)) s
               = Raise DecodeError s2).
Proof.
  intros Hpre. split.
  - intros Hfail.
    destruct (update_object_type_fails (type_id m) (object_data m) s1 Hfail)
      as (s2 & Hu & Hs2).
    exists s2. split; [done|]. rewrite (update_multiple_app pre _ s s1 Hpre).
    unfold _handle_update_multiple. cbn [objects_modified for_].
    rewrite bind_apply. unfold _handle_update at 1. by rewrite !bind_apply, Hu.
  - intros t proto Htid Hproto Htruthy Hbad.
    pose proof (parse_undecodable pb_getattr _ t proto _ s1 Htid Hproto Htruthy Hbad) as Hp.
    eexists. split; [|rewrite (update_multiple_app pre _ s s1 Hpre);
      unfold _handle_update_multiple; cbn [objects_modified for_];
      rewrite bind_apply; unfold _handle_update at 1, _update_object;
      by rewrite !bind_apply, Hp].
    by repeat split.
Qed.

End handlers.

Section runs.
Variable pb_getattr : PbModule → string → option Proto.
Variable set_iter : list Z → list Z.
Hypothesis distinct : descriptors_distinct pb_getattr.

(** ** Across notifications *)

Lemma update_object_shrinks_any (tid : Z) data (s : State) :
  shrinks_except pb_getattr (λ _, True) s (final (_update_object pb_getattr tid data s)).
Proof. eapply shrinks_weaken; [|by apply update_object_others]. done. Qed.

Lemma handle_update_shrinks_any (m : CMsgSOSingleObject) (s : State) :
  shrinks_except pb_getattr (λ _, True) s (final (_handle_update pb_getattr m s)).
Proof.
  unfold _handle_update. apply bind_shrinks; [apply update_object_shrinks_any|].
  intros [[t l]|] s' _; [apply emit_shrinks|apply shrinks_refl].
Qed.

Lemma handle_cache_subscribed_shrinks_any (m : CMsgSOCacheSubscribed) (s : State) :
  shrinks_except pb_getattr (λ _, True) s (final (_handle_cache_subscribed pb_getattr m s)).
Proof.
  unfold _handle_cache_subscribed. apply bind_shrinks; [by apply shrinks_same|].
  intros _ s' _. apply for_shrinks. intros g s0. unfold apply_group.
  apply bind_shrinks; [|intros; apply shrinks_refl].
  apply for_shrinks. intros data s2. unfold apply_object.
  apply bind_shrinks; [apply update_object_shrinks_any|].
  intros [[t l]|] s3 _; [|apply shrinks_refl].
  apply bind_shrinks; [apply emit_shrinks|intros; apply shrinks_refl].
Qed.

Lemma handle_shrinks_any (n : Notification) (s : State) :
  shrinks_except pb_getattr (λ _, True) s (final (handle pb_getattr set_iter n s)).
Proof.
  destruct n as [m|m|m|m|m|m|m| |x]; cbn [handle].
  - unfold _handle_create. apply bind_shrinks; [apply update_object_shrinks_any|].
    intros [[t l]|] s' _; [apply emit_shrinks|apply shrinks_refl].
  - apply handle_update_shrinks_any.
  - by apply destroy_shrinks.
  - unfold _handle_update_multiple. apply for_shrinks. intros x s0.
    apply bind_shrinks; [apply handle_update_shrinks_any|intros; apply shrinks_refl].
  - apply handle_cache_subscribed_shrinks_any.
  - apply unsubscribed_shrinks.
  - unfold _handle_client_welcome. apply for_shrinks. intros x s0.
    apply bind_shrinks; [apply handle_cache_subscribed_shrinks_any|intros; apply shrinks_refl].
  - apply cleanup_shrinks.
  - apply bind_shrinks; [apply getitem_shrinks|intros; apply shrinks_refl].
Qed.

(** The key fields of a shared-object type are the same before and after
    any sequence of notifications and lookups: what [get_so_key_fields]
    answers for the class of a type is never replaced, so a type keeps its
    key kind. *)
Theorem key_fields_stable (ns : list Notification) (s : State) (t : ESOType) (p : Proto) :
  find_so_proto pb_getattr t = Some p →
  key_fields_in (so_key_fields (handle_all pb_getattr set_iter ns s)) (DESCRIPTOR p)
  = key_fields_in (so_key_fields s) (DESCRIPTOR p).
Proof.
  intros Hp. revert s. induction ns as [|n ns IH]; intros s; [done|].
  unfold handle_all in *. cbn [foldl]. rewrite IH.
  destruct (handle_shrinks_any n s) as [[_ Hk] _]. exact (Hk t p Hp).
Qed.

Lemma handle_all_reachable (ns : list Notification) (s : State) :
  reachable pb_getattr set_iter s → reachable pb_getattr set_iter (handle_all pb_getattr set_iter ns s).
Proof.
  revert s. induction ns as [|n ns IH]; intros s Hs; [done|].
  unfold handle_all in *. cbn [foldl]. apply IH. by constructor.
Qed.

(** After any sequence of notifications and lookups from the initial state,
    whether or not handlers raised on the way, the container of a type
    without key is an object of the class of the type (or the empty dict
    that a lookup left), and the container of a keyed type is a dict without
    repeated keys whose values are objects of the class of the type. *)
Theorem containers_shaped (ns : list Notification) (t : ESOType) (p : Proto) :
  find_so_proto pb_getattr t = Some p →
  let s := handle_all pb_getattr set_iter ns init_state in
  let kf := key_fields_in (so_key_fields s) (DESCRIPTOR p) in
  match socache s !! value t with
  | None => True
  | Some (EObj l) =>
      kf = NO_KEY
      ∧ ∃ o, heap s !! l = Some o ∧ desc_id (obj_desc o) = desc_id (DESCRIPTOR p)
  | Some (EDict d) =>
      NoDup (dict_keys d)
      ∧ ∀ k l, dict_get k d = Some l →
          kf ≠ NO_KEY
          ∧ ∃ o, heap s !! l = Some o ∧ desc_id (obj_desc o) = desc_id (DESCRIPTOR p)
  end.
Proof.
  intros Hp. cbv zeta.
  assert (reachable pb_getattr set_iter (handle_all pb_getattr set_iter ns init_state)) as Hr
    by apply handle_all_reachable, reachable_init.
  exact (reachable_wf pb_getattr set_iter distinct _ Hr t p Hp).
Qed.

(** ** Create, then Destroy *)

(** In every reachable state, for a type with a key kind, a Create followed
    by a Destroy for the same key emits [new] and [removed] with the same
    reference; that object is no longer stored under the key and carries the
    decoded content of the Destroy record. *)
Theorem create_then_destroy (tid : Z) (t : ESOType) (proto : Proto)
    (data1 data2 : list Byte.byte) (c1 c2 : gmap string Z) (s : State) :
  reachable pb_getattr set_iter s →
  ESOType_of tid = Some t →
  find_so_proto pb_getattr t = Some proto →
  FromString proto data1 = Some c1 →
  FromString proto data2 = Some c2 →
  let desc := DESCRIPTOR proto in
  let kf := key_fields_in (so_key_fields s) desc in
  truthy_fields kf = true →
  key_of kf (mk_Obj desc c1) = key_of kf (mk_Obj desc c2) →
  ∃ l s1 s2,
    _handle_create pb_getattr (mk_single tid data1) s = Ok tt s1
    ∧ _handle_destroy pb_getattr (mk_single tid data2) s1 = Ok tt s2
    ∧ emitted s2 = emitted s ++ [(new, t, l); (removed, t, l)]
    ∧ instances s1 t (key_of kf (mk_Obj desc c1)) = [l]
    ∧ instances s2 t (key_of kf (mk_Obj desc c1)) = []
    ∧ content s2 l = Some c2.
Proof.
  intros Hr Htid Hproto Hd1 Hd2. cbv zeta. intros Htruthy Hkey.
  pose proof (reachable_wf pb_getattr set_iter distinct s Hr t proto Hproto) as Hws.
  destruct (update_object_stores pb_getattr tid t proto data1 c1 s Htid Hproto Hd1 Htruthy Hws)
    as (l & s' & Hrun1 & Hem1 & Hkf1 & Hc1 & Hinst1 & Hws1 & _ & _).
  set (s1 := set_emitted (λ es, es ++ [(new, t, l)]) s').
  assert (truthy_fields (key_fields_in (so_key_fields s1) (DESCRIPTOR proto)) = true)
    as Htruthy1 by (simpl; by rewrite Hkf1).
  destruct (shaped_destroy pb_getattr tid t proto data2 c2 s1 Htid Hproto Hd2 Htruthy1 Hws1)
    as (l2 & s2 & Hrun2 & Hem2 & Hc2 & Hinst2 & Hsame & _).
  simpl in Hinst2, Hsame. rewrite Hkf1 in Hinst2, Hsame.
  assert (l2 = l) as ->.
  { apply Hsame. rewrite <- Hkey.
    change (instances s1 t ?k) with (instances s' t k).
    rewrite Hinst1. by left. }
  exists l, s1, s2.
  split; [by apply handle_create_run|]. split; [done|].
  split. { rewrite Hem2. simpl. rewrite Hem1. by rewrite <- app_assoc. }
  split; [done|]. split; [by rewrite Hkey|done].
Qed.

End runs.

(** ** Cache unsubscribed, in general *)

(** The body of the loop over the keys of a dict container. *)
Local Abbreviation evict_key t := (λ key : Key,
  e ← __getitem__ (value t);
  match e with
  | EDict d1 =>
      match dict_get key d1 with
      | Some l =>
          __setitem__ t (EDict (dict_del key d1));;
          emit removed t l;;
          mret Continue
      | None => raise KeyError
      end
  | EObj _ => raise AttributeError
  end).

(** The body of the loop over the type ids of the Subscription Record. *)
Local Abbreviation evict_type := (λ type_id : Z,
  c ← gets socache;
  match c !! type_id with
  | None => mret Continue
  | Some _ =>
      type_id ← ESOType_call type_id;
      field ← __getitem__ (value type_id);
      match field with
      | EDict d => for_ (dict_keys d) (evict_key type_id)
      | EObj _ =>
          e ← pop type_id;
          match e with
          | EObj l => emit removed type_id l
          | EDict _ => mret tt
          end
      end;;
      __delitem__ type_id;;
      mret Continue
  end).

Lemma unsubscribed_loop (set_iter : list Z → list Z)
    (message : CMsgSOCacheUnsubscribed) (rec : CacheRec) (s : State) :
  _caches s !! unsub_owner_soid message = Some rec →
  _handle_cache_unsubscribed set_iter message s
  = (for_ (set_iter (type_ids rec)) evict_type;;
     modify (set_caches (delete (unsub_owner_soid message)))) s.
Proof.
  intros H. unfold _handle_cache_unsubscribed. rewrite bind_apply. unfold gets at 1.
  by rewrite H.
Qed.

Lemma evict_keys (t : ESOType) (d : pydict) (s : State) :
  socache s !! value t = Some (EDict d) →
  ∃ s', for_ (dict_keys d) (evict_key t) s = Ok tt s'
    ∧ socache s' = <[value t := EDict []]> (socache s)
    ∧ emitted s' = emitted s ++ ((λ kv, (removed, t, kv.2)) <$> d)
    ∧ _caches s' = _caches s ∧ heap s' = heap s.
Proof.
  revert s. induction d as [|[k v] d IH]; intros s Hs.
  - exists s. split; [done|]. by rewrite insert_id, app_nil_r.
  - set (s1 := set_emitted (λ es, es ++ [(removed, t, v)])
                 (set_socache <[value t := EDict d]> s)).
    assert (evict_key t k s = Ok Continue s1) as Hstep.
    { rewrite bind_apply, (getitem_value_present t _ s Hs).
      cbn [dict_get]. rewrite decide_True by done.
      cbn [dict_del]. by rewrite decide_True by done. }
    destruct (IH s1) as (s' & Hfor & Hso & Hem & Hca & Hh).
    { simpl. by rewrite lookup_insert_eq. }
    exists s'. split.
    { change (dict_keys ((k, v) :: d)) with (k :: dict_keys d).
      by rewrite (for_cons_continue k (dict_keys d) (evict_key t) s s1 Hstep). }
    split; [rewrite Hso; simpl; by rewrite insert_insert_eq|].
    split; [rewrite Hem; simpl; by rewrite <- app_assoc|]. done.
Qed.

Lemma evict_type_ok (tz : Z) (s : State) :
  (∀ e, socache s !! tz = Some e → is_Some (ESOType_of tz) ∧ ∃ d, e = EDict d) →
  ∃ s', evict_type tz s = Ok Continue s'
    ∧ socache s' = delete tz (socache s)
    ∧ emitted s' = emitted s ++ evicted s tz
    ∧ _caches s' = _caches s ∧ heap s' = heap s.
Proof.
  intros Hok. unfold evicted.
  destruct (socache s !! tz) as [e|] eqn:He.
  - destruct (Hok e eq_refl) as [[t Ht] [d ->]].
    pose proof (ESOType_of_Some _ _ Ht) as <-.
    destruct (evict_keys t d s He) as (s1 & Hfor & Hso & Hem & Hca & Hh).
    exists (set_socache (delete (value t)) s1). split.
    { rewrite bind_apply. unfold gets at 1. rewrite He.
      rewrite bind_apply. unfold ESOType_call. rewrite Ht.
      revert Hfor. mrun. rewrite (getitem_value_present t _ s He). intros ->.
      unfold __delitem__. mrun. by rewrite Hso, lookup_insert_eq. }
    simpl. rewrite Hso, delete_insert_eq, Ht. done.
  - exists s. split; [rewrite bind_apply; unfold gets at 1; by rewrite He|].
    rewrite delete_id by done.
    split; [done|]. split; [|done]. destruct (ESOType_of tz); by rewrite app_nil_r.
Qed.

Lemma evicted_other (tids : list Z) (tz : Z) (s s1 : State) :
  tz ∉ tids → socache s1 = delete tz (socache s) →
  flat_map (evicted s1) tids = flat_map (evicted s) tids.
Proof.
  intros Hnot Hso. induction tids as [|x tids IH]; [done|].
  apply not_elem_of_cons in Hnot as [Hne Hnot]. cbn [flat_map].
  rewrite IH by done. f_equal. unfold evicted.
  by rewrite Hso, lookup_delete_ne.
Qed.

Lemma evict_types (tids : list Z) (s : State) :
  NoDup tids →
  (∀ tz e, tz ∈ tids → socache s !! tz = Some e →
           is_Some (ESOType_of tz) ∧ ∃ d, e = EDict d) →
  ∃ s', for_ tids evict_type s = Ok tt s'
    ∧ (∀ tz, socache s' !! tz = if decide (tz ∈ tids) then None else socache s !! tz)
    ∧ emitted s' = emitted s ++ flat_map (evicted s) tids
    ∧ _caches s' = _caches s ∧ heap s' = heap s.
Proof.
  intros Hnd. revert s. induction Hnd as [|tz tids Hnot Hnd IH]; intros s Hok.
  - exists s. split; [done|]. split; [done|]. by rewrite app_nil_r.
  - destruct (evict_type_ok tz s) as (s1 & Hstep & Hso & Hem & Hca & Hh).
    { intros e. apply Hok. by left. }
    destruct (IH s1) as (s' & Hfor & Hso' & Hem' & Hca' & Hh').
    { intros x e Hx. rewrite Hso, lookup_delete_ne by (by intros ->).
      apply Hok. by right. }
    exists s'. split; [by rewrite (for_cons_continue tz tids evict_type s s1 Hstep)|].
    split.
    { intros x. rewrite Hso', Hso.
      destruct (decide (x = tz)) as [->|Hne].
      - rewrite lookup_delete_eq, (decide_True (P := tz ∈ tz :: tids)) by by left.
        by destruct (decide _).
      - rewrite lookup_delete_ne by done.
        destruct (decide (x ∈ tids)) as [Hx|Hx].
        + by rewrite decide_True by by right.
        + rewrite decide_False; [done|]. by intros [?|?]%elem_of_cons. }
    split; [|by rewrite Hca', Hh'].
    rewrite Hem', Hem, (evicted_other tids tz s s1) by done.
    cbn [flat_map]. by rewrite <- app_assoc.
Qed.

(** A cache-unsubscribed notification for an owner whose recorded types all
    have dict containers (or none): the handler returns; every instance of
    those types is emitted in a [removed] event, type after type in the
    order in which the set of recorded type ids is iterated, whichever it
    is, and, within a type, in the order of its dict; the containers of
    those types and the Subscription Record are deleted; the other
    containers and the objects are as before. *)
Theorem unsubscribed_evicts (set_iter : list Z → list Z)
    (message : CMsgSOCacheUnsubscribed) (rec : CacheRec) (s : State) :
  set_iterates set_iter →
  _caches s !! unsub_owner_soid message = Some rec →
  NoDup (type_ids rec) →
  (∀ tz e, tz ∈ type_ids rec → socache s !! tz = Some e →
           is_Some (ESOType_of tz) ∧ ∃ d, e = EDict d) →
  ∃ s', _handle_cache_unsubscribed set_iter message s = Ok tt s'
    ∧ (∀ tz, socache s' !! tz
             = if decide (tz ∈ type_ids rec) then None else socache s !! tz)
    ∧ _caches s' = delete (unsub_owner_soid message) (_caches s)
    ∧ emitted s' = emitted s ++ flat_map (evicted s) (set_iter (type_ids rec))
    ∧ heap s' = heap s.
Proof.
  intros Hiter Hrec Hnd Hok. pose proof (Hiter (type_ids rec)) as Hperm.
  destruct (evict_types (set_iter (type_ids rec)) s) as (s1 & Hfor & Hso & Hem & Hca & Hh).
  { by rewrite Hperm. }
  { intros tz e Hin. apply Hok. by rewrite <- Hperm. }
  exists (set_caches (delete (unsub_owner_soid message)) s1).
  split; [by rewrite (unsubscribed_loop set_iter message rec s Hrec), bind_apply, Hfor|].
  split.
  { intros tz. rewrite Hso. destruct (decide (tz ∈ set_iter (type_ids rec))) as [Hin|Hin].
    - rewrite decide_True; [done|]. by rewrite <- Hperm.
    - rewrite decide_False; [done|]. by rewrite <- Hperm. }
  split; [simpl; by rewrite Hca|]. done.
Qed.

Lemma bind_no_break {A} (m : M A) (f : A → M LoopCtl) (s s' : State) :
  (∀ a s0, f a s0 ≠ Ok Break s') → (m ≫= f) s ≠ Ok Break s'.
Proof. intros Hf. rewrite bind_apply. by destruct (m s). Qed.

Lemma evict_type_no_break (tz : Z) (s s' : State) : evict_type tz s ≠ Ok Break s'.
Proof.
  cbv beta. rewrite bind_apply. unfold gets at 1. destruct (socache s !! tz); [|done].
  apply bind_no_break. intros t s0. apply bind_no_break. intros field s1.
  rewrite bind_apply. destruct (_ s1) as [? s2|]; [|done].
  rewrite bind_apply. by destruct (__delitem__ t s2).
Qed.

(** A cache-unsubscribed notification that reaches, in the iteration of the
    set of recorded type ids, a type whose container is an object (a type
    without key): the handler emits the [removed] event for that object and
    then raises [KeyError], because [self.pop(type_id)] has deleted the
    container that [del self[type_id]] deletes again.  The types that the
    iteration visited before it have been evicted; the containers of the
    types that it would have visited afterwards and the Subscription Record
    stay. *)
Theorem unsubscribed_object_raises (set_iter : list Z → list Z)
    (message : CMsgSOCacheUnsubscribed) (rec : CacheRec)
    (pre post : list Z) (tz : Z) (t : ESOType) (l : loc) (s : State) :
  set_iterates set_iter →
  _caches s !! unsub_owner_soid message = Some rec →
  set_iter (type_ids rec) = pre ++ tz :: post →
  NoDup (type_ids rec) →
  (∀ tz' e, tz' ∈ pre → socache s !! tz' = Some e →
            is_Some (ESOType_of tz') ∧ ∃ d, e = EDict d) →
  ESOType_of tz = Some t →
  socache s !! tz = Some (EObj l) →
  ∃ s', _handle_cache_unsubscribed set_iter message s = Raise KeyError s'
    ∧ (∀ tz', socache s' !! tz'
              = if decide (tz' ∈ pre ++ [tz]) then None else socache s !! tz')
    ∧ _caches s' = _caches s
    ∧ emitted s' = emitted s ++ flat_map (evicted s) pre ++ [(removed, t, l)]
    ∧ heap s' = heap s.
Proof.
  intros Hiter Hrec Hids Hnd Hok Ht Hobj.
  rewrite <- (Hiter (type_ids rec)), Hids in Hnd.
  apply NoDup_app in Hnd as (Hnd & Hdisj & _).
  assert (tz ∉ pre) as Hnot by (intros Hin; apply (Hdisj tz Hin); by left).
  destruct (evict_types pre s Hnd Hok) as (s1 & Hfor & Hso & Hem & Hca & Hh).
  pose proof (ESOType_of_Some _ _ Ht) as Hv.
  assert (socache s1 !! tz = Some (EObj l)) as Hobj0
    by (by rewrite Hso, decide_False by done).
  assert (socache s1 !! value t = Some (EObj l)) as Hobj1 by by rewrite Hv.
  set (s2 := set_emitted (λ es, es ++ [(removed, t, l)])
               (set_socache (delete (value t)) s1)).
  assert (evict_type tz s1 = Raise KeyError s2) as Hstep.
  { cbv beta. rewrite bind_apply. unfold gets at 1. rewrite Hobj0.
    rewrite bind_apply. unfold ESOType_call. rewrite Ht. mrun.
    rewrite (getitem_value_present t _ s1 Hobj1).
    unfold pop, __delitem__, emit. mrun. rewrite Hobj1. simpl.
    by rewrite lookup_delete_eq. }
  exists s2. split.
  { rewrite (unsubscribed_loop set_iter message rec s Hrec), bind_apply, Hids.
    rewrite (for_app pre (tz :: post) _ s s1);
      [|intros; apply evict_type_no_break|done].
    by rewrite (for_cons_raise tz post evict_type s1 s2 KeyError Hstep). }
  split.
  { intros x. simpl. rewrite Hv. destruct (decide (x = tz)) as [->|Hne].
    - rewrite lookup_delete_eq, decide_True; [done|].
      apply elem_of_app. right. by left.
    - rewrite lookup_delete_ne, Hso by done.
      destruct (decide (x ∈ pre)) as [Hx|Hx].
      + rewrite decide_True; [done|]. apply elem_of_app. by left.
      + rewrite decide_False; [done|].
        intros [?|?%list_elem_of_singleton]%elem_of_app; done. }
  split; [done|]. split; [|done].
  simpl. rewrite Hem. by rewrite <- app_assoc.
Qed.

(** ** The properties at concrete notifications *)

Import Byte.

Local Abbreviation item_proto :=
  (example.proto_of _gc_base "CSOEconItem" [("id"%string, []); ("quantity"%string, [])]).

(** A Create, an Update and a Destroy of the unknown type 99. *)
Lemma unparsable_type_ignored_witness :
  type_fails example.pb_getattr init_state 99
  ∧ (∃ s', _handle_create example.pb_getattr (mk_single 99 [x01]) init_state = Ok tt s'
           ∧ same_cache s' init_state)
  ∧ (∃ s', _handle_update example.pb_getattr (mk_single 99 [x01]) init_state = Ok tt s'
           ∧ same_cache s' init_state)
  ∧ (∃ s', _handle_destroy example.pb_getattr (mk_single 99 [x01]) init_state = Ok tt s'
           ∧ same_cache s' init_state).
Proof.
  assert (type_fails example.pb_getattr init_state 99) as H by exact I.
  split; [exact H|].
  exact (unparsable_type_ignored example.pb_getattr 99 [x01] init_state H).
Defined.

(** An item record of one byte, where the class reads two. *)
Lemma undecodable_record_raises_witness :
  ∃ s', same_cache s' init_state
    ∧ _handle_create example.pb_getattr (mk_single 1 [x01]) init_state = Raise DecodeError s'
    ∧ _handle_update example.pb_getattr (mk_single 1 [x01]) init_state = Raise DecodeError s'
    ∧ _handle_destroy example.pb_getattr (mk_single 1 [x01]) init_state = Raise DecodeError s'.
Proof.
  apply (undecodable_record_raises example.pb_getattr 1 CSOEconItem item_proto [x01]
           init_state); vm_compute; reflexivity.
Defined.

(** A record of the unknown type 99 before the item with id 5. *)
Lemma update_multiple_failure_witness :
  ∃ s2, same_cache s2 init_state
    ∧ _handle_update_multiple example.pb_getattr
        (mk_multiple ([] ++ mk_single 99 [x01] :: [mk_single 1 [x05; x01]])) init_state
      = _handle_update_multiple example.pb_getattr
          (mk_multiple [mk_single 1 [x05; x01]]) s2.
Proof.
  apply (update_multiple_failure example.pb_getattr [] [mk_single 1 [x05; x01]]
           (mk_single 99 [x01]) init_state init_state eq_refl).
  exact I.
Defined.

(** The key fields of the item class after a Create, a lookup and the
    ready event. *)
Lemma key_fields_stable_witness :
  key_fields_in
    (so_key_fields
       (handle_all example.pb_getattr example.set_iter
          [Create (mk_single 1 [x05; x01]); Lookup 7; Ready] init_state))
    (DESCRIPTOR item_proto)
  = key_fields_in (so_key_fields init_state) (DESCRIPTOR item_proto).
Proof.
  apply (key_fields_stable example.pb_getattr example.set_iter example_distinct _ init_state CSOEconItem).
  reflexivity.
Defined.

(** The container of the items after two Creates and an Update. *)
Lemma containers_shaped_witness :
  let s := handle_all example.pb_getattr example.set_iter
             [Create (mk_single 1 [x05; x01]); Create (mk_single 1 [x06; x01]);
              Update (mk_single 1 [x05; x02])] init_state in
  let kf := key_fields_in (so_key_fields s) (DESCRIPTOR item_proto) in
  match socache s !! value CSOEconItem with
  | None => True
  | Some (EObj l) =>
      kf = NO_KEY
      ∧ ∃ o, heap s !! l = Some o ∧ desc_id (obj_desc o) = desc_id (DESCRIPTOR item_proto)
  | Some (EDict d) =>
      NoDup (dict_keys d)
      ∧ ∀ k l, dict_get k d = Some l →
          kf ≠ NO_KEY
          ∧ ∃ o, heap s !! l = Some o ∧ desc_id (obj_desc o) = desc_id (DESCRIPTOR item_proto)
  end.
Proof.
  apply (containers_shaped example.pb_getattr example.set_iter example_distinct
           [Create (mk_single 1 [x05; x01]); Create (mk_single 1 [x06; x01]);
            Update (mk_single 1 [x05; x02])] CSOEconItem item_proto).
  reflexivity.
Defined.

(** A Create and a Destroy of the item with id 5, in the empty cache. *)
Lemma create_then_destroy_witness :
  ∃ l s1 s2,
    _handle_create example.pb_getattr (mk_single 1 [x05; x01]) init_state = Ok tt s1
    ∧ _handle_destroy example.pb_getattr (mk_single 1 [x05; x00]) s1 = Ok tt s2
    ∧ emitted s2 = emitted init_state ++ [(new, CSOEconItem, l); (removed, CSOEconItem, l)]
    ∧ instances s1 CSOEconItem (KVal 5) = [l]
    ∧ instances s2 CSOEconItem (KVal 5) = []
    ∧ content s2 l = Some (list_to_map [("id"%string, 5); ("quantity"%string, 0)]).
Proof.
  assert (key_of (key_fields_in (so_key_fields init_state) (DESCRIPTOR item_proto))
            (mk_Obj (DESCRIPTOR item_proto)
                    (list_to_map [("id"%string, 5); ("quantity"%string, 1)])) = KVal 5) as Hk
    by (vm_compute; reflexivity).
  rewrite <- Hk.
  apply (create_then_destroy example.pb_getattr example.set_iter example_distinct 1 CSOEconItem item_proto
           [x05; x01] [x05; x00]
           (list_to_map [("id"%string, 5); ("quantity"%string, 1)])
           (list_to_map [("id"%string, 5); ("quantity"%string, 0)]) init_state);
    [apply reachable_init | reflexivity | reflexivity | reflexivity
    | reflexivity | vm_compute; reflexivity | vm_compute; reflexivity].
Defined.

(** A default equipment and the items with ids 5 and 6 arrive in a
    cache-subscribed notification of owner (1, 100), which is then
    unsubscribed; the set of the record, filled with 43 and then 1, is
    iterated as 1, 43. *)
Lemma unsubscribed_evicts_witness :
  let s := final (_handle_cache_subscribed example.pb_getattr
                    (mk_subscribed (1, 100) 1
                       [mk_subscribed_type 43 [[x09; x01; x02; x03]];
                        mk_subscribed_type 1 [[x05; x01]; [x06; x01]]]) init_state) in
  ∃ s', _handle_cache_unsubscribed example.set_iter (mk_unsubscribed (1, 100)) s = Ok tt s'
    ∧ (∀ tz, socache s' !! tz = if decide (tz ∈ [43; 1]) then None else socache s !! tz)
    ∧ _caches s' = delete (1, 100) (_caches s)
    ∧ emitted s' = emitted s ++ flat_map (evicted s) (example.set_iter [43; 1])
    ∧ heap s' = heap s.
Proof.
  intros s.
  apply (unsubscribed_evicts example.set_iter (mk_unsubscribed (1, 100))
           (mk_CacheRec 1 [43; 1]) s).
  - apply example_set_iterates.
  - vm_compute; reflexivity.
  - apply NoDup_cons. split; [intros [=]%list_elem_of_singleton|apply NoDup_singleton].
  - intros tz e [->| ->%list_elem_of_singleton]%elem_of_cons He;
      vm_compute in He; injection He as <-; split; by eexists.
Defined.

(** The events of that eviction: the two items first. *)
Example unsubscribed_evicts_order :
  let s := final (_handle_cache_subscribed example.pb_getattr
                    (mk_subscribed (1, 100) 1
                       [mk_subscribed_type 43 [[x09; x01; x02; x03]];
                        mk_subscribed_type 1 [[x05; x01]; [x06; x01]]]) init_state) in
  emitted (final (_handle_cache_unsubscribed example.set_iter (mk_unsubscribed (1, 100)) s))
  = [(new, CSOEconDefaultEquippedDefinitionInstanceClient, 0%nat);
     (new, CSOEconItem, 1%nat); (new, CSOEconItem, 2%nat);
     (removed, CSOEconItem, 1%nat); (removed, CSOEconItem, 2%nat);
     (removed, CSOEconDefaultEquippedDefinitionInstanceClient, 0%nat)].
Proof. vm_compute. reflexivity. Qed.

(** The account object (type 7) and then the item with id 5 arrive in a
    cache-subscribed notification of owner (1, 100), which is then
    unsubscribed; the set of the record, filled with 7 and then 1, is
    iterated as 1, 7: the item is evicted before the handler raises. *)
Lemma unsubscribed_object_raises_witness :
  let s := final (_handle_cache_subscribed example.pb_getattr
                    (mk_subscribed (1, 100) 1
                       [mk_subscribed_type 7 [[x03]];
                        mk_subscribed_type 1 [[x05; x01]]]) init_state) in
  ∃ s', _handle_cache_unsubscribed example.set_iter (mk_unsubscribed (1, 100)) s
        = Raise KeyError s'
    ∧ (∀ tz', socache s' !! tz'
              = if decide (tz' ∈ [1] ++ [7]) then None else socache s !! tz')
    ∧ _caches s' = _caches s
    ∧ emitted s' = emitted s ++ flat_map (evicted s) [1]
                     ++ [(removed, CSOEconGameAccountClient, 0%nat)]
    ∧ heap s' = heap s.
Proof.
  intros s.
  apply (unsubscribed_object_raises example.set_iter (mk_unsubscribed (1, 100))
           (mk_CacheRec 1 [7; 1]) [1] [] 7 CSOEconGameAccountClient 0%nat s).
  - apply example_set_iterates.
  - vm_compute; reflexivity.
  - reflexivity.
  - apply NoDup_cons. split; [intros [=]%list_elem_of_singleton|apply NoDup_singleton].
  - intros tz' e ->%list_elem_of_singleton He. vm_compute in He. injection He as <-.
    split; by eexists.
  - reflexivity.
  - vm_compute; reflexivity.
Defined.

End sharedobjects_more.

(** * More on the client *)
Module client_more.
Import common_enums pymonad client pymonad_facts client_facts client_calls.

Section status.
Variable env : Env.

(** ** Status writes *)

Lemma set_status_run (status : Z) (c : Client) :
  is_GCConnectionStatus env status = true →
  ∃ c',
    _set_connection_status env status c = Ok tt c'
    ∧ connection_status c' = status
    ∧ ready c' = bool_decide (status = HAVE_SESSION env)
    ∧ published c'
      = published c ++ status_changed c status
          ++ (if bool_decide (ready c' = ready c) then []
              else [(KStr (if ready c' then EVENT_READY else EVENT_NOT_READY), PNone)])
    ∧ current_jobid c' = current_jobid c
    ∧ sent c' = sent c
    ∧ listeners c' = listeners c
    ∧ messages c' = messages c.
Proof.
  intros Hvalid. unfold _set_connection_status, status_changed. mrun.
  rewrite Hvalid. mrun. rewrite bool_decide_not.
  destruct c as [cs r j so ms pub ls snt pend]. cbn [connection_status ready].
  destruct (decide (status ≠ cs)) as [Hch|Hch];
    destruct (bool_decide (status = HAVE_SESSION env)) eqn:Hs; destruct r;
    unfold emit_str, spawn; mrun; simpl; mrun; simpl; rewrite ?Hs; simpl; mrun; simpl;
    (eexists; split; [reflexivity|]); simpl; rewrite <- ?app_assoc, ?app_nil_r;
    cbn [bool_decide]; repeat split; try done.
Qed.

(** A status write either raises [ValueError], for a value that is no
    [GCConnectionStatus], and changes nothing; or it returns, the status is
    the one written, and the client is ready exactly when that status is
    [HAVE_SESSION].  It emits the connection-status event if the status
    changed, then the ready or the not-ready event if the ready flag
    changed, and nothing else; job counter, listeners and transport are not
    touched. *)
Theorem status_write_outcome (status : Z) (c : Client) :
  (is_GCConnectionStatus env status = false →
   _set_connection_status env status c = Raise ValueError c)
  ∧ (is_GCConnectionStatus env status = true →
     ∃ c',
       _set_connection_status env status c = Ok tt c'
       ∧ connection_status c' = status
       ∧ ready c' = bool_decide (status = HAVE_SESSION env)
       ∧ published c'
         = published c ++ status_changed c status
             ++ (if bool_decide (ready c' = ready c) then []
                 else [(KStr (if ready c' then EVENT_READY else EVENT_NOT_READY), PNone)])
       ∧ current_jobid c' = current_jobid c
       ∧ sent c' = sent c
       ∧ listeners c' = listeners c
       ∧ messages c' = messages c).
Proof. split; [apply set_status_invalid|apply set_status_run]. Qed.

(** Writing again the status that a write has just set does nothing: no
    event, no greenlet, no change of the ready flag or of the cache. *)
Theorem status_write_idempotent (status : Z) (c c' : Client) :
  _set_connection_status env status c = Ok tt c' →
  _set_connection_status env status c' = Ok tt c'.
Proof.
  intros Hrun.
  destruct (is_GCConnectionStatus env status) eqn:Hvalid;
    [|by rewrite set_status_invalid in Hrun].
  destruct (set_status_run status c Hvalid) as (c1 & Hrun1 & Hst & Hr & _).
  rewrite Hrun1 in Hrun. injection Hrun as ->.
  unfold _set_connection_status. mrun. rewrite Hvalid. mrun.
  rewrite bool_decide_not.
  destruct c' as [cs r j so ms pub ls snt pend]. cbn [connection_status ready] in *.
  subst cs. rewrite decide_False by (by intros ?). mrun. simpl.
  rewrite Hr. by destruct (bool_decide (status = HAVE_SESSION env)).
Qed.

(** ** The play-session state *)

(** [_handle_play_sess_state] on a client that is not ready returns and
    changes nothing, whatever the message.  On a ready client it reads
    [message.playing_app]: when the message has no such attribute, as the
    [MsgProto] that the steam client hands to its listeners, the handler
    raises [AttributeError] and the client stays ready with its status;
    when the attribute is the client's own app (730) nothing changes; when
    it is another app, in an environment where [NO_SESSION] is a status
    other than [HAVE_SESSION], the client becomes not ready with the
    not-ready event, and its cache and greenlets are as before. *)
Theorem play_sess_state_outcome (playing_app : option Z) (c : Client) :
  is_GCConnectionStatus env (NO_SESSION env) = true →
  NO_SESSION env ≠ HAVE_SESSION env →
  (ready c = false → _handle_play_sess_state env playing_app c = Ok tt c)
  ∧ (ready c = true → playing_app = None →
     _handle_play_sess_state env playing_app c = Raise AttributeError c)
  ∧ (ready c = true → playing_app = Some app_id →
     _handle_play_sess_state env playing_app c = Ok tt c)
  ∧ (∀ app, ready c = true → playing_app = Some app → app ≠ app_id →
     ∃ c',
       _handle_play_sess_state env playing_app c = Ok tt c'
       ∧ ready c' = false
       ∧ connection_status c' = NO_SESSION env
       ∧ published c'
         = published c ++ status_changed c (NO_SESSION env)
             ++ [(KStr EVENT_NOT_READY, PNone)]
       ∧ socache c' = socache c
       ∧ pending c' = pending c).
Proof.
  intros Hvalid Hne. unfold _handle_play_sess_state. mrun.
  split; [by intros ->|]. split; [by intros -> ->|]. split.
  - intros -> ->. by rewrite bool_decide_eq_false_2 by (by intros ?).
  - intros app Hready -> Happ. rewrite Hready, bool_decide_eq_true_2 by done.
    destruct (not_ready_edge env (NO_SESSION env) c Hready Hvalid Hne)
      as (c' & Hrun & Hr & Hst & Hpub & Hso & _ & Hpend).
    by exists c'.
Qed.

End status.

(** ** Sending *)

Section sending.
Variable env : Env.

(** The dict that [_send] fills the message from. *)
Local Abbreviation dict_of_data data :=
  (match data with DataDict d => d | _ => ∅ end).

(** The exception that [_send] raises, if it does: [ValueError] for data
    that is no dict and for a missing or wrong class, [TypeError] of
    [issubclass] for a [proto] that is no class, or what
    [proto_fill_from_dict] raises. *)
Local Abbreviation send_error emsg data proto :=
  (match data with
   | DataOther => Some ValueError
   | _ =>
       match proto with
       | ProtoNone =>
           match find_proto env emsg with
           | Some _ => fill_from_dict env emsg (dict_of_data data)
           | None => Some ValueError
           end
       | ProtoClass true fill => fill (dict_of_data data)
       | ProtoClass false _ => Some ValueError
       | ProtoNotClass => Some TypeError
       end
   end).

Lemma send_raw_run (emsg : Z) (data : DataArg) (proto : ProtoArg) (jobid : option Z)
    (c : Client) :
  _send env emsg data proto jobid c
  = match send_error emsg data proto with
    | None => Ok tt (set_sent (λ l, l ++ [(emsg, jobid, dict_of_data data)]) c)
    | Some e => Raise e c
    end.
Proof.
  unfold _send. destruct data; try done.
  - destruct proto as [|[] fill|]; mrun; try done.
    + destruct (find_proto env emsg); [|done]. by destruct (fill_from_dict env emsg ∅).
    + by destruct (fill ∅).
  - destruct proto as [|[] fill|]; mrun; try done.
    + destruct (find_proto env emsg); [|done]. by destruct (fill_from_dict env emsg d).
    + by destruct (fill d).
Qed.

Lemma send_job_run (emsg : Z) (data : DataArg) (proto : ProtoArg) (c : Client) :
  let id := next_jobid (current_jobid c) in
  let c1 := set_listeners (delete (job_key id)) (set_current_jobid id c) in
  send_job env emsg data proto c
  = match send_error emsg data proto with
    | None => Ok (job_key id) (set_sent (λ l, l ++ [(emsg, Some id, dict_of_data data)]) c1)
    | Some e => Raise e c1
    end.
Proof.
  cbv zeta. unfold send_job. mrun. cbn [current_jobid set_current_jobid].
  rewrite send_raw_run. by destruct (send_error emsg data proto).
Qed.

Lemma send_run_none (emsg : Z) (data : DataArg) (proto : ProtoArg) (c : Client) :
  send env emsg data proto c
  = match send_error emsg data proto with
    | None => Ok tt (set_sent (λ l, l ++ [(emsg, None, dict_of_data data)]) c)
    | Some e => Raise e c
    end.
Proof. unfold send. rewrite send_raw_run. by destruct data. Qed.


(** [send] and [send_job] on the same arguments: both raise, the same
    exception and with nothing handed to the transport, or both return and
    hand the same message to the transport, [send_job] with its new id as
    source job id and [send] without one.  [send] changes nothing else, and
    after an exception nothing at all. *)
Theorem send_job_like_send (emsg : Z) (data : DataArg) (proto : ProtoArg) (c : Client) :
  match send env emsg data proto c, send_job env emsg data proto c with
  | Ok _ c1, Ok key c2 =>
      ∃ d, c1 = set_sent (λ l, l ++ [(emsg, None, d)]) c
           ∧ sent c2 = sent c ++ [(emsg, Some (current_jobid c2), d)]
           ∧ key = job_key (current_jobid c2)
  | Raise e1 c1, Raise e2 c2 => e1 = e2 ∧ c1 = c ∧ sent c2 = sent c
  | _, _ => False
  end.
Proof.
  rewrite send_run_none, send_job_run. destruct (send_error emsg data proto); [done|].
  by eexists.
Qed.

(** ** Replies to jobs *)

Lemma job_key_inj (a b : Z) : job_key a = job_key b → a = b.
Proof.
  unfold job_key. intros H. apply (inj pretty).
  by apply (inj (String.append "job_")) in H.
Qed.

(** The key that [send_job] returns is the key under which a reply is
    published: for a message that decodes and whose header has the id of
    the job as target job id, [_process_gc_message] publishes the message
    under the key of its type and then under that key, and nothing else; a
    header with another target job id is not published under it. *)
Theorem job_reply_routed (emsg : Z) (data : DataArg) (proto : ProtoArg) (c c1 : Client)
    (key : string) :
  send_job env emsg data proto c = Ok key c1 →
  ∃ id,
    1 <= id <= 9999
    ∧ last (sent c1) = Some (emsg, Some id, dict_of_data data)
    ∧ (∀ j, job_key j = key ↔ j = id)
    ∧ ∀ (c2 : Client) (emsg' : Z) (header : Header) (payload : list Byte.byte)
        (parse : list Byte.byte → option GCMessage) (message : GCMessage),
        find_proto env (get_emsg_enum env emsg') = Some parse →
        parse payload = Some message →
        job_id_target header = id →
        ∃ c3,
          _process_gc_message env emsg' header payload c2 = Ok tt c3
          ∧ published c3
            = published c2 ++ [(KEnum (get_emsg_enum env emsg'),
                                PMessage (length (messages c2)));
                               (KStr key, PMessage (length (messages c2)))]
          ∧ last (published c3) = Some (KStr key, PMessage (length (messages c2)))
          ∧ messages c3 !! length (messages c2) = Some message.
Proof.
  rewrite send_job_run. intros Hrun.
  destruct (send_error emsg data proto); [done|]. injection Hrun as <- <-.
  exists (next_jobid (current_jobid c)).
  pose proof (next_jobid_range (current_jobid c)) as Hrange.
  split; [done|]. split; [cbn [sent set_sent]; by rewrite last_snoc|].
  split; [intros j; split; [apply job_key_inj|by intros ->]|].
  intros c2 emsg' header payload parse message Hfind Hparse Htarget.
  unfold _process_gc_message. rewrite Hfind, Hparse. unfold emit_message. mrun.
  rewrite decide_True by lia.
  unfold emit_str. mrun. rewrite job_key_not_ready. mrun.
  eexists. split; [done|]. cbn [published set_published set_pending set_messages messages].
  rewrite Htarget, <- app_assoc. split; [done|].
  split; [by rewrite (app_assoc _ [_] [_]), last_snoc|].
  by rewrite list_lookup_middle.
Qed.

(** ** An inbound connection-status message *)



End sending.

(** ** The properties at a concrete client *)

(** The write of the status 3, then again. *)
Lemma status_write_idempotent_witness :
  let c' := final (_set_connection_status example.env 3 (init_client example.env)) in
  _set_connection_status example.env 3 c' = Ok tt c'.
Proof.
  intros c'.
  apply (status_write_idempotent example.env 3 (init_client example.env) c').
  reflexivity.
Defined.

(** The handler on a ready client, with a message without the attribute
    and with messages of the apps 730 and 10. *)
Lemma play_sess_state_outcome_witness :
  let c := example.ready_client in
  let playing_app : option Z := None in
  (ready c = false → _handle_play_sess_state example.env playing_app c = Ok tt c)
  ∧ (ready c = true → playing_app = None →
     _handle_play_sess_state example.env playing_app c = Raise AttributeError c)
  ∧ (ready c = true → playing_app = Some app_id →
     _handle_play_sess_state example.env playing_app c = Ok tt c)
  ∧ (∀ app, ready c = true → playing_app = Some app → app ≠ app_id →
     ∃ c',
       _handle_play_sess_state example.env playing_app c = Ok tt c'
       ∧ ready c' = false
       ∧ connection_status c' = NO_SESSION example.env
       ∧ published c'
         = published c ++ status_changed c (NO_SESSION example.env)
             ++ [(KStr EVENT_NOT_READY, PNone)]
       ∧ socache c' = socache c
       ∧ pending c' = pending c).
Proof.
  intros c playing_app.
  apply (play_sess_state_outcome example.env playing_app c); [reflexivity|done].
Defined.

Example play_sess_state_runs :
  _handle_play_sess_state example.env None example.ready_client
  = Raise AttributeError example.ready_client
  ∧ _handle_play_sess_state example.env (Some 730) example.ready_client
    = Ok tt example.ready_client
  ∧ ready (final (_handle_play_sess_state example.env (Some 10) example.ready_client))
    = false
  ∧ _handle_play_sess_state example.env None (init_client example.env)
    = Ok tt (init_client example.env).
Proof. repeat split; vm_compute; reflexivity. Qed.

(** The ways in which [send] raises, and a message that is sent. *)
Example send_runs :
  let c := init_client example.env in
  send example.env 9999 DataOther ProtoNone c = Raise ValueError c
  ∧ send example.env 1 DataNone ProtoNone c = Raise ValueError c
  ∧ send example.env 1 DataNone (ProtoClass false (λ _, None)) c = Raise ValueError c
  ∧ send example.env 1 DataNone ProtoNotClass c = Raise TypeError c
  ∧ send example.env 9999 (DataDict {[ "n_a"%string := 1 ]}) ProtoNone c = Raise KeyError c
  ∧ sent (final (send example.env 9999 DataNone ProtoNone c)) = [(9999, None, ∅)].
Proof. repeat split; vm_compute; reflexivity. Qed.

(** A job sent from the initial client, and its reply. *)
Lemma job_reply_routed_witness :
  ∃ id,
    1 <= id <= 9999
    ∧ last (sent (final (send_job example.env 9999 DataNone ProtoNone
                           (init_client example.env))))
      = Some (9999, Some id, ∅)
    ∧ (∀ j, job_key j = "job_1"%string ↔ j = id)
    ∧ ∀ (c2 : Client) (emsg' : Z) (header : Header) (payload : list Byte.byte)
        (parse : list Byte.byte → option GCMessage) (message : GCMessage),
        find_proto example.env (get_emsg_enum example.env emsg') = Some parse →
        parse payload = Some message →
        job_id_target header = id →
        ∃ c3,
          _process_gc_message example.env emsg' header payload c2 = Ok tt c3
          ∧ published c3
            = published c2 ++ [(KEnum (get_emsg_enum example.env emsg'),
                                PMessage (length (messages c2)));
                               (KStr "job_1", PMessage (length (messages c2)))]
          ∧ last (published c3) = Some (KStr "job_1", PMessage (length (messages c2)))
          ∧ messages c3 !! length (messages c2) = Some message.
Proof.
  apply (job_reply_routed example.env 9999 DataNone ProtoNone (init_client example.env)
           (final (send_job example.env 9999 DataNone ProtoNone (init_client example.env)))
           "job_1").
  vm_compute. reflexivity.
Defined.


(** Connection-status messages with the statuses 0 and 2 at the initial
    client, and with a value that is no status, which reads as 0. *)
Example conn_status_frames :
  let c := init_client example.env in
  let after payload :=
    step example.env
      (final (_process_gc_message example.env 4009 (mk_Header 0 18446744073709551615)
                payload c)) in
  (connection_status (after [Byte.x00]), ready (after [Byte.x00])) = (0, true)
  ∧ (connection_status (after [Byte.x02]), ready (after [Byte.x02])) = (2, false)
  ∧ (connection_status (after [Byte.x09]), ready (after [Byte.x09])) = (0, true).
Proof. repeat split; vm_compute; reflexivity. Qed.

End client_more.
